(** * Redo-meta manager and capture run loop of tiflow: a shallow embedding

    The development follows [cdc/redo/meta_manager.go] (package [redo]) and
    the capture runtime (package [capture]).  Timestamps are Go [uint64]
    values; the code only compares and copies them, so they are modelled as
    [N] and no wrap-around can occur.  Go strings and byte slices are Rocq
    strings (sequences of bytes).  The manager is a record that is threaded
    through every method, together with the external storage it points to. *)

From Stdlib Require Import String Ascii NArith ZArith QArith Lqa Lia List.
From stdpp Require Import base option list gmap strings.

Local Open Scope string_scope.
Local Open Scope N_scope.

(* ===================================================================== *)
(** ** Go standard library: [strings] and [path/filepath]                *)
(* ===================================================================== *)

Module GoStrings.

(** [strings.HasPrefix(s, prefix)]. *)
Definition HasPrefix (s prefix : string) : bool := String.prefix prefix s.

(** [strings.HasSuffix(s, suffix)]: some tail of [s] is [suffix]. *)
Fixpoint HasSuffix (s suffix : string) : bool :=
  if String.eqb s suffix then true
  else match s with
       | EmptyString => false
       | String _ rest => HasSuffix rest suffix
       end.

(** [strings.Contains(s, substr)]: [substr] is a prefix of some tail. *)
Fixpoint Contains (s substr : string) : bool :=
  if HasPrefix s substr then true
  else match s with
       | EmptyString => false
       | String _ rest => Contains rest substr
       end.

(** The backward scan of [filepath.Ext]: walking from the last byte to the
    first, it stops at a path separator and returns at the first dot. *)
Inductive extScan := ExtFound (ext : string) | ExtSeparator | ExtNone.

Fixpoint scanExt (path : string) : extScan :=
  match path with
  | EmptyString => ExtNone
  | String c rest =>
      match scanExt rest with
      | ExtFound e => ExtFound e
      | ExtSeparator => ExtSeparator
      | ExtNone =>
          if Ascii.eqb c "." then ExtFound path
          else if Ascii.eqb c "/" then ExtSeparator
          else ExtNone
      end
  end.

(** [filepath.Ext(path)]: the suffix beginning at the final dot in the final
    element of [path]; empty if there is no dot. *)
Definition Ext (path : string) : string :=
  match scanExt path with
  | ExtFound e => e
  | _ => ""
  end.

End GoStrings.

(* ===================================================================== *)
(** ** Errors                                                             *)
(* ===================================================================== *)

Module Errors.

(** RFC classes of [pkg/errors] that the modelled code mentions. *)
(* The functions below model [github.com/pingcap/errors]: [Cause] unwinds
   traces, annotations and wraps down to the root; [Equal] compares the
   class of the root. *)
Inductive RFC :=
| ErrExternalStorageAPI
| ErrMarshalFailed
| ErrRedoMetaInitialize
| ErrCaptureSuicide
| ErrCaptureRegister
| ErrPDEtcdAPIError.

Global Instance RFC_eq_dec : EqDecision RFC.
Proof. solve_decision. Defined.

(** Go [error] values.  Leaves are the [context] sentinels, the storage's
    not-found condition and opaque foreign errors; a normalized error
    carries its RFC class ([rfc.GenWithStackByArgs()]) and, when made by
    [rfc.Wrap(inner)], the error it wraps; [errors.Trace] and
    [errors.Annotate] add a layer that keeps the cause. *)
Inductive error :=
| ContextCanceled
| ContextDeadlineExceeded
| NotExist
| Opaque (msg : string)
| Normalized (rfc : RFC)
| Wrapped (rfc : RFC) (inner : error)
| Annotated (msg : string) (inner : error).

Global Instance error_eq_dec : EqDecision error.
Proof.
  refine (fix go (x y : error) : Decision (x = y) :=
    match x, y with
    | ContextCanceled, ContextCanceled => left _
    | ContextDeadlineExceeded, ContextDeadlineExceeded => left _
    | NotExist, NotExist => left _
    | Opaque a, Opaque b => cast_if (decide (a = b))
    | Normalized r, Normalized r' => cast_if (decide (r = r'))
    | Wrapped r i, Wrapped r' i' => cast_if_and (decide (r = r')) (go i i')
    | Annotated a i, Annotated b i' => cast_if_and (decide (a = b)) (go i i')
    | _, _ => right _
    end); abstract congruence.
Defined.

(** [errors.Cause]: the root of the chain. *)
Fixpoint Cause (err : error) : error :=
  match err with
  | Wrapped _ inner => Cause inner
  | Annotated _ inner => Cause inner
  | _ => err
  end.

(** [rfc.Equal(err)]: the root of [err] is a normalized error of class
    [rfc]; [nil] is equal to nothing. *)
Definition Equal (rfc : RFC) (err : option error) : bool :=
  match err with
  | None => false
  | Some e =>
      match Cause e with
      | Normalized rfc' => bool_decide (rfc = rfc')
      | _ => false
      end
  end.

(** [errors.Trace(err)]: [nil] stays [nil]. *)
Definition Trace (err : option error) : option error :=
  match err with
  | None => None
  | Some e => Some (Annotated "" e)
  end.

(** [errors.Annotate(err, msg)]. *)
Definition Annotate (err : error) (msg : string) : error := Annotated msg err.

(** Modelled from the spec: [errors.WrapError] is defined in [pkg/errors],
    whose code is missing here.  A storage error is "wrapped as
    [ExternalStorageAPI]", an initialisation error "wraps
    [ErrRedoMetaInitialize]": the non-nil [err] is wrapped in the class. *)
Definition WrapError (rfc : RFC) (err : error) : error := Wrapped rfc err.

(** Modelled from the spec: [util.IsNotExistInExtStorage] is defined in
    [pkg/util], whose code is missing here.  It recognizes the store's "distinguishable not-found
    condition". *)
Definition IsNotExistInExtStorage (err : error) : bool :=
  match Cause err with
  | NotExist => true
  | _ => false
  end.

End Errors.

(* ===================================================================== *)
(** ** Package [redo]: file-name constants                               *)
(* ===================================================================== *)

Module RedoConst.

(** Modelled from the spec: the constants are defined in [pkg/redo], whose
    code is missing here.  The storage layout gives the meta file as
    [<capture>_<namespace>_<feed>_meta_<uuid>.meta], redo logs as [*.log]
    and the two log file types as [row] and [ddl]. *)
Definition MetaEXT : string := ".meta".
Definition LogEXT : string := ".log".
Definition RedoMetaFileType : string := "meta".
Definition RedoRowLogFileType : string := "row".
Definition RedoDDLLogFileType : string := "ddl".

(** [model.DefaultNamespace]. *)
Definition DefaultNamespace : string := "default".

End RedoConst.

(* ===================================================================== *)
(** ** External storage                                                   *)
(* ===================================================================== *)

Module Storage.
Import Errors.

(** The calls of [storage.ExternalStorage] that the manager makes. *)
Inductive StorageOp :=
| OpWriteFile (path : string)
| OpReadFile (path : string)
| OpDeleteFile (path : string)
| OpFileExists (path : string)
| OpWalkDir.

(** An object store: the objects by path, the environment's choice of
    which calls fail (and how) at the moment ([faults op = None] lets the
    call through), and the calls received so far, oldest first. *)
Record ExternalStorage := {
  files : gmap string string;
  faults : StorageOp -> option error;
  calls : list StorageOp;
}.

Definition setFiles (s : ExternalStorage) (fs : gmap string string) :=
  {| files := fs; faults := faults s; calls := calls s |}.

Definition setFaults (s : ExternalStorage) (f : StorageOp -> option error) :=
  {| files := files s; faults := f; calls := calls s |}.

Definition called (op : StorageOp) (s : ExternalStorage) :=
  {| files := files s; faults := faults s; calls := calls s ++ [op] |}.

(** No call fails. *)
Definition noFaults : StorageOp -> option error := fun _ => None.

(** [WriteFile(ctx, path, data)]: atomic per object. *)
Definition WriteFile (path data : string) (s : ExternalStorage)
  : option error * ExternalStorage :=
  let s := called (OpWriteFile path) s in
  match faults s (OpWriteFile path) with
  | Some e => (Some e, s)
  | None => (None, setFiles s (<[path := data]> (files s)))
  end.

(** [ReadFile(ctx, path)]: a missing object is the not-found condition. *)
Definition ReadFile (path : string) (s : ExternalStorage)
  : (string * option error) * ExternalStorage :=
  let s := called (OpReadFile path) s in
  match faults s (OpReadFile path) with
  | Some e => (("", Some e), s)
  | None =>
      match files s !! path with
      | Some data => ((data, None), s)
      | None => (("", Some NotExist), s)
      end
  end.

(** [DeleteFile(ctx, path)]. *)
Definition DeleteFile (path : string) (s : ExternalStorage)
  : option error * ExternalStorage :=
  let s := called (OpDeleteFile path) s in
  match faults s (OpDeleteFile path) with
  | Some e => (Some e, s)
  | None => (None, setFiles s (delete path (files s)))
  end.

(** [FileExists(ctx, path)]. *)
Definition FileExists (path : string) (s : ExternalStorage)
  : (bool * option error) * ExternalStorage :=
  let s := called (OpFileExists path) s in
  match faults s (OpFileExists path) with
  | Some e => ((false, Some e), s)
  | None => ((bool_decide (is_Some (files s !! path)), None), s)
  end.

(** [WalkDir(ctx, nil, fn)]: the names present when the walk starts, which
    the caller then feeds to its callback. *)
Definition WalkDir (s : ExternalStorage)
  : (list string * option error) * ExternalStorage :=
  let s := called OpWalkDir s in
  match faults s OpWalkDir with
  | Some e => (([], Some e), s)
  | None => (((map_to_list (files s)).*1, None), s)
  end.

End Storage.

(* ===================================================================== *)
(** ** The redo-meta manager                                              *)
(* ===================================================================== *)

Module MetaManager.
Import GoStrings Errors RedoConst Storage.

(** [model.Ts]. *)
Definition Ts := N.

(** [common.LogMeta]. *)
Record LogMeta := { CheckpointTs : Ts; ResolvedTs : Ts }.

(** [model.ChangeFeedID]. *)
Record ChangeFeedID := { Namespace : string; ID : string }.

(** The result of a call: a value, a returned Go error, or a panic. *)
Inductive outcome (A : Type) :=
| Returned (a : A)
| Errored (e : error)
| Panicked (msg : string).
Arguments Returned {A} a.
Arguments Errored {A} e.
Arguments Panicked {A} msg.

(** The codec of [LogMeta] ([MarshalMsg], [UnmarshalMsg]) is code generated
    by msgp and missing here; it is an interface, as [msgp.Marshaler] and
    [msgp.Unmarshaler] are. *)
Class LogMetaCodec := {
  MarshalMsg : LogMeta -> outcome string;
  UnmarshalMsg : string -> outcome LogMeta;
}.

(** [redo.ParseLogFileName] is defined in [pkg/redo] and likewise missing
    here: it yields the commit timestamp and the file type that a name encodes, or
    an error. *)
Inductive parsedName :=
| ParsedAs (commitTs : Ts) (fileType : string)
| ParseError (err : error).

Class LogFileNames := {
  ParseLogFileName : string -> parsedName;
}.

(** [uuid.Generator]: the strings it will hand out, and how many it has. *)
Record Generator := { uuidAt : nat -> string; issued : nat }.

Definition NewString (g : Generator) : string * Generator :=
  (uuidAt g (issued g), {| uuidAt := uuidAt g; issued := S (issued g) |}).

(** Modelled from the spec: [statefulRts] and its methods are declared in
    another file of package [redo], missing here.  It holds [unflushed] and [flushed]; "the check-and-set returns
    false and makes no change when [v < unflushed]", and [setFlushed]
    publishes the value it is given. *)
Record statefulRts := { flushed : Ts; unflushed : Ts }.

Definition getFlushed (s : statefulRts) : Ts := flushed s.
Definition getUnflushed (s : statefulRts) : Ts := unflushed s.

Definition checkAndSetUnflushed (v : Ts) (s : statefulRts)
  : bool * statefulRts :=
  if v <? unflushed s then (false, s)
  else (true, {| flushed := flushed s; unflushed := v |}).

Definition setFlushed (v : Ts) (s : statefulRts) : statefulRts :=
  {| flushed := v; unflushed := unflushed s |}.

(** The struct [metaManager].  [lastFlushTime] and the metric observer only
    feed log lines and metrics and are left out. *)
Record metaManager := {
  captureID : string;
  changeFeedID : ChangeFeedID;
  enabled : bool;
  metaCheckpointTs : statefulRts;
  metaResolvedTs : statefulRts;
  extStorage : option ExternalStorage;
  uuidGenerator : Generator;
  preMetaFile : string;
}.

Definition withCheckpointTs (m : metaManager) (s : statefulRts) :=
  {| captureID := captureID m; changeFeedID := changeFeedID m;
     enabled := enabled m; metaCheckpointTs := s;
     metaResolvedTs := metaResolvedTs m; extStorage := extStorage m;
     uuidGenerator := uuidGenerator m; preMetaFile := preMetaFile m |}.

Definition withResolvedTs (m : metaManager) (s : statefulRts) :=
  {| captureID := captureID m; changeFeedID := changeFeedID m;
     enabled := enabled m; metaCheckpointTs := metaCheckpointTs m;
     metaResolvedTs := s; extStorage := extStorage m;
     uuidGenerator := uuidGenerator m; preMetaFile := preMetaFile m |}.

Definition withExtStorage (m : metaManager) (s : option ExternalStorage) :=
  {| captureID := captureID m; changeFeedID := changeFeedID m;
     enabled := enabled m; metaCheckpointTs := metaCheckpointTs m;
     metaResolvedTs := metaResolvedTs m; extStorage := s;
     uuidGenerator := uuidGenerator m; preMetaFile := preMetaFile m |}.

Definition withUuidGenerator (m : metaManager) (g : Generator) :=
  {| captureID := captureID m; changeFeedID := changeFeedID m;
     enabled := enabled m; metaCheckpointTs := metaCheckpointTs m;
     metaResolvedTs := metaResolvedTs m; extStorage := extStorage m;
     uuidGenerator := g; preMetaFile := preMetaFile m |}.

Definition withPreMetaFile (m : metaManager) (f : string) :=
  {| captureID := captureID m; changeFeedID := changeFeedID m;
     enabled := enabled m; metaCheckpointTs := metaCheckpointTs m;
     metaResolvedTs := metaResolvedTs m; extStorage := extStorage m;
     uuidGenerator := uuidGenerator m; preMetaFile := f |}.

(** *** Methods as state transformers *)

(** A method with receiver [m *metaManager]: it may update the manager (and
    the storage behind it) and ends in a value, an error or a panic.  The
    updates made before an error are kept, as in Go. *)
Definition M (A : Type) : Type := metaManager -> outcome A * metaManager.

Definition ret {A} (a : A) : M A := fun m => (Returned a, m).
Definition raise {A} (e : error) : M A := fun m => (Errored e, m).
Definition panic {A} (msg : string) : M A := fun m => (Panicked msg, m).

Definition bind {A B} (c : M A) (k : A -> M B) : M B :=
  fun m =>
    match c m with
    | (Returned a, m') => k a m'
    | (Errored e, m') => (Errored e, m')
    | (Panicked msg, m') => (Panicked msg, m')
    end.

Notation "'let!' x ':=' c 'in' k" := (bind c (fun x => k))
  (at level 10, x pattern, c at level 100, k at level 200).
Notation "'do!' c 'in' k" := (bind c (fun _ => k))
  (at level 10, c at level 100, k at level 200).

Definition gets {A} (f : metaManager -> A) : M A := fun m => (Returned (f m), m).
Definition modify (f : metaManager -> metaManager) : M unit :=
  fun m => (Returned tt, f m).

(** An error coming out of [c] is passed through [f] ([errors.WrapError],
    [errors.Trace] around a call). *)
Definition mapError {A} (f : error -> error) (c : M A) : M A :=
  fun m =>
    match c m with
    | (Errored e, m') => (Errored (f e), m')
    | r => r
    end.

(** A call on [m.extStorage]; on a nil storage the call panics. *)
Definition onStorage {A} (op : ExternalStorage -> A * ExternalStorage) : M A :=
  fun m =>
    match extStorage m with
    | None => (Panicked "nil pointer dereference", m)
    | Some s => let (a, s') := op s in (Returned a, withExtStorage m (Some s'))
    end.

(** *** Name helpers *)

(** [getChangefeedMatcher]. *)
Definition getChangefeedMatcher (changeFeedID : ChangeFeedID) : string :=
  if String.eqb (Namespace changeFeedID) "default"
  then "_" ++ ID changeFeedID ++ "_"
  else "_" ++ Namespace changeFeedID ++ "_" ++ ID changeFeedID ++ "_".

(** [getDeletedChangefeedMarker]. *)
Definition getDeletedChangefeedMarker (changeFeedID : ChangeFeedID) : string :=
  if String.eqb (Namespace changeFeedID) DefaultNamespace
  then "delete_" ++ ID changeFeedID
  else "delete_" ++ Namespace changeFeedID ++ "_" ++ ID changeFeedID.

(** The name that [getMetafileName] builds around a given uuid, with
    [redo.RedoMetaFileFormat] as the storage layout gives it:
    [<capture>_<namespace>_<feed>_meta_<uuid>.meta]. *)
Definition metafileNameOf (captureID : string) (changeFeedID : ChangeFeedID)
    (uuid : string) : string :=
  captureID ++ "_" ++ Namespace changeFeedID ++ "_" ++ ID changeFeedID
    ++ "_" ++ RedoMetaFileType ++ "_" ++ uuid ++ MetaEXT.

(** [getMetafileName]: draws a fresh string from the generator. *)
Definition getMetafileName : M string :=
  let! g := gets uuidGenerator in
  let (uuid, g') := NewString g in
  do! modify (fun m => withUuidGenerator m g') in
  let! cid := gets captureID in
  let! feed := gets changeFeedID in
  ret (metafileNameOf cid feed uuid).

(** *** Updating and reading the timestamps *)

(** A [log.Warn] line with its [zap.Uint64] fields. *)
Inductive LogEntry := LogWarn (msg : string) (fields : list (string * Ts)).

(** [UpdateMeta]: it has no result; the warnings it logs are returned
    next to the updated manager. *)
Definition UpdateMeta (checkpointTs resolvedTs : Ts) (m : metaManager)
  : list LogEntry * metaManager :=
  let (okR, rts) := checkAndSetUnflushed resolvedTs (metaResolvedTs m) in
  let m := withResolvedTs m rts in
  let logR :=
    if okR then []
    else [LogWarn "update redo meta with a regressed resolved ts, ignore"
            [("currResolvedTs", getFlushed (metaResolvedTs m));
             ("recvResolvedTs", resolvedTs)]] in
  let (okC, cts) := checkAndSetUnflushed checkpointTs (metaCheckpointTs m) in
  let m := withCheckpointTs m cts in
  let logC :=
    if okC then []
    else [LogWarn "update redo meta with a regressed checkpoint ts, ignore"
            [("currCheckpointTs", getFlushed (metaCheckpointTs m));
             ("recvCheckpointTs", checkpointTs)]] in
  ((logR ++ logC)%list, m).

(** [GetFlushedMeta]. *)
Definition GetFlushedMeta (m : metaManager) : LogMeta :=
  let checkpointTs := getFlushed (metaCheckpointTs m) in
  let resolvedTs := getFlushed (metaResolvedTs m) in
  {| CheckpointTs := checkpointTs; ResolvedTs := resolvedTs |}.

(** *** Flushing *)

(** [prepareForFlushMeta]. *)
Definition prepareForFlushMeta (m : metaManager) : bool * LogMeta :=
  let flushed :=
    {| CheckpointTs := getFlushed (metaCheckpointTs m);
       ResolvedTs := getFlushed (metaResolvedTs m) |} in
  let unflushed :=
    {| CheckpointTs := getUnflushed (metaCheckpointTs m);
       ResolvedTs := getUnflushed (metaResolvedTs m) |} in
  let hasChange :=
    (CheckpointTs flushed <? CheckpointTs unflushed)
    || (ResolvedTs flushed <? ResolvedTs unflushed) in
  (hasChange, unflushed).

(** [postFlushMeta]. *)
Definition postFlushMeta (meta : LogMeta) : M unit :=
  do! modify (fun m =>
        withResolvedTs m (setFlushed (ResolvedTs meta) (metaResolvedTs m))) in
  modify (fun m =>
        withCheckpointTs m (setFlushed (CheckpointTs meta) (metaCheckpointTs m))).

Section WithCodec.
Context `{LogMetaCodec}.

(** [flush]. *)
Definition flush (meta : LogMeta) : M unit :=
  match MarshalMsg meta with
  | Errored err => raise (WrapError ErrMarshalFailed err)
  | Panicked msg => panic msg
  | Returned data =>
      let! metaFile := getMetafileName in
      let! werr := onStorage (WriteFile metaFile data) in
      match werr with
      | Some err => raise (WrapError ErrExternalStorageAPI err)
      | None =>
          let! pre := gets preMetaFile in
          if negb (String.eqb pre "") then
            if String.eqb pre metaFile then
              (* only with a constant uuid generator, in tests *)
              ret tt
            else
              let! derr := onStorage (DeleteFile pre) in
              match derr with
              | Some err =>
                  if negb (IsNotExistInExtStorage err)
                  then raise (WrapError ErrExternalStorageAPI err)
                  else modify (fun m => withPreMetaFile m metaFile)
              | None => modify (fun m => withPreMetaFile m metaFile)
              end
          else modify (fun m => withPreMetaFile m metaFile)
      end
  end.

(** [maybeFlushMeta]; the stuck-owner warning of the unchanged case is a
    log line only. *)
Definition maybeFlushMeta : M unit :=
  let! (hasChange, unflushed) := gets prepareForFlushMeta in
  if negb hasChange then ret tt
  else
    do! flush unflushed in
    postFlushMeta unflushed.

(** One tick of [bgFlushMeta]. *)
Definition bgFlushMeta_tick : M unit :=
  mapError (fun e => Annotated "" e) maybeFlushMeta.

End WithCodec.

(** *** Sweeping files *)

(** Modelled from the spec: [util.DeleteFilesInExtStorage] is defined in
    [pkg/util], whose code is missing here.  It deletes the listed files; here one after another,
    a not-found answer being no failure and any other error ending the
    sweep, wrapped as [ErrExternalStorageAPI]. *)
Fixpoint DeleteFilesInExtStorage (toRemoveFiles : list string) : M unit :=
  match toRemoveFiles with
  | [] => ret tt
  | file :: rest =>
      let! derr := onStorage (DeleteFile file) in
      match derr with
      | Some err =>
          if negb (IsNotExistInExtStorage err)
          then raise (WrapError ErrExternalStorageAPI err)
          else DeleteFilesInExtStorage rest
      | None => DeleteFilesInExtStorage rest
      end
  end.

(** The predicate of a sweep applied along a listing; a panic of the
    predicate ends the walk. *)
Fixpoint selectFiles (pred : string -> outcome bool) (paths : list string)
  : outcome (list string) :=
  match paths with
  | [] => Returned []
  | path :: rest =>
      match pred path with
      | Returned b =>
          match selectFiles pred rest with
          | Returned l => Returned (if b then path :: l else l)
          | other => other
          end
      | Errored e => Errored e
      | Panicked msg => Panicked msg
      end
  end.

(** Modelled from the spec: [util.RemoveFilesIf] is defined in [pkg/util],
    whose code is missing here; it is the store's
    [removeFilesIf(predicate)]: walk the store, collect the paths the
    predicate accepts, then delete them. *)
Definition RemoveFilesIf (pred : string -> outcome bool) : M unit :=
  let! (paths, werr) := onStorage WalkDir in
  match werr with
  | Some err => raise (WrapError ErrExternalStorageAPI err)
  | None =>
      match selectFiles pred paths with
      | Returned toRemoveFiles => DeleteFilesInExtStorage toRemoveFiles
      | Errored e => raise e
      | Panicked msg => panic msg
      end
  end.

(** The predicate shared by [preCleanupExtStorage] and [deleteAllLogs]. *)
Definition allLogsOfFeed (deleteMarker changefeedMatcher path : string) : bool :=
  if String.eqb path deleteMarker || negb (Contains path changefeedMatcher)
  then false
  else true.

(** [preCleanupExtStorage]. *)
Definition preCleanupExtStorage : M unit :=
  let! feed := gets changeFeedID in
  let deleteMarker := getDeletedChangefeedMarker feed in
  let! (exists_, err) := onStorage (FileExists deleteMarker) in
  match err with
  | Some err => raise (WrapError ErrExternalStorageAPI err)
  | None =>
      if negb exists_ then ret tt
      else
        let changefeedMatcher := getChangefeedMatcher feed in
        do! RemoveFilesIf
              (fun path => Returned (allLogsOfFeed deleteMarker changefeedMatcher path)) in
        let! derr := onStorage (DeleteFile deleteMarker) in
        match derr with
        | Some err =>
            if negb (IsNotExistInExtStorage err)
            then raise (WrapError ErrExternalStorageAPI err)
            else ret tt
        | None => ret tt
        end
  end.

(** [deleteAllLogs]: the deleted mark is written before any file is
    cleaned. *)
Definition deleteAllLogs : M unit :=
  let! st := gets extStorage in
  match st with
  | None => ret tt
  | Some _ =>
      let! feed := gets changeFeedID in
      let deleteMarker := getDeletedChangefeedMarker feed in
      let! werr := onStorage (WriteFile deleteMarker "D") in
      match werr with
      | Some err => raise (WrapError ErrExternalStorageAPI err)
      | None =>
          let changefeedMatcher := getChangefeedMatcher feed in
          RemoveFilesIf
            (fun path => Returned (allLogsOfFeed deleteMarker changefeedMatcher path))
      end
  end.

(** [Cleanup]; dropping the metric labels has no effect on the manager. *)
Definition Cleanup : M unit := deleteAllLogs.

Section WithLogFileNames.
Context `{LogFileNames}.

(** [shouldRemoved]. *)
Definition shouldRemoved (changeFeedID : ChangeFeedID) (path : string)
    (checkPointTs : Ts) : outcome bool :=
  let changefeedMatcher := getChangefeedMatcher changeFeedID in
  if negb (Contains path changefeedMatcher) then Returned false
  else if negb (String.eqb (Ext path) LogEXT) then Returned false
  else
    match ParseLogFileName path with
    | ParseError _ => Returned false
    | ParsedAs commitTs fileType =>
        if negb (String.eqb fileType RedoDDLLogFileType)
           && negb (String.eqb fileType RedoRowLogFileType)
        then Panicked "unknown file type"
        else Returned (commitTs <? checkPointTs)
    end.

(** One tick of [bgGC]; [preCkpt] is the loop's local variable and the
    result is its value after the tick. *)
Definition bgGC_tick (preCkpt : Ts) : M Ts :=
  let! ckpt := gets (fun m => getFlushed (metaCheckpointTs m)) in
  if ckpt =? preCkpt then ret preCkpt
  else
    let! feed := gets changeFeedID in
    do! mapError (fun e => Annotated "" e)
          (RemoveFilesIf (fun path => shouldRemoved feed path ckpt)) in
    ret ckpt.

End WithLogFileNames.

(** *** Initialisation *)

(** Modelled from the spec: [common.ParseMeta] is defined in
    [cdc/redo/common], whose code is missing here.  "Reduce: [checkpointTs = max(all.checkpointTs)],
    [resolvedTs = max(all.resolvedTs, checkpointTs)]." *)
Definition ParseMeta (metas : list LogMeta) : Ts * Ts :=
  let checkpointTs := foldr N.max 0 (CheckpointTs <$> metas) in
  let resolvedTs := N.max (foldr N.max 0 (ResolvedTs <$> metas)) checkpointTs in
  (checkpointTs, resolvedTs).

Section WithCodecInit.
Context `{LogMetaCodec}.

(** The callback that [initMeta] hands to [WalkDir], with the two slices
    it appends to. *)
Definition initMeta_visit (path : string) (acc : list LogMeta * list string)
  : M (list LogMeta * list string) :=
  let (metas, toRemoveMetaFiles) := acc in
  if negb (HasSuffix path MetaEXT) then ret acc
  else
    let toRemoveMetaFiles := (toRemoveMetaFiles ++ [path])%list in
    let! (data, err) := onStorage (ReadFile path) in
    let decode : M (list LogMeta * list string) :=
      if negb (String.length data =? 0)%nat then
        match UnmarshalMsg data with
        | Returned meta => ret ((metas ++ [meta])%list, toRemoveMetaFiles)
        | Errored e' => raise e'
        | Panicked msg => panic msg
        end
      else ret (metas, toRemoveMetaFiles) in
    match err with
    | Some e => if negb (IsNotExistInExtStorage e) then raise e else decode
    | None => decode
    end.

(** The walk: the callback on each name in turn, stopping at its first
    error. *)
Fixpoint initMeta_walk (paths : list string) (acc : list LogMeta * list string)
  : M (list LogMeta * list string) :=
  match paths with
  | [] => ret acc
  | path :: rest =>
      let! acc' := initMeta_visit path acc in
      initMeta_walk rest acc'
  end.

(** [initMeta]; [ctxErr] is [ctx.Err()] when the context is done. *)
Definition initMeta (ctxErr : option error) (startTs : Ts) : M unit :=
  match ctxErr with
  | Some e => raise (Annotated "" e)
  | None =>
      let metas := [{| CheckpointTs := startTs; ResolvedTs := startTs |}] in
      let! (metas, toRemoveMetaFiles) :=
        mapError (fun err => WrapError ErrRedoMetaInitialize
                               (Annotate err "read meta file fail"))
          (let! (paths, werr) := onStorage WalkDir in
           match werr with
           | Some err => raise err
           | None => initMeta_walk paths (metas, [])
           end) in
      let (checkpointTs, resolvedTs) := ParseMeta metas in
      if (checkpointTs =? 0) || (resolvedTs =? 0) then
        panic "checkpointTs or resolvedTs is 0 when initializing redo meta in owner"
      else
        do! modify (fun m => withResolvedTs m
              {| flushed := flushed (metaResolvedTs m); unflushed := resolvedTs |}) in
        do! modify (fun m => withCheckpointTs m
              {| flushed := flushed (metaCheckpointTs m); unflushed := checkpointTs |}) in
        do! mapError (fun err => WrapError ErrRedoMetaInitialize
                                   (Annotate err "flush meta file fail"))
              maybeFlushMeta in
        DeleteFilesInExtStorage toRemoveMetaFiles
  end.

(** The manager that [NewMetaManager] returns for an enabled feed: zero
    timestamps, no previous meta file; [st] is [None] for the blackhole
    scheme. *)
Definition newMetaManager (capture : string) (feed : ChangeFeedID)
    (gen : Generator) (st : option ExternalStorage) : metaManager :=
  {| captureID := capture; changeFeedID := feed; enabled := true;
     metaCheckpointTs := {| flushed := 0; unflushed := 0 |};
     metaResolvedTs := {| flushed := 0; unflushed := 0 |};
     extStorage := st; uuidGenerator := gen; preMetaFile := "" |}.

(** The initialisation part of [NewMetaManagerWithInit]. *)
Definition NewMetaManagerWithInit_init (ctxErr : option error) (startTs : Ts)
  : M unit :=
  let! st := gets extStorage in
  match st with
  | None => ret tt
  | Some _ =>
      do! preCleanupExtStorage in
      initMeta ctxErr startTs
  end.

End WithCodecInit.

(** *** The manager at work: calls and ticks in any order *)

(** What runs next to the manager: the flush loop and the GC loop of [Run],
    the latter with its local [preCkpt]. *)
Record system := { mgr : metaManager; gcPreCkpt : Ts }.

(** One thing that happens: a call of [UpdateMeta], a tick of either
    background loop, or the storage changing which calls it fails. *)
Inductive event :=
| EvUpdateMeta (checkpointTs resolvedTs : Ts)
| EvFlushTick
| EvGCTick
| EvFaults (f : StorageOp -> option error).

Section WithAll.
Context `{LogMetaCodec} `{LogFileNames}.

Definition step (ev : event) (s : system) : system :=
  match ev with
  | EvUpdateMeta c r =>
      {| mgr := snd (UpdateMeta c r (mgr s)); gcPreCkpt := gcPreCkpt s |}
  | EvFlushTick =>
      {| mgr := snd (bgFlushMeta_tick (mgr s)); gcPreCkpt := gcPreCkpt s |}
  | EvGCTick =>
      match bgGC_tick (gcPreCkpt s) (mgr s) with
      | (Returned pre, m) => {| mgr := m; gcPreCkpt := pre |}
      | (_, m) => {| mgr := m; gcPreCkpt := gcPreCkpt s |}
      end
  | EvFaults f =>
      {| mgr := withExtStorage (mgr s)
                  ((fun st => setFaults st f) <$> extStorage (mgr s));
         gcPreCkpt := gcPreCkpt s |}
  end.

Fixpoint run (evs : list event) (s : system) : system :=
  match evs with
  | [] => s
  | ev :: rest => run rest (step ev s)
  end.

End WithAll.

End MetaManager.

(* ===================================================================== *)
(** ** The capture's outer run loop                                       *)
(* ===================================================================== *)

Module Capture.
Import Errors.

Local Open Scope Q_scope.

(** [rate.Limiter] of [golang.org/x/time/rate]: a token bucket.  Time is in
    seconds, as a rational; [tokens] may be negative while a reservation is
    outstanding. *)
Record Limiter := { limit : Q; burst : Z; tokens : Q; last : Q }.

(** [rate.NewLimiter(r, b)].  The library starts with [last] at the zero
    time, so the first call finds the bucket full; here the bucket starts
    full at time 0. *)
Definition NewLimiter (r : Q) (b : Z) : Limiter :=
  {| limit := r; burst := b; tokens := inject_Z b; last := 0 |}.

(** The library's [advance]: the tokens at time [now], capped at [burst]. *)
Definition advance (now : Q) (lim : Limiter) : Q :=
  let elapsed := now - last lim in
  let t := tokens lim + elapsed * limit lim in
  if Qle_bool (inject_Z (burst lim)) t then inject_Z (burst lim) else t.

(** [rl.Wait(ctx)] called at [now] without the context ending: one token is
    reserved, and the call returns at the time the reservation allows. *)
Definition Wait (now : Q) (lim : Limiter) : Q * Limiter :=
  let t := advance now lim - 1 in
  let waitDuration := if Qle_bool 0 t then 0 else (- t) / limit lim in
  (now + waitDuration,
   {| limit := limit lim; burst := burst lim; tokens := t; last := now |}).

(** [errors.Cause] on a possibly nil error. *)
Definition CauseOf (err : option error) : option error := Cause <$> err.

(** What the environment decides in one pass of the loop of [Run]: whether
    the caller's context is done, when [rl.Wait] is called and whether the
    context ends it, and what the inner [run] returns. *)
Record iteration := {
  ctxDone : bool;
  now : Q;
  waitErr : option error;
  runErr : option error;
}.

(** How [Run] ends, if it does within the passes considered. *)
Inductive RunResult :=
| Exited (err : option error)
| Running.

(** The loop of [Run] from a given limiter state; next to the result, the
    times at which the inner [run] was entered. *)
Fixpoint Run_loop (rl : Limiter) (passes : list iteration) : RunResult * list Q :=
  match passes with
  | [] => (Running, [])
  | it :: rest =>
      if ctxDone it then (Exited None, [])
      else
        match waitErr it with
        | Some err =>
            if bool_decide (Cause err = ContextCanceled) then (Exited None, [])
            else (Exited (Trace (Some err)), [])
        | None =>
            let (started, rl') := Wait (now it) rl in
            let err := runErr it in
            if Equal ErrCaptureSuicide err
               || bool_decide (Some ContextCanceled = CauseOf err)
               || bool_decide (Some ContextDeadlineExceeded = CauseOf err)
            then
              let (res, starts) := Run_loop rl' rest in
              (res, started :: starts)
            else (Exited (Trace err), [started])
        end
  end.

(** The limiter that [Run] builds: [rate.NewLimiter(0.05, 2)]. *)
Definition Run_limiter : Limiter := NewLimiter (5 # 100) 2.

(** [captureImpl.Run]. *)
Definition Run (passes : list iteration) : RunResult * list Q :=
  Run_loop Run_limiter passes.

End Capture.

(* ===================================================================== *)
(** ** The capture's inner run and the owner campaign                     *)
(* ===================================================================== *)

Module CaptureOwner.
Import GoStrings Errors Capture.

(** [model.Liveness], as far as the capture reads it. *)
Inductive Liveness := LivenessCaptureAlive | LivenessCaptureStopping.

Global Instance Liveness_eq_dec : EqDecision Liveness.
Proof. solve_decision. Defined.

(** What the campaign loop needs to know of errors made elsewhere: the text
    of [err.Error()] and the sentinel [mvcc.ErrCompacted] of etcd. *)
Class ErrorTexts := {
  ErrorText : error -> string;
  mvccErrCompacted : error;
}.

(** [isErrCompacted]. *)
Definition isErrCompacted `{ErrorTexts} (err : error) : bool :=
  Contains (ErrorText err) "required revision has been compacted".

(** [register]; [putErr] is what [EtcdClient.PutCaptureInfo] returns. *)
Definition register (putErr : option error) : option error :=
  match putErr with
  | Some err => Some (WrapError ErrCaptureRegister err)
  | None => None
  end.

(** What the capture does to its owner and to the election, in order. *)
Inductive action :=
| ActCampaign
| ActSetOwner
| ActRunOwner
| ActAsyncStop
| ActClearOwner
| ActResign.

Global Instance action_eq_dec : EqDecision action.
Proof. solve_decision. Defined.

(** What the environment decides in one pass of the loop of
    [campaignOwner]: whether the context is done, what [rl.Wait] returns,
    the liveness read before and after the campaign, and what [c.campaign],
    [c.resign] (in the stopping branch and after the owner has run),
    [GetOwnerRevision] and [runEtcdWorker] return. *)
Record campaignPass := {
  passCtxDone : bool;
  passWaitErr : option error;
  livenessBefore : Liveness;
  campaignErr : option error;
  livenessAfter : Liveness;
  stoppingResignErr : option error;
  ownerRevErr : option error;
  workerErr : option error;
  resignErr : option error;
}.

Section WithErrorTexts.
Context `{ErrorTexts}.

(** [campaignOwner]: how it ends, if it does within the passes considered,
    and what it did.  In the stopping branch the [err] that is traced is
    the one of [rl.Wait], which is nil there. *)
Fixpoint campaignOwner (passes : list campaignPass) : RunResult * list action :=
  match passes with
  | [] => (Running, [])
  | p :: rest =>
      if passCtxDone p then (Exited None, [])
      else
        let err := passWaitErr p in
        match err with
        | Some e =>
            if bool_decide (Cause e = ContextCanceled) then (Exited None, [])
            else (Exited (Trace err), [])
        | None =>
            if bool_decide (livenessBefore p = LivenessCaptureStopping)
            then (Exited None, [])
            else
              match campaignErr p with
              | Some cerr =>
                  let rootErr := Cause cerr in
                  if bool_decide (rootErr = ContextCanceled)
                  then (Exited None, [ActCampaign])
                  else if bool_decide (rootErr = mvccErrCompacted)
                          || isErrCompacted rootErr
                  then
                    let (res, acts) := campaignOwner rest in
                    (res, ActCampaign :: acts)
                  else (Exited (Some (Normalized ErrCaptureSuicide)), [ActCampaign])
              | None =>
                  if bool_decide (livenessAfter p = LivenessCaptureStopping) then
                    match stoppingResignErr p with
                    | Some _ => (Exited (Trace err), [ActCampaign; ActResign])
                    | None => (Exited None, [ActCampaign; ActResign])
                    end
                  else
                    match ownerRevErr p with
                    | Some e =>
                        if bool_decide (Cause e = ContextCanceled)
                        then (Exited None, [ActCampaign])
                        else (Exited (Trace (Some e)), [ActCampaign])
                    | None =>
                        let err := workerErr p in
                        let acts := [ActCampaign; ActSetOwner; ActRunOwner;
                                     ActAsyncStop; ActClearOwner; ActResign] in
                        let resigned :=
                          match err with
                          | Some _ => (Exited (Trace err), acts)
                          | None =>
                              let (res, more) := campaignOwner rest in
                              (res, (acts ++ more)%list)
                          end in
                        match resignErr p with
                        | Some re =>
                            if bool_decide (Cause re <> ContextDeadlineExceeded)
                            then (Exited (Trace (Some re)), acts)
                            else resigned
                        | None => resigned
                        end
                    end
              end
        end
  end.

End WithErrorTexts.

(** The first goroutine of [run]: what it returns for the result of
    [campaignOwner] and the liveness it then reads. *)
Definition ownerRoutine (err : option error) (liveness : Liveness) : option error :=
  if bool_decide (err <> None) || bool_decide (liveness <> LivenessCaptureStopping)
  then Some (Normalized ErrCaptureSuicide)
  else None.

(** [errgroup.Group.Wait]: the first non-nil error among the results of
    the goroutines, taken in the order in which they return. *)
Fixpoint groupWait (returned : list (option error)) : option error :=
  match returned with
  | [] => None
  | Some err :: _ => Some err
  | None :: rest => groupWait rest
  end.

(** [run]: [resetErr] is what [c.reset] returns, [putErr] what the
    registration in etcd returns, [returned] the results of the three
    goroutines in the order in which they return. *)
Definition run (resetErr putErr : option error) (returned : list (option error))
  : option error :=
  match resetErr with
  | Some err => Trace (Some err)
  | None =>
      match register putErr with
      | Some err => Trace (Some err)
      | None => Trace (groupWait returned)
      end
  end.

End CaptureOwner.

(* ===================================================================== *)
(** ** The codec configuration                                            *)
(* ===================================================================== *)

(** What [pkg/sink/codec/common/config.go] takes from the package
    [config] ([pkg/config], whose code is missing here): the protocols with the two values the
    file compares against, the default message size, and the parts of the
    replica configuration that [Apply] reads. *)
Module config.

Class Pkg := {
  Protocol : Type;
  Protocol_eq_dec : EqDecision Protocol;
  ProtocolCanalJSON : Protocol;
  ProtocolAvro : Protocol;
  DefaultMaxMessageBytes : Z;
  IntegrityConfig : Type;
  (** The method [Enabled] of [*IntegrityConfig]. *)
  Enabled : IntegrityConfig -> bool;
}.

#[global] Existing Instance Protocol_eq_dec.

Record CSVConfig := {
  Delimiter : string;
  Quote : string;
  NullString : string;
  IncludeCommitTs : bool;
}.

(** [SinkConfig]; the field [CSV] is Go's [CSVConfig], nil or a pointer. *)
Record SinkConfig := {
  SchemaRegistry : string;
  Terminator : string;
  CSV : option CSVConfig;
  OnlyOutputUpdatedColumns : bool;
}.

(** [ReplicaConfig]; [Sink] and [Integrity] are pointers that may be nil. *)
Record ReplicaConfig `{Pkg} := {
  EnableOldValue : bool;
  Sink : option SinkConfig;
  Integrity : option IntegrityConfig;
}.

End config.

(** [strconv] and [net/url] of the Go library, as far as [Apply] uses
    them. *)
Module GoLib.

Local Open Scope Z_scope.

(** [strconv.ErrSyntax] and [strconv.ErrRange]. *)
Inductive NumErrKind := ErrSyntax | ErrRange.

(** [*strconv.NumError]. *)
Record NumError := { Func : string; Num : string; Err : NumErrKind }.

(** [strconv.ParseBool]. *)
Definition ParseBool (str : string) : bool * option NumError :=
  if String.eqb str "1" || String.eqb str "t" || String.eqb str "T"
     || String.eqb str "true" || String.eqb str "TRUE" || String.eqb str "True"
  then (true, None)
  else if String.eqb str "0" || String.eqb str "f" || String.eqb str "F"
     || String.eqb str "false" || String.eqb str "FALSE" || String.eqb str "False"
  then (false, None)
  else (false, Some {| Func := "ParseBool"; Num := str; Err := ErrSyntax |}).

(** The value of a decimal digit. *)
Definition digit (ch : ascii) : option Z :=
  let n := Z.of_N (N_of_ascii ch) in
  if (48 <=? n) && (n <=? 57) then Some (n - 48) else None.

(** The digits of [s] read from the left onto [n]; [None] at the first
    byte that is no digit. *)
Fixpoint digits (s : string) (n : Z) : option Z :=
  match s with
  | EmptyString => Some n
  | String ch rest =>
      match digit ch with
      | Some d => digits rest (n * 10 + d)
      | None => None
      end
  end.

(** The bounds of Go's [int] on a 64-bit platform. *)
Definition minInt : Z := - 2 ^ 63.
Definition maxInt : Z := 2 ^ 63 - 1.

(** [strconv.Atoi]: an optional sign and at least one decimal digit; a
    value outside [int] is a range error, and comes back clamped. *)
Definition Atoi (s : string) : Z * option NumError :=
  let syntaxError := (0, Some {| Func := "Atoi"; Num := s; Err := ErrSyntax |}) in
  let rangeError v := (v, Some {| Func := "Atoi"; Num := s; Err := ErrRange |}) in
  match s with
  | EmptyString => syntaxError
  | String s0 rest =>
      let neg := Ascii.eqb s0 "-" in
      let body := if neg || Ascii.eqb s0 "+" then rest else s in
      match body with
      | EmptyString => syntaxError
      | _ =>
          match digits body 0 with
          | None => syntaxError
          | Some un =>
              let n := if neg then - un else un in
              if n <? minInt then rangeError minInt
              else if maxInt <? n then rangeError maxInt
              else (n, None)
          end
      end
  end.

(** [url.Values]: the parsed query of the sink URI. *)
Definition Values := gmap string (list string).

(** [Values.Get]: the first value of the key, or the empty string. *)
Definition Get (v : Values) (key : string) : string :=
  match v !! key with
  | Some (first :: _) => first
  | _ => ""
  end.

End GoLib.

Module CodecConfig.
Import GoLib.

Local Open Scope Z_scope.

(** What [Apply] and [Validate] return: an error of [strconv], or
    [cerror.ErrCodecInvalidConfig] for one of its six reasons; the two size
    reasons carry the number that the message prints. *)
Inductive InvalidConfig :=
| OldValueMustBeEnabled
| AvroRequiresSchemaRegistry
| BadAvroDecimalHandlingMode
| BadAvroBigintUnsignedHandlingMode
| AvroRowChecksumRequirements
| InvalidMaxMessageBytes (n : Z)
| InvalidMaxBatchSize (n : Z).

Inductive error :=
| StrconvError (e : NumError)
| ErrCodecInvalidConfig (reason : InvalidConfig).

(** [defaultMaxBatchSize]. *)
Definition defaultMaxBatchSize : Z := 16.

Definition codecOPTEnableTiDBExtension : string := "enable-tidb-extension".
Definition codecOPTMaxBatchSize : string := "max-batch-size".
Definition codecOPTMaxMessageBytes : string := "max-message-bytes".
Definition codecOPTAvroDecimalHandlingMode : string := "avro-decimal-handling-mode".
Definition codecOPTAvroBigintUnsignedHandlingMode : string :=
  "avro-bigint-unsigned-handling-mode".
Definition codecOPTAvroSchemaRegistry : string := "schema-registry".
Definition codecOPTAvroEnableWatermark : string := "avro-enable-watermark".
Definition codecOPTOnlyOutputUpdatedColumns : string := "only-output-updated-columns".

Definition DecimalHandlingModeString : string := "string".
Definition DecimalHandlingModePrecise : string := "precise".
Definition BigintUnsignedHandlingModeString : string := "string".
Definition BigintUnsignedHandlingModeLong : string := "long".

Section WithConfigPkg.
Context `{config.Pkg}.

(** The struct [Config]. *)
Record Config := {
  Protocol : config.Protocol;
  MaxMessageBytes : Z;
  MaxBatchSize : Z;
  EnableTiDBExtension : bool;
  EnableRowChecksum : bool;
  AvroSchemaRegistry : string;
  AvroDecimalHandlingMode : string;
  AvroBigintUnsignedHandlingMode : string;
  AvroEnableWatermark : bool;
  Delimiter : string;
  Quote : string;
  NullString : string;
  IncludeCommitTs : bool;
  Terminator : string;
  OnlyOutputUpdatedColumns : bool;
}.

(** Assignments to one field of [*c]. *)

Definition setMaxMessageBytes (c : Config) (v : Z) : Config :=
  {| Protocol := Protocol c; MaxMessageBytes := v;
     MaxBatchSize := MaxBatchSize c;
     EnableTiDBExtension := EnableTiDBExtension c;
     EnableRowChecksum := EnableRowChecksum c;
     AvroSchemaRegistry := AvroSchemaRegistry c;
     AvroDecimalHandlingMode := AvroDecimalHandlingMode c;
     AvroBigintUnsignedHandlingMode := AvroBigintUnsignedHandlingMode c;
     AvroEnableWatermark := AvroEnableWatermark c; Delimiter := Delimiter c;
     Quote := Quote c; NullString := NullString c;
     IncludeCommitTs := IncludeCommitTs c; Terminator := Terminator c;
     OnlyOutputUpdatedColumns := OnlyOutputUpdatedColumns c |}.

Definition setMaxBatchSize (c : Config) (v : Z) : Config :=
  {| Protocol := Protocol c; MaxMessageBytes := MaxMessageBytes c;
     MaxBatchSize := v; EnableTiDBExtension := EnableTiDBExtension c;
     EnableRowChecksum := EnableRowChecksum c;
     AvroSchemaRegistry := AvroSchemaRegistry c;
     AvroDecimalHandlingMode := AvroDecimalHandlingMode c;
     AvroBigintUnsignedHandlingMode := AvroBigintUnsignedHandlingMode c;
     AvroEnableWatermark := AvroEnableWatermark c; Delimiter := Delimiter c;
     Quote := Quote c; NullString := NullString c;
     IncludeCommitTs := IncludeCommitTs c; Terminator := Terminator c;
     OnlyOutputUpdatedColumns := OnlyOutputUpdatedColumns c |}.

Definition setEnableTiDBExtension (c : Config) (v : bool) : Config :=
  {| Protocol := Protocol c; MaxMessageBytes := MaxMessageBytes c;
     MaxBatchSize := MaxBatchSize c; EnableTiDBExtension := v;
     EnableRowChecksum := EnableRowChecksum c;
     AvroSchemaRegistry := AvroSchemaRegistry c;
     AvroDecimalHandlingMode := AvroDecimalHandlingMode c;
     AvroBigintUnsignedHandlingMode := AvroBigintUnsignedHandlingMode c;
     AvroEnableWatermark := AvroEnableWatermark c; Delimiter := Delimiter c;
     Quote := Quote c; NullString := NullString c;
     IncludeCommitTs := IncludeCommitTs c; Terminator := Terminator c;
     OnlyOutputUpdatedColumns := OnlyOutputUpdatedColumns c |}.

Definition setEnableRowChecksum (c : Config) (v : bool) : Config :=
  {| Protocol := Protocol c; MaxMessageBytes := MaxMessageBytes c;
     MaxBatchSize := MaxBatchSize c;
     EnableTiDBExtension := EnableTiDBExtension c; EnableRowChecksum := v;
     AvroSchemaRegistry := AvroSchemaRegistry c;
     AvroDecimalHandlingMode := AvroDecimalHandlingMode c;
     AvroBigintUnsignedHandlingMode := AvroBigintUnsignedHandlingMode c;
     AvroEnableWatermark := AvroEnableWatermark c; Delimiter := Delimiter c;
     Quote := Quote c; NullString := NullString c;
     IncludeCommitTs := IncludeCommitTs c; Terminator := Terminator c;
     OnlyOutputUpdatedColumns := OnlyOutputUpdatedColumns c |}.

Definition setAvroSchemaRegistry (c : Config) (v : string) : Config :=
  {| Protocol := Protocol c; MaxMessageBytes := MaxMessageBytes c;
     MaxBatchSize := MaxBatchSize c;
     EnableTiDBExtension := EnableTiDBExtension c;
     EnableRowChecksum := EnableRowChecksum c; AvroSchemaRegistry := v;
     AvroDecimalHandlingMode := AvroDecimalHandlingMode c;
     AvroBigintUnsignedHandlingMode := AvroBigintUnsignedHandlingMode c;
     AvroEnableWatermark := AvroEnableWatermark c; Delimiter := Delimiter c;
     Quote := Quote c; NullString := NullString c;
     IncludeCommitTs := IncludeCommitTs c; Terminator := Terminator c;
     OnlyOutputUpdatedColumns := OnlyOutputUpdatedColumns c |}.

Definition setAvroDecimalHandlingMode (c : Config) (v : string) : Config :=
  {| Protocol := Protocol c; MaxMessageBytes := MaxMessageBytes c;
     MaxBatchSize := MaxBatchSize c;
     EnableTiDBExtension := EnableTiDBExtension c;
     EnableRowChecksum := EnableRowChecksum c;
     AvroSchemaRegistry := AvroSchemaRegistry c;
     AvroDecimalHandlingMode := v;
     AvroBigintUnsignedHandlingMode := AvroBigintUnsignedHandlingMode c;
     AvroEnableWatermark := AvroEnableWatermark c; Delimiter := Delimiter c;
     Quote := Quote c; NullString := NullString c;
     IncludeCommitTs := IncludeCommitTs c; Terminator := Terminator c;
     OnlyOutputUpdatedColumns := OnlyOutputUpdatedColumns c |}.

Definition setAvroBigintUnsignedHandlingMode (c : Config) (v : string) : Config :=
  {| Protocol := Protocol c; MaxMessageBytes := MaxMessageBytes c;
     MaxBatchSize := MaxBatchSize c;
     EnableTiDBExtension := EnableTiDBExtension c;
     EnableRowChecksum := EnableRowChecksum c;
     AvroSchemaRegistry := AvroSchemaRegistry c;
     AvroDecimalHandlingMode := AvroDecimalHandlingMode c;
     AvroBigintUnsignedHandlingMode := v;
     AvroEnableWatermark := AvroEnableWatermark c; Delimiter := Delimiter c;
     Quote := Quote c; NullString := NullString c;
     IncludeCommitTs := IncludeCommitTs c; Terminator := Terminator c;
     OnlyOutputUpdatedColumns := OnlyOutputUpdatedColumns c |}.

Definition setAvroEnableWatermark (c : Config) (v : bool) : Config :=
  {| Protocol := Protocol c; MaxMessageBytes := MaxMessageBytes c;
     MaxBatchSize := MaxBatchSize c;
     EnableTiDBExtension := EnableTiDBExtension c;
     EnableRowChecksum := EnableRowChecksum c;
     AvroSchemaRegistry := AvroSchemaRegistry c;
     AvroDecimalHandlingMode := AvroDecimalHandlingMode c;
     AvroBigintUnsignedHandlingMode := AvroBigintUnsignedHandlingMode c;
     AvroEnableWatermark := v; Delimiter := Delimiter c; Quote := Quote c;
     NullString := NullString c; IncludeCommitTs := IncludeCommitTs c;
     Terminator := Terminator c;
     OnlyOutputUpdatedColumns := OnlyOutputUpdatedColumns c |}.

Definition setDelimiter (c : Config) (v : string) : Config :=
  {| Protocol := Protocol c; MaxMessageBytes := MaxMessageBytes c;
     MaxBatchSize := MaxBatchSize c;
     EnableTiDBExtension := EnableTiDBExtension c;
     EnableRowChecksum := EnableRowChecksum c;
     AvroSchemaRegistry := AvroSchemaRegistry c;
     AvroDecimalHandlingMode := AvroDecimalHandlingMode c;
     AvroBigintUnsignedHandlingMode := AvroBigintUnsignedHandlingMode c;
     AvroEnableWatermark := AvroEnableWatermark c; Delimiter := v;
     Quote := Quote c; NullString := NullString c;
     IncludeCommitTs := IncludeCommitTs c; Terminator := Terminator c;
     OnlyOutputUpdatedColumns := OnlyOutputUpdatedColumns c |}.

Definition setQuote (c : Config) (v : string) : Config :=
  {| Protocol := Protocol c; MaxMessageBytes := MaxMessageBytes c;
     MaxBatchSize := MaxBatchSize c;
     EnableTiDBExtension := EnableTiDBExtension c;
     EnableRowChecksum := EnableRowChecksum c;
     AvroSchemaRegistry := AvroSchemaRegistry c;
     AvroDecimalHandlingMode := AvroDecimalHandlingMode c;
     AvroBigintUnsignedHandlingMode := AvroBigintUnsignedHandlingMode c;
     AvroEnableWatermark := AvroEnableWatermark c; Delimiter := Delimiter c;
     Quote := v; NullString := NullString c;
     IncludeCommitTs := IncludeCommitTs c; Terminator := Terminator c;
     OnlyOutputUpdatedColumns := OnlyOutputUpdatedColumns c |}.

Definition setNullString (c : Config) (v : string) : Config :=
  {| Protocol := Protocol c; MaxMessageBytes := MaxMessageBytes c;
     MaxBatchSize := MaxBatchSize c;
     EnableTiDBExtension := EnableTiDBExtension c;
     EnableRowChecksum := EnableRowChecksum c;
     AvroSchemaRegistry := AvroSchemaRegistry c;
     AvroDecimalHandlingMode := AvroDecimalHandlingMode c;
     AvroBigintUnsignedHandlingMode := AvroBigintUnsignedHandlingMode c;
     AvroEnableWatermark := AvroEnableWatermark c; Delimiter := Delimiter c;
     Quote := Quote c; NullString := v; IncludeCommitTs := IncludeCommitTs c;
     Terminator := Terminator c;
     OnlyOutputUpdatedColumns := OnlyOutputUpdatedColumns c |}.

Definition setIncludeCommitTs (c : Config) (v : bool) : Config :=
  {| Protocol := Protocol c; MaxMessageBytes := MaxMessageBytes c;
     MaxBatchSize := MaxBatchSize c;
     EnableTiDBExtension := EnableTiDBExtension c;
     EnableRowChecksum := EnableRowChecksum c;
     AvroSchemaRegistry := AvroSchemaRegistry c;
     AvroDecimalHandlingMode := AvroDecimalHandlingMode c;
     AvroBigintUnsignedHandlingMode := AvroBigintUnsignedHandlingMode c;
     AvroEnableWatermark := AvroEnableWatermark c; Delimiter := Delimiter c;
     Quote := Quote c; NullString := NullString c; IncludeCommitTs := v;
     Terminator := Terminator c;
     OnlyOutputUpdatedColumns := OnlyOutputUpdatedColumns c |}.

Definition setTerminator (c : Config) (v : string) : Config :=
  {| Protocol := Protocol c; MaxMessageBytes := MaxMessageBytes c;
     MaxBatchSize := MaxBatchSize c;
     EnableTiDBExtension := EnableTiDBExtension c;
     EnableRowChecksum := EnableRowChecksum c;
     AvroSchemaRegistry := AvroSchemaRegistry c;
     AvroDecimalHandlingMode := AvroDecimalHandlingMode c;
     AvroBigintUnsignedHandlingMode := AvroBigintUnsignedHandlingMode c;
     AvroEnableWatermark := AvroEnableWatermark c; Delimiter := Delimiter c;
     Quote := Quote c; NullString := NullString c;
     IncludeCommitTs := IncludeCommitTs c; Terminator := v;
     OnlyOutputUpdatedColumns := OnlyOutputUpdatedColumns c |}.

Definition setOnlyOutputUpdatedColumns (c : Config) (v : bool) : Config :=
  {| Protocol := Protocol c; MaxMessageBytes := MaxMessageBytes c;
     MaxBatchSize := MaxBatchSize c;
     EnableTiDBExtension := EnableTiDBExtension c;
     EnableRowChecksum := EnableRowChecksum c;
     AvroSchemaRegistry := AvroSchemaRegistry c;
     AvroDecimalHandlingMode := AvroDecimalHandlingMode c;
     AvroBigintUnsignedHandlingMode := AvroBigintUnsignedHandlingMode c;
     AvroEnableWatermark := AvroEnableWatermark c; Delimiter := Delimiter c;
     Quote := Quote c; NullString := NullString c;
     IncludeCommitTs := IncludeCommitTs c; Terminator := Terminator c;
     OnlyOutputUpdatedColumns := v |}.

(** [NewConfig]; the fields it does not name are zero. *)
Definition NewConfig (protocol : config.Protocol) : Config :=
  {| Protocol := protocol;
     MaxMessageBytes := config.DefaultMaxMessageBytes;
     MaxBatchSize := defaultMaxBatchSize;
     EnableTiDBExtension := false;
     EnableRowChecksum := false;
     AvroSchemaRegistry := "";
     AvroDecimalHandlingMode := "precise";
     AvroBigintUnsignedHandlingMode := "long";
     AvroEnableWatermark := false;
     Delimiter := ""; Quote := ""; NullString := "";
     IncludeCommitTs := false; Terminator := "";
     OnlyOutputUpdatedColumns := false |}.

(** A block of [Apply] that may return early: an error ends the method
    with the configuration as assigned so far. *)
Definition andThen (blk : option error * Config)
    (k : Config -> option error * Config) : option error * Config :=
  match blk with
  | (Some err, c) => (Some err, c)
  | (None, c) => k c
  end.

Notation "'try!' c ':=' blk 'in' k" := (andThen blk (fun c => k))
  (at level 10, c name, blk at level 100, k at level 200, only parsing).

(** [Apply]; [params] is [sinkURI.Query()].  The receiver is updated in
    place, so what was assigned before an error stays assigned. *)
Definition Apply (params : Values) (replicaConfig : config.ReplicaConfig)
    (c : Config) : option error * Config :=
  try! c :=
    (let s := Get params codecOPTEnableTiDBExtension in
     if negb (String.eqb s "") then
       match ParseBool s with
       | (_, Some err) => (Some (StrconvError err), c)
       | (b, None) => (None, setEnableTiDBExtension c b)
       end
     else (None, c)) in
  try! c :=
    (let s := Get params codecOPTMaxBatchSize in
     if negb (String.eqb s "") then
       match Atoi s with
       | (_, Some err) => (Some (StrconvError err), c)
       | (a, None) => (None, setMaxBatchSize c a)
       end
     else (None, c)) in
  try! c :=
    (let s := Get params codecOPTMaxMessageBytes in
     if negb (String.eqb s "") then
       match Atoi s with
       | (_, Some err) => (Some (StrconvError err), c)
       | (a, None) => (None, setMaxMessageBytes c a)
       end
     else (None, c)) in
  let c :=
    let s := Get params codecOPTAvroDecimalHandlingMode in
    if negb (String.eqb s "") then setAvroDecimalHandlingMode c s else c in
  let c :=
    let s := Get params codecOPTAvroBigintUnsignedHandlingMode in
    if negb (String.eqb s "") then setAvroBigintUnsignedHandlingMode c s else c in
  try! c :=
    (let s := Get params codecOPTAvroEnableWatermark in
     if negb (String.eqb s "") then
       if EnableTiDBExtension c && bool_decide (Protocol c = config.ProtocolAvro) then
         match ParseBool s with
         | (_, Some err) => (Some (StrconvError err), c)
         | (b, None) => (None, setAvroEnableWatermark c b)
         end
       else (None, c)
     else (None, c)) in
  let c :=
    match config.Sink replicaConfig with
    | Some sink =>
        if negb (String.eqb (config.SchemaRegistry sink) "")
        then setAvroSchemaRegistry c (config.SchemaRegistry sink)
        else c
    | None => c
    end in
  let c :=
    match config.Sink replicaConfig with
    | Some sink =>
        let c := setTerminator c (config.Terminator sink) in
        let c :=
          match config.CSV sink with
          | Some csv =>
              let c := setDelimiter c (config.Delimiter csv) in
              let c := setQuote c (config.Quote csv) in
              let c := setNullString c (config.NullString csv) in
              setIncludeCommitTs c (config.IncludeCommitTs csv)
          | None => c
          end in
        setOnlyOutputUpdatedColumns c (config.OnlyOutputUpdatedColumns sink)
    | None => c
    end in
  try! c :=
    (let s := Get params codecOPTOnlyOutputUpdatedColumns in
     if negb (String.eqb s "") then
       match ParseBool s with
       | (_, Some err) => (Some (StrconvError err), c)
       | (a, None) => (None, setOnlyOutputUpdatedColumns c a)
       end
     else (None, c)) in
  if OnlyOutputUpdatedColumns c && negb (config.EnableOldValue replicaConfig) then
    (Some (ErrCodecInvalidConfig OldValueMustBeEnabled), c)
  else
    let c :=
      match config.Integrity replicaConfig with
      | Some integrity => setEnableRowChecksum c (config.Enabled integrity)
      | None => c
      end in
    (None, c).

(** [WithMaxMessageBytes]. *)
Definition WithMaxMessageBytes (bytes : Z) (c : Config) : Config :=
  setMaxMessageBytes c bytes.

(** [Validate]; the first check only logs a warning. *)
Definition Validate (c : Config) : option error :=
  let avro :=
    if bool_decide (Protocol c = config.ProtocolAvro) then
      if String.eqb (AvroSchemaRegistry c) "" then
        Some (ErrCodecInvalidConfig AvroRequiresSchemaRegistry)
      else if negb (String.eqb (AvroDecimalHandlingMode c) DecimalHandlingModePrecise)
              && negb (String.eqb (AvroDecimalHandlingMode c) DecimalHandlingModeString)
      then Some (ErrCodecInvalidConfig BadAvroDecimalHandlingMode)
      else if negb (String.eqb (AvroBigintUnsignedHandlingMode c)
                      BigintUnsignedHandlingModeLong)
              && negb (String.eqb (AvroBigintUnsignedHandlingMode c)
                         BigintUnsignedHandlingModeString)
      then Some (ErrCodecInvalidConfig BadAvroBigintUnsignedHandlingMode)
      else if EnableRowChecksum c
              && negb (EnableTiDBExtension c
                       && String.eqb (AvroDecimalHandlingMode c) DecimalHandlingModeString
                       && String.eqb (AvroBigintUnsignedHandlingMode c)
                            BigintUnsignedHandlingModeString)
      then Some (ErrCodecInvalidConfig AvroRowChecksumRequirements)
      else None
    else None in
  match avro with
  | Some err => Some err
  | None =>
      if MaxMessageBytes c <=? 0 then
        Some (ErrCodecInvalidConfig (InvalidMaxMessageBytes (MaxMessageBytes c)))
      else if MaxBatchSize c <=? 0 then
        Some (ErrCodecInvalidConfig (InvalidMaxBatchSize (MaxBatchSize c)))
      else None
  end.

End WithConfigPkg.

End CodecConfig.

(* ===================================================================== *)
(** * Properties                                                          *)
(* ===================================================================== *)

Import GoStrings Errors RedoConst Storage MetaManager.

(** ** Strings *)

Lemma HasSuffix_refl s : HasSuffix s s = true.
Proof.
  destruct s as [|c s]; [reflexivity|].
  cbn [HasSuffix]. rewrite String.eqb_refl. reflexivity.
Qed.

Lemma HasSuffix_app a suffix : HasSuffix (a ++ suffix) suffix = true.
Proof.
  induction a as [|c a IH].
  - apply HasSuffix_refl.
  - change (String c a ++ suffix) with (String c (a ++ suffix)).
    cbn [HasSuffix]. destruct (String.eqb _ _); [reflexivity|exact IH].
Qed.

Lemma HasSuffix_length s suffix :
  HasSuffix s suffix = true -> (String.length suffix <= String.length s)%nat.
Proof.
  induction s as [|c s IH]; cbn [HasSuffix].
  - destruct (String.eqb "" suffix) eqn:E; [|discriminate].
    apply String.eqb_eq in E. subst. simpl. lia.
  - destruct (String.eqb (String c s) suffix) eqn:E.
    + apply String.eqb_eq in E. subst. simpl. lia.
    + intros Hs. specialize (IH Hs). simpl. lia.
Qed.

Lemma app_assoc_string (a b c : string) : (a ++ b) ++ c = a ++ (b ++ c).
Proof.
  induction a as [|x a IH]; [reflexivity|].
  change (String x ((a ++ b) ++ c) = String x (a ++ (b ++ c))).
  f_equal. exact IH.
Qed.

Lemma metafileNameOf_suffix cid feed uuid :
  HasSuffix (metafileNameOf cid feed uuid) MetaEXT = true.
Proof.
  unfold metafileNameOf.
  rewrite <- !app_assoc_string. apply HasSuffix_app.
Qed.

(** ** Frame conditions of the monadic methods *)

(** The two timestamps of a manager. *)
Definition tsOf (m : metaManager) : statefulRts * statefulRts :=
  (metaCheckpointTs m, metaResolvedTs m).

(** A method that never touches the timestamps, whatever its outcome. *)
Definition keepsTs {A} (c : M A) : Prop := forall m, tsOf (snd (c m)) = tsOf m.

Lemma keepsTs_ret {A} (a : A) : keepsTs (ret a).
Proof. intros m; reflexivity. Qed.

Lemma keepsTs_raise {A} e : keepsTs (@raise A e).
Proof. intros m; reflexivity. Qed.

Lemma keepsTs_panic {A} msg : keepsTs (@panic A msg).
Proof. intros m; reflexivity. Qed.

Lemma keepsTs_gets {A} (f : metaManager -> A) : keepsTs (gets f).
Proof. intros m; reflexivity. Qed.

Lemma keepsTs_modify f :
  (forall m, tsOf (f m) = tsOf m) -> keepsTs (modify f).
Proof. intros Hf m; apply Hf. Qed.

Lemma keepsTs_onStorage {A} (op : ExternalStorage -> A * ExternalStorage) :
  keepsTs (onStorage op).
Proof.
  intros m. unfold onStorage.
  destruct (extStorage m) as [s|]; [destruct (op s)|]; reflexivity.
Qed.

Lemma keepsTs_bind {A B} (c : M A) (k : A -> M B) :
  keepsTs c -> (forall a, keepsTs (k a)) -> keepsTs (bind c k).
Proof.
  intros Hc Hk m. unfold bind. specialize (Hc m).
  destruct (c m) as [[a|e|msg] m']; simpl in *; try assumption.
  rewrite Hk. assumption.
Qed.

Lemma keepsTs_mapError {A} f (c : M A) : keepsTs c -> keepsTs (mapError f c).
Proof.
  intros Hc m. unfold mapError. specialize (Hc m).
  destruct (c m) as [[a|e|msg] m']; assumption.
Qed.

Create HintDb frame.
#[export] Hint Resolve @keepsTs_ret @keepsTs_raise @keepsTs_panic @keepsTs_gets
  @keepsTs_onStorage @keepsTs_bind @keepsTs_mapError : frame.

Ltac frame_step :=
  first
    [ apply keepsTs_bind; [|intros ?]
    | apply keepsTs_mapError
    | apply keepsTs_onStorage
    | apply keepsTs_ret
    | apply keepsTs_raise
    | apply keepsTs_panic
    | apply keepsTs_gets
    | apply keepsTs_modify; intros ?; reflexivity ].

Ltac frame_cases :=
  repeat (first
    [ frame_step
    | match goal with
      | |- keepsTs (match ?x with _ => _ end) => destruct x
      | |- keepsTs (if ?b then _ else _) => destruct b
      | |- keepsTs (let (_, _) := ?x in _) => destruct x
      end ]).

Lemma keepsTs_getMetafileName : keepsTs getMetafileName.
Proof. unfold getMetafileName. frame_cases. Qed.

Lemma keepsTs_DeleteFilesInExtStorage l : keepsTs (DeleteFilesInExtStorage l).
Proof.
  induction l as [|f l IH]; simpl; [apply keepsTs_ret|].
  apply keepsTs_bind; [apply keepsTs_onStorage|].
  intros [e|]; [destruct (negb _)|]; auto with frame.
Qed.

Lemma keepsTs_RemoveFilesIf pred : keepsTs (RemoveFilesIf pred).
Proof.
  unfold RemoveFilesIf. apply keepsTs_bind; [apply keepsTs_onStorage|].
  intros [paths [e|]]; [apply keepsTs_raise|].
  destruct (selectFiles pred paths); auto using keepsTs_DeleteFilesInExtStorage with frame.
Qed.

Section Frames.
Context `{LogMetaCodec} `{LogFileNames}.

Lemma keepsTs_flush meta : keepsTs (flush meta).
Proof.
  unfold flush. destruct (MarshalMsg meta); [|apply keepsTs_raise|apply keepsTs_panic].
  apply keepsTs_bind; [apply keepsTs_getMetafileName|intros metaFile].
  frame_cases.
Qed.

Lemma keepsTs_bgGC_tick pre : keepsTs (bgGC_tick pre).
Proof.
  unfold bgGC_tick. apply keepsTs_bind; [apply keepsTs_gets|intros ckpt].
  destruct (ckpt =? pre); [apply keepsTs_ret|].
  apply keepsTs_bind; [apply keepsTs_gets|intros feed].
  apply keepsTs_bind; [|intros; apply keepsTs_ret].
  apply keepsTs_mapError, keepsTs_RemoveFilesIf.
Qed.

End Frames.

(** ** [UpdateMeta], flushes and the flushed pair *)

(** [flushed <= unflushed] on both timestamps. *)
Definition flushedBelowUnflushed (m : metaManager) : Prop :=
  flushed (metaCheckpointTs m) <= unflushed (metaCheckpointTs m)
  /\ flushed (metaResolvedTs m) <= unflushed (metaResolvedTs m).

(** [checkpointTs <= resolvedTs] on the unflushed and on the flushed pair. *)
Definition checkpointBelowResolved (m : metaManager) : Prop :=
  unflushed (metaCheckpointTs m) <= unflushed (metaResolvedTs m)
  /\ flushed (metaCheckpointTs m) <= flushed (metaResolvedTs m).

Lemma checkAndSetUnflushed_max v s :
  snd (checkAndSetUnflushed v s)
  = {| flushed := flushed s; unflushed := N.max (unflushed s) v |}.
Proof.
  unfold checkAndSetUnflushed. destruct (N.ltb_spec v (unflushed s)); simpl.
  - rewrite N.max_l by lia. destruct s; reflexivity.
  - rewrite N.max_r by lia. reflexivity.
Qed.

Lemma UpdateMeta_ts c r m :
  tsOf (snd (UpdateMeta c r m))
  = ({| flushed := flushed (metaCheckpointTs m);
        unflushed := N.max (unflushed (metaCheckpointTs m)) c |},
     {| flushed := flushed (metaResolvedTs m);
        unflushed := N.max (unflushed (metaResolvedTs m)) r |}).
Proof.
  unfold UpdateMeta, tsOf.
  pose proof (checkAndSetUnflushed_max r (metaResolvedTs m)) as Hr.
  destruct (checkAndSetUnflushed r (metaResolvedTs m)) as [okR rts].
  simpl in Hr. subst rts.
  pose proof (checkAndSetUnflushed_max c (metaCheckpointTs m)) as Hc.
  simpl.
  destruct (checkAndSetUnflushed c (metaCheckpointTs m)) as [okC cts].
  simpl in Hc. subst cts. reflexivity.
Qed.

Section FlushFacts.
Context `{LogMetaCodec}.

(** [maybeFlushMeta] with its binds spelled out. *)
Lemma maybeFlushMeta_eq m :
  maybeFlushMeta m
  = if fst (prepareForFlushMeta m) then
      match flush (snd (prepareForFlushMeta m)) m with
      | (Returned _, m') => postFlushMeta (snd (prepareForFlushMeta m)) m'
      | (Errored e, m') => (Errored e, m')
      | (Panicked msg, m') => (Panicked msg, m')
      end
    else (Returned tt, m).
Proof.
  unfold maybeFlushMeta, bind, gets.
  destruct (prepareForFlushMeta m) as [[] unfl]; reflexivity.
Qed.

(** What a run of [maybeFlushMeta] does to the timestamps: nothing, or,
    when it returns nil after finding a change, it publishes the unflushed
    pair. *)
Lemma maybeFlushMeta_ts m :
  tsOf (snd (maybeFlushMeta m)) = tsOf m
  \/ (fst (maybeFlushMeta m) = Returned tt
      /\ fst (prepareForFlushMeta m) = true
      /\ tsOf (snd (maybeFlushMeta m))
         = (setFlushed (unflushed (metaCheckpointTs m)) (metaCheckpointTs m),
            setFlushed (unflushed (metaResolvedTs m)) (metaResolvedTs m))).
Proof.
  rewrite maybeFlushMeta_eq.
  destruct (fst (prepareForFlushMeta m)) eqn:Hchg; [|left; reflexivity].
  pose proof (keepsTs_flush (snd (prepareForFlushMeta m)) m) as Hfl.
  destruct (flush _ m) as [[[]|e|msg] m']; simpl in *; try (left; exact Hfl).
  right. split; [reflexivity|]. split; [reflexivity|].
  unfold tsOf in *. inversion Hfl as [[Hc Hr]].
  unfold getUnflushed, getFlushed. rewrite Hc, Hr. reflexivity.
Qed.

Lemma bgFlushMeta_tick_snd m :
  snd (bgFlushMeta_tick m) = snd (maybeFlushMeta m).
Proof.
  unfold bgFlushMeta_tick, mapError.
  destruct (maybeFlushMeta m) as [[a|e|msg] m']; reflexivity.
Qed.

End FlushFacts.

Section Traces.
Context `{LogMetaCodec} `{LogFileNames}.

Lemma run_app evs1 evs2 s : run (evs1 ++ evs2) s = run evs2 (run evs1 s).
Proof. revert s; induction evs1 as [|ev evs1 IH]; intros s; simpl; auto. Qed.

(** One event: the flushed values do not go down, and [flushed <=
    unflushed] is kept. *)
Lemma step_flushed ev s :
  flushedBelowUnflushed (mgr s) ->
  flushedBelowUnflushed (mgr (step ev s))
  /\ flushed (metaCheckpointTs (mgr s)) <= flushed (metaCheckpointTs (mgr (step ev s)))
  /\ flushed (metaResolvedTs (mgr s)) <= flushed (metaResolvedTs (mgr (step ev s))).
Proof.
  intros [Hc Hr]. unfold flushedBelowUnflushed.
  destruct ev as [c r| | |f]; simpl.
  - pose proof (UpdateMeta_ts c r (mgr s)) as E. unfold tsOf in E.
    inversion E as [[Ec Er]]. rewrite Ec, Er. simpl. lia.
  - rewrite bgFlushMeta_tick_snd.
    destruct (maybeFlushMeta_ts (mgr s)) as [E|(_ & _ & E)];
      unfold tsOf in E; inversion E as [[Ec Er]]; rewrite ?Ec, ?Er; simpl; lia.
  - pose proof (keepsTs_bgGC_tick (gcPreCkpt s) (mgr s)) as E.
    destruct (bgGC_tick (gcPreCkpt s) (mgr s)) as [[pre|e|msg] m']; simpl in *;
      unfold tsOf in E; inversion E as [[Ec Er]]; rewrite Ec, Er; lia.
  - lia.
Qed.

Lemma run_flushed evs s :
  flushedBelowUnflushed (mgr s) ->
  flushedBelowUnflushed (mgr (run evs s))
  /\ flushed (metaCheckpointTs (mgr s)) <= flushed (metaCheckpointTs (mgr (run evs s)))
  /\ flushed (metaResolvedTs (mgr s)) <= flushed (metaResolvedTs (mgr (run evs s))).
Proof.
  revert s. induction evs as [|ev evs IH]; intros s Hinv; simpl.
  - repeat split; try apply Hinv; lia.
  - destruct (step_flushed ev s Hinv) as (Hinv' & Hc & Hr).
    destruct (IH _ Hinv') as (Hinv'' & Hc' & Hr').
    repeat split; try apply Hinv''; lia.
Qed.

(** C1.  Take any manager whose flushed values are not above its unflushed
    ones (as after construction and initialisation) and any sequence of
    [UpdateMeta] calls, flush ticks, GC ticks and storage faults, with any
    arguments.  Observe [GetFlushedMeta] after a prefix of the sequence and
    again after the whole of it: the first [CheckpointTs] is at most the
    second, and so is the first [ResolvedTs]. *)
Theorem GetFlushedMeta_monotone (s : system) (before after : list event) :
  flushedBelowUnflushed (mgr s) ->
  CheckpointTs (GetFlushedMeta (mgr (run before s)))
    <= CheckpointTs (GetFlushedMeta (mgr (run (before ++ after) s)))
  /\ ResolvedTs (GetFlushedMeta (mgr (run before s)))
    <= ResolvedTs (GetFlushedMeta (mgr (run (before ++ after) s))).
Proof.
  intros Hinv. rewrite run_app.
  destruct (run_flushed before s Hinv) as (Hinv' & _ & _).
  destruct (run_flushed after _ Hinv') as (_ & Hc & Hr).
  unfold GetFlushedMeta, getFlushed; simpl. split; assumption.
Qed.

End Traces.

(** ** Concrete data for the examples *)

Module Fixtures.

(** A codec for the examples: ["M"], then [CheckpointTs] times ["c"], then
    [ResolvedTs] times ["r"]. *)
Fixpoint countLeading (ch : ascii) (s : string) : N * string :=
  match s with
  | String x rest =>
      if Ascii.eqb x ch
      then let (n, tl) := countLeading ch rest in (N.succ n, tl)
      else (0, s)
  | EmptyString => (0, s)
  end.

Definition encodeMeta (meta : LogMeta) : string :=
  String "M"
    (N.iter (CheckpointTs meta) (String "c")
       (N.iter (ResolvedTs meta) (String "r") "")).

Definition decodeMeta (data : string) : outcome LogMeta :=
  match data with
  | String "M" rest =>
      let (c, rest') := countLeading "c" rest in
      let (r, rest'') := countLeading "r" rest' in
      if String.eqb rest'' ""
      then Returned {| CheckpointTs := c; ResolvedTs := r |}
      else Errored (Opaque "msgp: trailing bytes")
  | _ => Errored (Opaque "msgp: bad prefix")
  end.

Definition exampleCodec : LogMetaCodec :=
  {| MarshalMsg := fun meta => Returned (encodeMeta meta);
     UnmarshalMsg := decodeMeta |}.

(** A name parser for the examples: it knows a handful of names. *)
Definition exampleNames : LogFileNames :=
  {| ParseLogFileName := fun path =>
       if String.eqb path "cap_feed_row_90_u1.log" then ParsedAs 90 "row"
       else if String.eqb path "cap_feed_ddl_100_u2.log" then ParsedAs 100 "ddl"
       else if String.eqb path "cap_feed_row_110_u3.log" then ParsedAs 110 "row"
       else if String.eqb path "cap_feed_sort_80_u4.log" then ParsedAs 80 "sort"
       else ParseError (Opaque "bad log name") |}.

Definition exampleFeed : ChangeFeedID := {| Namespace := "default"; ID := "feed" |}.

Definition exampleGenerator : Generator :=
  {| uuidAt := fun n => String (ascii_of_nat (97 + n)) ""; issued := 0 |}.

Definition storageOf (fs : list (string * string)) : ExternalStorage :=
  {| files := list_to_map fs; faults := noFaults; calls := [] |}.

Definition exampleManager (fs : list (string * string)) : metaManager :=
  newMetaManager "cap" exampleFeed exampleGenerator (Some (storageOf fs)).

(** A manager that has published [(c, r)] and holds nothing newer. *)
Definition managerAt (c r : Ts) (fs : list (string * string)) : metaManager :=
  withResolvedTs
    (withCheckpointTs (exampleManager fs) {| flushed := c; unflushed := c |})
    {| flushed := r; unflushed := r |}.

Definition systemOf (m : metaManager) : system := {| mgr := m; gcPreCkpt := 0 |}.

End Fixtures.

Lemma GetFlushedMeta_monotone_witness :
  let s := Fixtures.systemOf (Fixtures.managerAt 10 20 []) in
  let before := [EvUpdateMeta 15 25; EvFlushTick] in
  let after := [EvUpdateMeta 5 30; EvFlushTick] in
  flushedBelowUnflushed (mgr s)
  /\ (CheckpointTs (GetFlushedMeta (mgr (@run Fixtures.exampleCodec Fixtures.exampleNames before s)))
      <= CheckpointTs (GetFlushedMeta (mgr (@run Fixtures.exampleCodec Fixtures.exampleNames (before ++ after) s)))
      /\ ResolvedTs (GetFlushedMeta (mgr (@run Fixtures.exampleCodec Fixtures.exampleNames before s)))
      <= ResolvedTs (GetFlushedMeta (mgr (@run Fixtures.exampleCodec Fixtures.exampleNames (before ++ after) s)))).
Proof.
  intros s before after.
  assert (Hinv : flushedBelowUnflushed (mgr s)) by (split; simpl; lia).
  split; [exact Hinv|].
  exact (@GetFlushedMeta_monotone Fixtures.exampleCodec Fixtures.exampleNames
           s before after Hinv).
Defined.

(** ** C2: [checkpointTs <= resolvedTs] on the flushed pair *)

(** An [UpdateMeta] call whose arguments are ordered; ticks and faults
    carry no arguments. *)
Definition orderedArgs (ev : event) : Prop :=
  match ev with
  | EvUpdateMeta c r => c <= r
  | _ => True
  end.

Section Ordered.
Context `{LogMetaCodec} `{LogFileNames}.

Lemma step_checkpointBelowResolved ev s :
  orderedArgs ev ->
  checkpointBelowResolved (mgr s) ->
  checkpointBelowResolved (mgr (step ev s)).
Proof.
  intros Hev [Hu Hf]. unfold checkpointBelowResolved.
  destruct ev as [c r| | |f]; simpl in *.
  - pose proof (UpdateMeta_ts c r (mgr s)) as E. unfold tsOf in E.
    inversion E as [[Ec Er]]. rewrite Ec, Er. simpl. lia.
  - rewrite bgFlushMeta_tick_snd.
    destruct (maybeFlushMeta_ts (mgr s)) as [E|(_ & _ & E)];
      unfold tsOf in E; inversion E as [[Ec Er]]; rewrite ?Ec, ?Er; simpl; lia.
  - pose proof (keepsTs_bgGC_tick (gcPreCkpt s) (mgr s)) as E.
    destruct (bgGC_tick (gcPreCkpt s) (mgr s)) as [[pre|e|msg] m']; simpl in *;
      unfold tsOf in E; inversion E as [[Ec Er]]; rewrite Ec, Er; lia.
  - lia.
Qed.

(** C2, amended.  Take a manager on which [checkpointTs <= resolvedTs]
    holds for the unflushed and for the flushed pair (as after
    initialisation), and any sequence of [UpdateMeta] calls, flush ticks, GC
    ticks and storage faults in which every [UpdateMeta] call is given
    [checkpointTs <= resolvedTs].  Then the pair that [GetFlushedMeta]
    returns afterwards has [CheckpointTs <= ResolvedTs]. *)
Theorem GetFlushedMeta_ordered_if_updates_ordered (s : system) (evs : list event) :
  checkpointBelowResolved (mgr s) ->
  Forall orderedArgs evs ->
  CheckpointTs (GetFlushedMeta (mgr (run evs s)))
    <= ResolvedTs (GetFlushedMeta (mgr (run evs s))).
Proof.
  intros Hinv Hevs.
  enough (checkpointBelowResolved (mgr (run evs s))) as [_ Hf] by exact Hf.
  revert s Hinv. induction Hevs as [|ev evs Hev _ IH]; intros s Hinv; simpl.
  - exact Hinv.
  - apply IH, step_checkpointBelowResolved; assumption.
Qed.

End Ordered.

Lemma GetFlushedMeta_ordered_witness :
  let s := Fixtures.systemOf (Fixtures.managerAt 10 20 []) in
  let evs := [EvUpdateMeta 15 25; EvFlushTick; EvUpdateMeta 5 30; EvFlushTick] in
  checkpointBelowResolved (mgr s)
  /\ Forall orderedArgs evs
  /\ CheckpointTs (GetFlushedMeta (mgr (@run Fixtures.exampleCodec Fixtures.exampleNames evs s)))
     <= ResolvedTs (GetFlushedMeta (mgr (@run Fixtures.exampleCodec Fixtures.exampleNames evs s))).
Proof.
  intros s evs.
  assert (Hinv : checkpointBelowResolved (mgr s)) by (split; simpl; lia).
  assert (Hevs : Forall orderedArgs evs)
    by (repeat constructor; simpl; lia).
  split; [exact Hinv|]. split; [exact Hevs|].
  exact (@GetFlushedMeta_ordered_if_updates_ordered
           Fixtures.exampleCodec Fixtures.exampleNames s evs Hinv Hevs).
Defined.

(** C2 as stated fails: nothing relates the two arguments of [UpdateMeta].
    From the published pair [(10, 20)], the call [UpdateMeta(30, 25)]
    followed by a flush publishes [(30, 25)]. *)
Lemma GetFlushedMeta_ordered_counterexample :
  let s := Fixtures.systemOf (Fixtures.managerAt 10 20 []) in
  let evs := [EvUpdateMeta 30 25; EvFlushTick] in
  checkpointBelowResolved (mgr s)
  /\ GetFlushedMeta (mgr (@run Fixtures.exampleCodec Fixtures.exampleNames evs s))
     = {| CheckpointTs := 30; ResolvedTs := 25 |}
  /\ ~ (CheckpointTs (GetFlushedMeta (mgr (@run Fixtures.exampleCodec Fixtures.exampleNames evs s)))
        <= ResolvedTs (GetFlushedMeta (mgr (@run Fixtures.exampleCodec Fixtures.exampleNames evs s)))).
Proof.
  intros s evs.
  assert (E : GetFlushedMeta (mgr (@run Fixtures.exampleCodec Fixtures.exampleNames evs s))
              = {| CheckpointTs := 30; ResolvedTs := 25 |}) by (vm_compute; reflexivity).
  split; [split; simpl; lia|]. split; [exact E|].
  rewrite E. simpl. lia.
Qed.

(** ** C3: [UpdateMeta] checks and sets each field on its own *)

(** The warning of a regressed resolved ts / checkpoint ts. *)
Definition warnResolved (curr recv : Ts) : LogEntry :=
  LogWarn "update redo meta with a regressed resolved ts, ignore"
    [("currResolvedTs", curr); ("recvResolvedTs", recv)].

Definition warnCheckpoint (curr recv : Ts) : LogEntry :=
  LogWarn "update redo meta with a regressed checkpoint ts, ignore"
    [("currCheckpointTs", curr); ("recvCheckpointTs", recv)].

(** A manager whose unflushed pair is [(c, r)], whatever else it holds. *)
Definition withUnflushed (m : metaManager) (c r : Ts) : metaManager :=
  withResolvedTs
    (withCheckpointTs m {| flushed := flushed (metaCheckpointTs m); unflushed := c |})
    {| flushed := flushed (metaResolvedTs m); unflushed := r |}.

(** C3.  [UpdateMeta] is a total function with no error result.  Each of
    the two timestamps is treated on its own: if the new value is below the
    field's unflushed value, the field is left as it was and one warning is
    logged for it; otherwise the field's unflushed value becomes the new
    value and nothing is logged for it.  The flushed values and every other
    part of the manager are untouched.  In particular, on unflushed
    [(15, 25)] the call [UpdateMeta(5, 30)] keeps [checkpointTs] at 15,
    moves [resolvedTs] to 30 and logs only the checkpoint warning. *)
Theorem UpdateMeta_fields_independent (checkpointTs resolvedTs : Ts) (m : metaManager) :
  let logs := fst (UpdateMeta checkpointTs resolvedTs m) in
  let m' := snd (UpdateMeta checkpointTs resolvedTs m) in
  metaCheckpointTs m'
    = (if checkpointTs <? unflushed (metaCheckpointTs m)
       then metaCheckpointTs m
       else {| flushed := flushed (metaCheckpointTs m); unflushed := checkpointTs |})
  /\ metaResolvedTs m'
    = (if resolvedTs <? unflushed (metaResolvedTs m)
       then metaResolvedTs m
       else {| flushed := flushed (metaResolvedTs m); unflushed := resolvedTs |})
  /\ logs
    = ((if resolvedTs <? unflushed (metaResolvedTs m)
        then [warnResolved (flushed (metaResolvedTs m)) resolvedTs] else [])
       ++ (if checkpointTs <? unflushed (metaCheckpointTs m)
           then [warnCheckpoint (flushed (metaCheckpointTs m)) checkpointTs] else []))%list
  /\ GetFlushedMeta m' = GetFlushedMeta m
  /\ (captureID m', changeFeedID m', enabled m', extStorage m', uuidGenerator m', preMetaFile m')
     = (captureID m, changeFeedID m, enabled m, extStorage m, uuidGenerator m, preMetaFile m)
  /\ (let after := snd (UpdateMeta 5 30 (withUnflushed m 15 25)) in
      unflushed (metaCheckpointTs after) = 15
      /\ unflushed (metaResolvedTs after) = 30
      /\ fst (UpdateMeta 5 30 (withUnflushed m 15 25))
         = [warnCheckpoint (flushed (metaCheckpointTs m)) 5]).
Proof.
  unfold UpdateMeta, checkAndSetUnflushed, GetFlushedMeta, getFlushed.
  destruct (resolvedTs <? unflushed (metaResolvedTs m)) eqn:Er;
    destruct (checkpointTs <? unflushed (metaCheckpointTs m)) eqn:Ec;
    simpl; rewrite ?Ec; simpl; repeat split; reflexivity.
Qed.

(** The scenario in full: after [(15, 25)] has been flushed, [UpdateMeta(5,
    30)] and one more flush tick give the flushed pair [(15, 30)]. *)
Example UpdateMeta_regression_then_flush :
  let s := Fixtures.systemOf (Fixtures.exampleManager []) in
  let evs := [EvUpdateMeta 10 20; EvUpdateMeta 15 25; EvFlushTick;
              EvUpdateMeta 5 30; EvFlushTick] in
  GetFlushedMeta (mgr (@run Fixtures.exampleCodec Fixtures.exampleNames evs s))
  = {| CheckpointTs := 15; ResolvedTs := 30 |}.
Proof. vm_compute. reflexivity. Qed.

(** ** C4: the order of write, delete and publish in a flush *)

Section FlushOrder.
Context `{LogMetaCodec}.

(** The name the next flush of [m] writes to. *)
Definition nextMetaFile (m : metaManager) : string :=
  metafileNameOf (captureID m) (changeFeedID m)
    (uuidAt (uuidGenerator m) (issued (uuidGenerator m))).

(** The manager once [getMetafileName] has drawn its uuid and the storage
    has become [st]. *)
Definition afterCalls (m : metaManager) (st : ExternalStorage) : metaManager :=
  withExtStorage (withUuidGenerator m (snd (NewString (uuidGenerator m)))) (Some st).

(** [flush] on a manager with a storage, as a decision tree over what the
    codec and the storage answer. *)
Lemma flush_eq meta m st :
  extStorage m = Some st ->
  let metaFile := nextMetaFile m in
  let pre := preMetaFile m in
  let st1 := called (OpWriteFile metaFile) st in
  flush meta m
  = match MarshalMsg meta with
    | Errored e => (Errored (WrapError ErrMarshalFailed e), m)
    | Panicked msg => (Panicked msg, m)
    | Returned data =>
        match faults st (OpWriteFile metaFile) with
        | Some e => (Errored (WrapError ErrExternalStorageAPI e), afterCalls m st1)
        | None =>
            let st2 := setFiles st1 (<[metaFile := data]> (files st)) in
            if String.eqb pre "" then
              (Returned tt, withPreMetaFile (afterCalls m st2) metaFile)
            else if String.eqb pre metaFile then (Returned tt, afterCalls m st2)
            else
              let st3 := called (OpDeleteFile pre) st2 in
              match faults st (OpDeleteFile pre) with
              | Some e =>
                  if IsNotExistInExtStorage e
                  then (Returned tt, withPreMetaFile (afterCalls m st3) metaFile)
                  else (Errored (WrapError ErrExternalStorageAPI e), afterCalls m st3)
              | None =>
                  (Returned tt,
                   withPreMetaFile
                     (afterCalls m (setFiles st3 (delete pre (files st2))))
                     metaFile)
              end
        end
    end.
Proof.
  intros Hst. destruct m as [cid feed en cts rts ost gen pre]. simpl in Hst. subst ost.
  unfold flush, nextMetaFile, afterCalls. simpl.
  destruct (MarshalMsg meta) as [data|e|msg]; try reflexivity.
  unfold bind, getMetafileName, gets, modify, onStorage, WriteFile, DeleteFile,
    bind, ret, raise; simpl.
  destruct (faults st (OpWriteFile _)) as [e|]; simpl; [reflexivity|].
  destruct (String.eqb pre ""); simpl; [reflexivity|].
  destruct (String.eqb pre _); simpl; [reflexivity|].
  destruct (faults st (OpDeleteFile pre)) as [e|]; simpl; [|reflexivity].
  destruct (IsNotExistInExtStorage e); reflexivity.
Qed.

End FlushOrder.

Section FlushTheorem.
Context `{LogMetaCodec}.

(** The serialized pair reaches the storage under the new name. *)
Definition writeSucceeds (st : ExternalStorage) (meta : LogMeta) (metaFile : string) : Prop :=
  exists data, MarshalMsg meta = Returned data /\ faults st (OpWriteFile metaFile) = None.

(** The three ways a flush fails: the codec refuses the pair, the write is
    refused, or the delete of the previous file (made when there is one
    under another name) is refused with something else than not-found. *)
Definition flushFails (st : ExternalStorage) (meta : LogMeta) (metaFile pre : string) : Prop :=
  (exists e, MarshalMsg meta = Errored e)
  \/ (exists data e, MarshalMsg meta = Returned data
        /\ faults st (OpWriteFile metaFile) = Some e)
  \/ (writeSucceeds st meta metaFile /\ pre <> "" /\ pre <> metaFile
        /\ exists e, faults st (OpDeleteFile pre) = Some e
             /\ IsNotExistInExtStorage e = false).

Lemma postFlushMeta_eq meta m :
  postFlushMeta meta m
  = (Returned tt,
     withCheckpointTs
       (withResolvedTs m (setFlushed (ResolvedTs meta) (metaResolvedTs m)))
       (setFlushed (CheckpointTs meta) (metaCheckpointTs m))).
Proof. reflexivity. Qed.

Ltac flush_facts :=
  repeat match goal with
  | H : String.eqb _ _ = true |- _ => apply String.eqb_eq in H
  | H : String.eqb _ _ = false |- _ => apply String.eqb_neq in H
  | H : writeSucceeds _ _ _ |- _ => destruct H as (? & ? & ?)
  | H : flushFails _ _ _ _ |- _ =>
      destruct H as [(? & ?)|[(? & ? & ? & ?)|(? & ? & ? & ? & ? & ?)]]
  | H : _ \/ _ |- _ => destruct H
  | H : _ /\ _ |- _ => destruct H
  | H : exists _, _ |- _ => destruct H
  end.

(** C4, amended.  Let [maybeFlushMeta] find an advanced field on a manager
    with a storage.  The serialized unflushed pair is written under the name
    made from the generator's next uuid.  The storage sees no call, or the
    write alone, or the write followed by the delete of the previous meta
    file, and the delete is made only when the write has succeeded.  The
    flushed pair changes only when the write has succeeded and the call
    returns nil.  If the codec fails, or the write fails, or the delete
    fails with an error other than not-found, the call returns an error and
    [GetFlushedMeta] is as before.  When the call returns nil,
    [GetFlushedMeta] is the unflushed pair found at the start. *)
Theorem maybeFlushMeta_write_delete_publish (m : metaManager) (st : ExternalStorage) :
  extStorage m = Some st ->
  fst (prepareForFlushMeta m) = true ->
  let meta := snd (prepareForFlushMeta m) in
  let metaFile := nextMetaFile m in
  let pre := preMetaFile m in
  let res := fst (maybeFlushMeta m) in
  let m' := snd (maybeFlushMeta m) in
  exists st', extStorage m' = Some st'
  /\ HasSuffix metaFile MetaEXT = true
  /\ (forall data, MarshalMsg meta = Returned data ->
        faults st (OpWriteFile metaFile) = None ->
        files st' !! metaFile = Some data)
  /\ ((calls st' = calls st /\ files st' = files st)
      \/ (calls st' = (calls st ++ [OpWriteFile metaFile])%list
          /\ forall p, p <> metaFile -> files st' !! p = files st !! p)
      \/ (calls st' = (calls st ++ [OpWriteFile metaFile; OpDeleteFile pre])%list
          /\ writeSucceeds st meta metaFile /\ pre <> "" /\ pre <> metaFile))
  /\ (GetFlushedMeta m' <> GetFlushedMeta m ->
        writeSucceeds st meta metaFile /\ res = Returned tt)
  /\ (flushFails st meta metaFile pre ->
        (exists e, res = Errored e) /\ GetFlushedMeta m' = GetFlushedMeta m)
  /\ (res = Returned tt ->
        GetFlushedMeta m' = meta
        /\ (pre <> "" -> pre <> metaFile -> faults st (OpDeleteFile pre) = None ->
            files st' !! pre = None)).
Proof.
  intros Hst Hchg meta metaFile pre res m'. subst res m'.
  rewrite maybeFlushMeta_eq, Hchg. fold meta.
  rewrite (flush_eq meta m st Hst). fold metaFile pre. cbv zeta.
  assert (Hsuf : HasSuffix metaFile MetaEXT = true) by apply metafileNameOf_suffix.
  destruct (MarshalMsg meta) as [data|e|msg] eqn:Hm.
  - destruct (faults st (OpWriteFile metaFile)) as [e|] eqn:Hw.
    { (* the write is refused *)
      eexists; split; [reflexivity|]. simpl.
      split; [exact Hsuf|]. split; [congruence|].
      split; [right; left; split; [reflexivity|reflexivity]|].
      split; [intros Hne; exfalso; apply Hne; reflexivity|].
      split; [intros _; split; [eexists; reflexivity|reflexivity]|].
      discriminate. }
    assert (Hws : writeSucceeds st meta metaFile) by (exists data; split; assumption).
    destruct (String.eqb pre "") eqn:Hpre.
    { (* no previous file *)
      rewrite postFlushMeta_eq. eexists; split; [reflexivity|]. simpl.
      split; [exact Hsuf|].
      split; [intros d Hd _; inversion Hd; subst; apply lookup_insert_eq|].
      split; [right; left; split; [reflexivity|];
              intros p Hp; apply lookup_insert_ne; congruence|].
      split; [intros _; split; [exact Hws|reflexivity]|].
      split; [intros Hf; flush_facts; congruence|].
      intros _; split; [reflexivity|]. intros Hp; flush_facts; congruence. }
    destruct (String.eqb pre metaFile) eqn:Hsame.
    { (* the generator repeated the previous name *)
      rewrite postFlushMeta_eq. eexists; split; [reflexivity|]. simpl.
      split; [exact Hsuf|].
      split; [intros d Hd _; inversion Hd; subst; apply lookup_insert_eq|].
      split; [right; left; split; [reflexivity|];
              intros p Hp; apply lookup_insert_ne; congruence|].
      split; [intros _; split; [exact Hws|reflexivity]|].
      split; [intros Hf; flush_facts; congruence|].
      intros _; split; [reflexivity|]. intros _ Hp; flush_facts; congruence. }
    apply String.eqb_neq in Hpre, Hsame.
    assert (Hcalls : forall l : list StorageOp,
               ((l ++ [OpWriteFile metaFile]) ++ [OpDeleteFile pre])%list
               = (l ++ [OpWriteFile metaFile; OpDeleteFile pre])%list)
      by (intros l; rewrite <- app_assoc; reflexivity).
    destruct (faults st (OpDeleteFile pre)) as [e|] eqn:Hd.
    + destruct (IsNotExistInExtStorage e) eqn:Hne.
      { (* the delete answers not-found: no failure *)
        rewrite postFlushMeta_eq. eexists; split; [reflexivity|]. simpl.
        split; [exact Hsuf|].
        split; [intros d Hd' _; inversion Hd'; subst; apply lookup_insert_eq|].
        split; [right; right; split; [apply Hcalls|auto]|].
        split; [intros _; split; [exact Hws|reflexivity]|].
        split; [intros Hf; flush_facts; congruence|].
        intros _; split; [reflexivity|]. congruence. }
      { (* the delete is refused *)
        eexists; split; [reflexivity|]. simpl.
        split; [exact Hsuf|].
        split; [intros d Hd' _; inversion Hd'; subst; apply lookup_insert_eq|].
        split; [right; right; split; [apply Hcalls|auto]|].
        split; [intros Hne'; exfalso; apply Hne'; reflexivity|].
        split; [intros _; split; [eexists; reflexivity|reflexivity]|].
        discriminate. }
    + (* write and delete both go through *)
      rewrite postFlushMeta_eq. eexists; split; [reflexivity|]. simpl.
      split; [exact Hsuf|].
      split; [intros d Hd' _; inversion Hd'; subst;
              rewrite lookup_delete_ne by congruence; apply lookup_insert_eq|].
      split; [right; right; split; [apply Hcalls|auto]|].
      split; [intros _; split; [exact Hws|reflexivity]|].
      split; [intros Hf; flush_facts; congruence|].
      intros _; split; [reflexivity|]. intros _ _ _. apply lookup_delete_eq.
  - (* the codec returns an error *)
    exists st. split; [exact Hst|].
    split; [exact Hsuf|]. split; [congruence|].
    split; [left; split; reflexivity|].
    split; [intros Hne; exfalso; apply Hne; reflexivity|].
    split; [intros _; split; [eexists; reflexivity|reflexivity]|].
    discriminate.
  - (* the codec panics *)
    exists st. split; [exact Hst|].
    split; [exact Hsuf|]. split; [congruence|].
    split; [left; split; reflexivity|].
    split; [intros Hne; exfalso; apply Hne; reflexivity|].
    split; [intros Hf; flush_facts; congruence|].
    discriminate.
Qed.

End FlushTheorem.

(** A manager that has published [(10, 20)], holds [(15, 25)] unflushed and
    remembers a previous meta file. *)
Definition flushPending (fs : list (string * string))
    (f : StorageOp -> option error) : metaManager :=
  withExtStorage
    (withPreMetaFile
       (withUnflushed (Fixtures.managerAt 10 20 fs) 15 25)
       "cap_default_feed_meta_old.meta")
    (Some (setFaults (Fixtures.storageOf fs) f)).

Lemma maybeFlushMeta_write_delete_publish_witness :
  let m := flushPending [("cap_default_feed_meta_old.meta", Fixtures.encodeMeta
                            {| CheckpointTs := 10; ResolvedTs := 20 |})] noFaults in
  let st := setFaults (Fixtures.storageOf
              [("cap_default_feed_meta_old.meta", Fixtures.encodeMeta
                  {| CheckpointTs := 10; ResolvedTs := 20 |})]) noFaults in
  extStorage m = Some st
  /\ fst (prepareForFlushMeta m) = true
  /\ exists st', extStorage (snd (@maybeFlushMeta Fixtures.exampleCodec m)) = Some st'
       /\ files st' !! "cap_default_feed_meta_a.meta"
          = Some (Fixtures.encodeMeta {| CheckpointTs := 15; ResolvedTs := 25 |})
       /\ files st' !! "cap_default_feed_meta_old.meta" = None
       /\ GetFlushedMeta (snd (@maybeFlushMeta Fixtures.exampleCodec m))
          = {| CheckpointTs := 15; ResolvedTs := 25 |}.
Proof.
  intros m st.
  assert (Hst : extStorage m = Some st) by reflexivity.
  assert (Hchg : fst (prepareForFlushMeta m) = true) by reflexivity.
  split; [exact Hst|]. split; [exact Hchg|].
  destruct (@maybeFlushMeta_write_delete_publish Fixtures.exampleCodec m st Hst Hchg)
    as (st' & Hst' & _ & Hwritten & _ & _ & _ & Hok).
  exists st'. split; [exact Hst'|].
  split; [apply Hwritten; reflexivity|].
  assert (Hres : fst (@maybeFlushMeta Fixtures.exampleCodec m) = Returned tt)
    by (vm_compute; reflexivity).
  destruct (Hok Hres) as [Hflushed Hgone].
  split; [apply Hgone; [discriminate|discriminate|reflexivity]|].
  exact Hflushed.
Defined.

(** C4 as stated fails where the delete of the previous meta file fails
    with not-found (the file is already gone): the manager ignores that
    failure, returns nil and publishes the new pair. *)
Lemma maybeFlushMeta_delete_not_found_counterexample :
  let gone op :=
    match op with
    | OpDeleteFile "cap_default_feed_meta_old.meta" => Some NotExist
    | _ => None
    end in
  let m := flushPending [] gone in
  fst (prepareForFlushMeta m) = true
  /\ (exists st, extStorage m = Some st
        /\ fst (DeleteFile (preMetaFile m) st) = Some NotExist)
  /\ fst (@maybeFlushMeta Fixtures.exampleCodec m) = Returned tt
  /\ GetFlushedMeta m = {| CheckpointTs := 10; ResolvedTs := 20 |}
  /\ GetFlushedMeta (snd (@maybeFlushMeta Fixtures.exampleCodec m))
     = {| CheckpointTs := 15; ResolvedTs := 25 |}
  /\ ~ ((exists e, fst (@maybeFlushMeta Fixtures.exampleCodec m) = Errored e)
        /\ GetFlushedMeta (snd (@maybeFlushMeta Fixtures.exampleCodec m))
           = GetFlushedMeta m).
Proof.
  intros gone m.
  split; [reflexivity|].
  split; [eexists; split; reflexivity|].
  split; [vm_compute; reflexivity|].
  split; [reflexivity|].
  split; [vm_compute; reflexivity|].
  intros [[e He] _]. vm_compute in He. discriminate.
Qed.

(** ** Sweeps: what [RemoveFilesIf] removes and what it leaves *)

Lemma elem_of_listing (fs : gmap string string) (p : string) :
  p ∈ (map_to_list fs).*1 <-> is_Some (fs !! p).
Proof.
  rewrite list_elem_of_fmap. split.
  - intros [[q d] [-> Hin]]. apply elem_of_map_to_list in Hin. eauto.
  - intros [d Hd]. exists (p, d). split; [reflexivity|].
    apply elem_of_map_to_list. exact Hd.
Qed.

Lemma selectFiles_elem pred paths l :
  selectFiles pred paths = Returned l ->
  forall p, p ∈ l <-> p ∈ paths /\ pred p = Returned true.
Proof.
  revert l. induction paths as [|q paths IH]; intros l; simpl.
  - intros [= <-] p. split; [intros Hp; inversion Hp|intros [Hp _]; inversion Hp].
  - destruct (pred q) as [b| |] eqn:Hq; try discriminate.
    destruct (selectFiles pred paths) as [l'| |]; try discriminate.
    intros [= <-] p. specialize (IH l' eq_refl p).
    destruct b; rewrite ?elem_of_cons, IH; split.
    + intros [->|[Hp Ht]]; auto.
    + intros [[->|Hp] Ht]; auto.
    + intros [Hp Ht]; auto.
    + intros [[->|Hp] Ht]; [congruence|auto].
Qed.

Lemma selectFiles_total pred paths :
  (forall p, p ∈ paths -> exists b, pred p = Returned b) ->
  exists l, selectFiles pred paths = Returned l.
Proof.
  induction paths as [|q paths IH]; intros Hall; simpl; [eauto|].
  destruct (Hall q) as [b ->]; [left|].
  destruct IH as [l ->]; [|eauto].
  intros p Hp. apply Hall. right. exact Hp.
Qed.

Lemma selectFiles_panics pred paths :
  (forall p e, pred p <> Errored e) ->
  (exists p, p ∈ paths /\ exists msg, pred p = Panicked msg) ->
  exists msg, selectFiles pred paths = Panicked msg.
Proof.
  intros Hne. induction paths as [|q paths IH]; intros (p & Hp & msg & Hmsg).
  - inversion Hp.
  - simpl. destruct (pred q) as [b|e|msg'] eqn:Hq.
    + apply elem_of_cons in Hp as [->|Hp]; [congruence|].
      destruct IH as [msg' ->]; eauto.
    + destruct (Hne q e Hq).
    + eauto.
Qed.

Lemma DeleteFilesInExtStorage_cons f l m st :
  extStorage m = Some st ->
  DeleteFilesInExtStorage (f :: l) m
  = match faults st (OpDeleteFile f) with
    | Some e =>
        if IsNotExistInExtStorage e
        then DeleteFilesInExtStorage l
               (withExtStorage m (Some (called (OpDeleteFile f) st)))
        else (Errored (WrapError ErrExternalStorageAPI e),
              withExtStorage m (Some (called (OpDeleteFile f) st)))
    | None =>
        DeleteFilesInExtStorage l
          (withExtStorage m
             (Some (setFiles (called (OpDeleteFile f) st) (delete f (files st)))))
    end.
Proof.
  intros Hst. cbn [DeleteFilesInExtStorage].
  unfold bind, onStorage, DeleteFile. rewrite Hst. cbn [faults called].
  destruct (faults st (OpDeleteFile f)) as [e|]; [|reflexivity].
  destruct (IsNotExistInExtStorage e); reflexivity.
Qed.

(** [DeleteFilesInExtStorage]: only the storage changes; files that are
    not listed are kept, nothing appears, and if no listed delete is
    refused the call returns nil with every listed file gone. *)
Lemma DeleteFilesInExtStorage_spec l : forall m st,
  extStorage m = Some st ->
  exists st',
    snd (DeleteFilesInExtStorage l m) = withExtStorage m (Some st')
    /\ faults st' = faults st
    /\ (forall p, p ∉ l -> files st' !! p = files st !! p)
    /\ (forall p d, files st' !! p = Some d -> files st !! p = Some d)
    /\ ((forall p, p ∈ l -> faults st (OpDeleteFile p) = None) ->
        fst (DeleteFilesInExtStorage l m) = Returned tt
        /\ forall p, p ∈ l -> files st' !! p = None).
Proof.
  induction l as [|f l IH]; intros m st Hst.
  - exists st. simpl. destruct m; simpl in *; subst.
    repeat split; auto. intros p Hp; inversion Hp.
  - rewrite (DeleteFilesInExtStorage_cons f l m st Hst).
    destruct (faults st (OpDeleteFile f)) as [e|] eqn:Hf.
    + destruct (IsNotExistInExtStorage e) eqn:Hne.
      * edestruct (IH (withExtStorage m (Some (called (OpDeleteFile f) st))))
          as (st' & Hm & Hfa & Hkeep & Hsub & Hok); [reflexivity|].
        exists st'. split; [exact Hm|]. split; [exact Hfa|].
        split; [intros p Hp; apply Hkeep; intros Hin; apply Hp; right; exact Hin|].
        split; [exact Hsub|].
        intros Hall. rewrite Hall in Hf by left. discriminate.
      * exists (called (OpDeleteFile f) st). simpl.
        split; [reflexivity|]. split; [reflexivity|].
        split; [reflexivity|]. split; [auto|].
        intros Hall. rewrite Hall in Hf by left. discriminate.
    + edestruct (IH (withExtStorage m
                       (Some (setFiles (called (OpDeleteFile f) st)
                                (delete f (files st))))))
        as (st' & Hm & Hfa & Hkeep & Hsub & Hok); [reflexivity|].
      exists st'. split; [exact Hm|]. split; [exact Hfa|].
      split; [|split].
      * intros p Hp. rewrite Hkeep by (intros Hin; apply Hp; right; exact Hin).
        simpl. apply lookup_delete_ne. intros ->. apply Hp. left.
      * intros p d Hd. apply Hsub in Hd. simpl in Hd.
        apply lookup_delete_Some in Hd as [_ Hd]. exact Hd.
      * intros Hall. destruct Hok as [Hres Hgone].
        { intros p Hp. apply Hall. right. exact Hp. }
        split; [exact Hres|]. intros p Hp.
        destruct (files st' !! p) as [d|] eqn:Hd; [|reflexivity].
        apply elem_of_cons in Hp as [->|Hp]; [|rewrite Hgone in Hd by exact Hp; discriminate].
        apply Hsub in Hd. simpl in Hd. rewrite lookup_delete_eq in Hd. discriminate.
Qed.

Lemma RemoveFilesIf_eq pred m st :
  extStorage m = Some st ->
  RemoveFilesIf pred m
  = let m1 := withExtStorage m (Some (called OpWalkDir st)) in
    match faults st OpWalkDir with
    | Some e => (Errored (WrapError ErrExternalStorageAPI e), m1)
    | None =>
        match selectFiles pred (map_to_list (files st)).*1 with
        | Returned l => DeleteFilesInExtStorage l m1
        | Errored e => (Errored e, m1)
        | Panicked msg => (Panicked msg, m1)
        end
    end.
Proof.
  intros Hst. unfold RemoveFilesIf, bind, onStorage, WalkDir.
  rewrite Hst. cbn [faults called files].
  destruct (faults st OpWalkDir) as [e|]; [reflexivity|].
  destruct (selectFiles pred _); reflexivity.
Qed.

(** [RemoveFilesIf]: only the storage changes; a file the predicate does
    not accept is kept and nothing appears.  When the walk and the deletes
    are not refused and the predicate answers on every stored name, the
    call returns nil and every accepted file is gone.  When the predicate
    panics on a stored name, so does the call, and no file is removed. *)
Lemma RemoveFilesIf_spec pred m st :
  extStorage m = Some st ->
  exists st',
    snd (RemoveFilesIf pred m) = withExtStorage m (Some st')
    /\ faults st' = faults st
    /\ (forall p, pred p <> Returned true -> files st' !! p = files st !! p)
    /\ (forall p d, files st' !! p = Some d -> files st !! p = Some d)
    /\ (faults st OpWalkDir = None ->
        (forall p, is_Some (files st !! p) -> exists b, pred p = Returned b) ->
        (forall p, pred p = Returned true -> faults st (OpDeleteFile p) = None) ->
        fst (RemoveFilesIf pred m) = Returned tt
        /\ forall p, pred p = Returned true -> files st' !! p = None)
    /\ (faults st OpWalkDir = None ->
        (forall p e, pred p <> Errored e) ->
        (exists p, is_Some (files st !! p) /\ exists msg, pred p = Panicked msg) ->
        (exists msg, fst (RemoveFilesIf pred m) = Panicked msg)
        /\ files st' = files st).
Proof.
  intros Hst. rewrite (RemoveFilesIf_eq pred m st Hst). cbv zeta.
  destruct (faults st OpWalkDir) as [e|] eqn:Hwalk.
  { exists (called OpWalkDir st). simpl.
    split; [reflexivity|]. split; [reflexivity|].
    split; [reflexivity|]. split; [auto|]. split; discriminate. }
  destruct (selectFiles pred (map_to_list (files st)).*1) as [l|e|msg] eqn:Hsel.
  - destruct (DeleteFilesInExtStorage_spec l
                (withExtStorage m (Some (called OpWalkDir st)))
                (called OpWalkDir st) eq_refl)
      as (st' & Hm & Hfa & Hkeep & Hsub & Hok).
    pose proof (selectFiles_elem _ _ _ Hsel) as Hl.
    exists st'. split; [exact Hm|]. split; [exact Hfa|].
    split; [intros p Hp; apply Hkeep; rewrite Hl; intros [_ Ht]; auto|].
    split; [exact Hsub|]. split.
    + intros _ Hall Hdel.
      destruct Hok as [Hres Hgone]; [intros p Hp; apply Hdel, Hl, Hp|].
      split; [exact Hres|]. intros p Hp.
      destruct (files st !! p) as [d|] eqn:Hd.
      * apply Hgone, Hl. split; [|exact Hp]. apply elem_of_listing. eauto.
      * destruct (files st' !! p) as [d'|] eqn:Hd'; [|reflexivity].
        apply Hsub in Hd'. simpl in Hd'. congruence.
    + intros _ Hne (p & Hp & msg & Hmsg).
      destruct (selectFiles_panics pred (map_to_list (files st)).*1 Hne) as [msg' Hc];
        [|congruence].
      exists p. split; [apply elem_of_listing; exact Hp|eauto].
  - exists (called OpWalkDir st). simpl.
    split; [reflexivity|]. split; [reflexivity|].
    split; [reflexivity|]. split; [auto|]. split.
    + intros _ Hall _. exfalso.
      destruct (selectFiles_total pred (map_to_list (files st)).*1)
        as [l Hl]; [|congruence].
      intros p Hp. apply Hall, elem_of_listing, Hp.
    + intros _ Hne _. exfalso.
      clear -Hsel Hne. revert Hsel.
      induction (map_to_list (files st)).*1 as [|q paths IH]; simpl; [discriminate|].
      destruct (pred q) as [b|e'|msg] eqn:Hq; [|destruct (Hne q e' Hq)|discriminate].
      destruct (selectFiles pred paths); try discriminate. intros [= <-]. auto.
  - exists (called OpWalkDir st). simpl.
    split; [reflexivity|]. split; [reflexivity|].
    split; [reflexivity|]. split; [auto|]. split.
    + intros _ Hall _. exfalso.
      destruct (selectFiles_total pred (map_to_list (files st)).*1)
        as [l Hl]; [|congruence].
      intros p Hp. apply Hall, elem_of_listing, Hp.
    + intros _ _ _. split; [eauto|reflexivity].
Qed.

(** ** C5: one GC sweep *)

Section GC.
Context `{LogFileNames}.

(** The files a sweep at checkpoint [C] is to remove. *)
Definition gcRemoves (feed : ChangeFeedID) (C : Ts) (path : string) : Prop :=
  Contains path (getChangefeedMatcher feed) = true
  /\ Ext path = LogEXT
  /\ exists commitTs fileType,
       ParseLogFileName path = ParsedAs commitTs fileType
       /\ (fileType = RedoRowLogFileType \/ fileType = RedoDDLLogFileType)
       /\ commitTs < C.

(** A log file of the feed whose name parses to a type other than row and
    ddl. *)
Definition unknownLogType (feed : ChangeFeedID) (path : string) : Prop :=
  Contains path (getChangefeedMatcher feed) = true
  /\ Ext path = LogEXT
  /\ exists commitTs fileType,
       ParseLogFileName path = ParsedAs commitTs fileType
       /\ fileType <> RedoRowLogFileType /\ fileType <> RedoDDLLogFileType.

Lemma shouldRemoved_true_iff feed path C :
  shouldRemoved feed path C = Returned true <-> gcRemoves feed C path.
Proof.
  unfold shouldRemoved, gcRemoves.
  destruct (Contains path (getChangefeedMatcher feed)); cbn [negb];
    [|split; [discriminate|intros [? _]; discriminate]].
  destruct (String.eqb_spec (Ext path) LogEXT) as [Hext|Hext]; cbn [negb];
    [|split; [discriminate|intros (_ & ? & _); contradiction]].
  destruct (ParseLogFileName path) as [ts ty|e];
    [|split; [discriminate|intros (_ & _ & ? & ? & ? & _); discriminate]].
  destruct (String.eqb_spec ty RedoDDLLogFileType) as [Hd|Hd];
    destruct (String.eqb_spec ty RedoRowLogFileType) as [Hr|Hr]; cbn [negb andb].
  4: { split; [discriminate|].
       intros (_ & _ & ts' & ty' & [= <- <-] & [?|?] & _); contradiction. }
  all: split;
    [ intros [= Hlt]; apply N.ltb_lt in Hlt;
      split; [reflexivity|]; split; [assumption|]; exists ts, ty; auto
    | intros (_ & _ & ts' & ty' & [= <- <-] & _ & Hlt);
      apply N.ltb_lt in Hlt; rewrite Hlt; reflexivity ].
Qed.

Lemma shouldRemoved_panics_iff feed path C :
  (exists msg, shouldRemoved feed path C = Panicked msg) <-> unknownLogType feed path.
Proof.
  unfold shouldRemoved, unknownLogType.
  destruct (Contains path (getChangefeedMatcher feed)); cbn [negb];
    [|split; [intros [? ?]; discriminate|intros [? _]; discriminate]].
  destruct (String.eqb_spec (Ext path) LogEXT) as [Hext|Hext]; cbn [negb];
    [|split; [intros [? ?]; discriminate|intros (_ & ? & _); contradiction]].
  destruct (ParseLogFileName path) as [ts ty|e];
    [|split; [intros [? ?]; discriminate|intros (_ & _ & ? & ? & ? & _); discriminate]].
  destruct (String.eqb_spec ty RedoDDLLogFileType) as [Hd|Hd];
    destruct (String.eqb_spec ty RedoRowLogFileType) as [Hr|Hr]; cbn [negb andb].
  4: { split; [|eauto]. intros _. split; [reflexivity|]. split; [assumption|].
       exists ts, ty. auto. }
  all: split; [intros [? ?]; discriminate|].
  all: intros (_ & _ & ts' & ty' & [= <- <-] & ? & ?); contradiction.
Qed.

Lemma shouldRemoved_no_error feed path C e :
  shouldRemoved feed path C <> Errored e.
Proof.
  unfold shouldRemoved.
  destruct (negb (Contains _ _)); [discriminate|].
  destruct (negb (String.eqb _ _)); [discriminate|].
  destruct (ParseLogFileName path); [|discriminate].
  destruct (_ && _); discriminate.
Qed.

End GC.

Section GCSweep.
Context `{LogFileNames}.

Lemma bgGC_tick_eq preCkpt m :
  bgGC_tick preCkpt m
  = let ckpt := getFlushed (metaCheckpointTs m) in
    if ckpt =? preCkpt then (Returned preCkpt, m)
    else
      match RemoveFilesIf (fun path => shouldRemoved (changeFeedID m) path ckpt) m with
      | (Returned _, m') => (Returned ckpt, m')
      | (Errored e, m') => (Errored (Annotated "" e), m')
      | (Panicked msg, m') => (Panicked msg, m')
      end.
Proof.
  unfold bgGC_tick, bind, gets, mapError, ret. cbv zeta.
  destruct (getFlushed (metaCheckpointTs m) =? preCkpt); [reflexivity|].
  destruct (RemoveFilesIf _ m) as [[[]|e|msg] m']; reflexivity.
Qed.

(** C5.  Let one GC tick run with flushed checkpoint [C] on a storage that
    refuses no call, [C] differing from the checkpoint of the previous
    sweep.  If no stored file of the feed parses to an unknown log type, the
    tick succeeds and removes exactly the files whose path contains the
    changefeed matcher, whose extension is [.log], whose name parses to type
    row or ddl and whose commit timestamp is strictly below [C]; every other
    file is kept.  Whatever the rest, a file whose name parses to a commit
    timestamp [>= C] is kept.  If some stored file of the feed with
    extension [.log] parses to an unknown type, the tick panics and removes
    nothing. *)
Theorem bgGC_tick_sweeps (m : metaManager) (st : ExternalStorage) (preCkpt : Ts) :
  extStorage m = Some st ->
  (forall op, faults st op = None) ->
  let C := getFlushed (metaCheckpointTs m) in
  let feed := changeFeedID m in
  C <> preCkpt ->
  exists st',
    snd (bgGC_tick preCkpt m) = withExtStorage m (Some st')
    /\ ((forall p, is_Some (files st !! p) -> ~ unknownLogType feed p) ->
        fst (bgGC_tick preCkpt m) = Returned C
        /\ forall p, (gcRemoves feed C p -> files st' !! p = None)
                     /\ (~ gcRemoves feed C p -> files st' !! p = files st !! p))
    /\ (forall p commitTs fileType,
          ParseLogFileName p = ParsedAs commitTs fileType -> C <= commitTs ->
          files st' !! p = files st !! p)
    /\ ((exists p, is_Some (files st !! p) /\ unknownLogType feed p) ->
        (exists msg, fst (bgGC_tick preCkpt m) = Panicked msg)
        /\ files st' = files st).
Proof.
  intros Hst Hnf C feed Hne.
  rewrite bgGC_tick_eq. cbv zeta. fold C feed.
  apply N.eqb_neq in Hne. rewrite Hne.
  destruct (RemoveFilesIf_spec (fun path => shouldRemoved feed path C) m st Hst)
    as (st' & Hm & _ & Hkeep & _ & Hok & Hpanic).
  exists st'. split.
  { destruct (RemoveFilesIf _ m) as [[[]|e|msg] m']; exact Hm. }
  split; [|split].
  - intros Hknown.
    destruct Hok as [Hres Hgone]; [apply Hnf| |intros p _; apply Hnf|].
    { intros p Hp. destruct (shouldRemoved feed p C) as [b|e|msg] eqn:Hs; [eauto| |].
      - destruct (shouldRemoved_no_error _ _ _ _ Hs).
      - destruct (Hknown p Hp). apply (shouldRemoved_panics_iff feed p C). eauto. }
    split.
    { destruct (RemoveFilesIf _ m) as [[[]|e|msg] m']; simpl in *; congruence. }
    intros p. split.
    + intros Hrm. apply Hgone, shouldRemoved_true_iff, Hrm.
    + intros Hrm. apply Hkeep. intros Hs. apply Hrm, shouldRemoved_true_iff, Hs.
  - intros p ts ty Hparse Hle. apply Hkeep. intros Hs.
    apply shouldRemoved_true_iff in Hs as (_ & _ & ts' & ty' & Hp' & _ & Hlt).
    rewrite Hparse in Hp'. injection Hp' as <- <-. lia.
  - intros (p & Hp & Hun).
    destruct Hpanic as [[msg Hmsg] Hsame]; [apply Hnf| | |].
    { intros q e. apply shouldRemoved_no_error. }
    { exists p. split; [exact Hp|]. apply shouldRemoved_panics_iff, Hun. }
    split; [|exact Hsame].
    destruct (RemoveFilesIf _ m) as [[[]|e|msg'] m']; simpl in *; try discriminate.
    eauto.
Qed.

End GCSweep.

(** The storage of the GC example: three logs of the feed encoding 90, 100
    and 110, the current meta file and a log of another feed. *)
Definition gcFiles : list (string * string) :=
  [("cap_feed_row_90_u1.log", "rows"); ("cap_feed_ddl_100_u2.log", "ddl");
   ("cap_feed_row_110_u3.log", "rows");
   ("cap_default_feed_meta_old.meta", "meta"); ("cap_other_row_90_u1.log", "rows")].

Lemma bgGC_tick_sweeps_witness :
  let m := Fixtures.managerAt 100 120 gcFiles in
  let st := Fixtures.storageOf gcFiles in
  extStorage m = Some st
  /\ (forall op, faults st op = None)
  /\ getFlushed (metaCheckpointTs m) <> 0
  /\ exists st',
       snd (@bgGC_tick Fixtures.exampleNames 0 m) = withExtStorage m (Some st')
       /\ fst (@bgGC_tick Fixtures.exampleNames 0 m) = Returned 100
       /\ files st' !! "cap_feed_row_90_u1.log" = None
       /\ files st' !! "cap_feed_ddl_100_u2.log" = Some "ddl"
       /\ files st' !! "cap_feed_row_110_u3.log" = Some "rows"
       /\ files st' !! "cap_default_feed_meta_old.meta" = Some "meta"
       /\ files st' !! "cap_other_row_90_u1.log" = Some "rows".
Proof.
  intros m st.
  assert (Hst : extStorage m = Some st) by reflexivity.
  assert (Hnf : forall op, faults st op = None) by reflexivity.
  assert (Hne : getFlushed (metaCheckpointTs m) <> 0) by discriminate.
  split; [exact Hst|]. split; [exact Hnf|]. split; [exact Hne|].
  destruct (@bgGC_tick_sweeps Fixtures.exampleNames m st 0 Hst Hnf Hne)
    as (st' & Hm & Hsweep & Hkeep & _).
  exists st'. split; [exact Hm|].
  assert (Hres : fst (@bgGC_tick Fixtures.exampleNames 0 m) = Returned 100)
    by (vm_compute; reflexivity).
  split; [exact Hres|].
  assert (Hfiles : files st' = files (Fixtures.storageOf
            [("cap_feed_ddl_100_u2.log", "ddl"); ("cap_feed_row_110_u3.log", "rows");
             ("cap_default_feed_meta_old.meta", "meta");
             ("cap_other_row_90_u1.log", "rows")])).
  { assert (Hx : extStorage (snd (@bgGC_tick Fixtures.exampleNames 0 m)) = Some st')
      by (rewrite Hm; reflexivity).
    vm_compute in Hx. injection Hx as <-. vm_compute. reflexivity. }
  rewrite Hfiles. repeat split; vm_compute; reflexivity.
Defined.

(** A log of the feed with an unknown type makes the tick panic, and no
    file is removed. *)
Example bgGC_tick_unknown_type_panics :
  let fs := (gcFiles ++ [("cap_feed_sort_80_u4.log", "sorted")])%list in
  let m := Fixtures.managerAt 100 120 fs in
  fst (@bgGC_tick Fixtures.exampleNames 0 m) = Panicked "unknown file type"
  /\ (files <$> extStorage (snd (@bgGC_tick Fixtures.exampleNames 0 m)))
     = Some (files (Fixtures.storageOf fs)).
Proof. vm_compute. split; reflexivity. Qed.

(** A tick that finds the checkpoint of the previous sweep does nothing. *)
Lemma bgGC_tick_skips `{LogFileNames} (m : metaManager) :
  bgGC_tick (getFlushed (metaCheckpointTs m)) m
  = (Returned (getFlushed (metaCheckpointTs m)), m).
Proof. rewrite bgGC_tick_eq. cbv zeta. rewrite N.eqb_refl. reflexivity. Qed.

(** ** C6: initialisation from the meta files in storage *)

Section Init.
Context `{LogMetaCodec}.

(** The pair that a stored meta file contributes, if it has content. *)
Definition decodedAt (fs : gmap string string) (path : string) : list LogMeta :=
  if HasSuffix path MetaEXT then
    match fs !! path with
    | Some data =>
        if (String.length data =? 0)%nat then []
        else match UnmarshalMsg data with
             | Returned meta => [meta]
             | _ => []
             end
    | None => []
    end
  else [].

(** Every meta file with content decodes. *)
Definition allDecode (fs : gmap string string) : Prop :=
  forall path data,
    fs !! path = Some data -> HasSuffix path MetaEXT = true ->
    String.length data <> 0%nat ->
    exists meta, UnmarshalMsg data = Returned meta.

Lemma initMeta_visit_eq path metas rm m st :
  extStorage m = Some st ->
  faults st (OpReadFile path) = None ->
  allDecode (files st) ->
  initMeta_visit path (metas, rm) m
  = if HasSuffix path MetaEXT
    then (Returned ((metas ++ decodedAt (files st) path)%list, (rm ++ [path])%list),
          withExtStorage m (Some (called (OpReadFile path) st)))
    else (Returned (metas, rm), m).
Proof.
  intros Hst Hnf Hdec. unfold initMeta_visit, decodedAt.
  destruct (HasSuffix path MetaEXT) eqn:Hsuf; cbn [negb]; [|reflexivity].
  unfold bind, onStorage, ReadFile. rewrite Hst. cbn [faults called files].
  rewrite Hnf.
  destruct (files st !! path) as [data|] eqn:Hd; cbn.
  - destruct (Nat.eqb_spec (String.length data) 0) as [Hz|Hz]; cbn.
    + rewrite app_nil_r. reflexivity.
    + destruct (Hdec path data Hd Hsuf Hz) as [meta ->]. reflexivity.
  - rewrite app_nil_r. reflexivity.
Qed.

Lemma initMeta_walk_spec paths : forall metas rm m st,
  extStorage m = Some st ->
  (forall op, faults st op = None) ->
  allDecode (files st) ->
  exists st',
    initMeta_walk paths (metas, rm) m
    = (Returned ((metas ++ flat_map (decodedAt (files st)) paths)%list,
                 (rm ++ List.filter (fun p => HasSuffix p MetaEXT) paths)%list),
       withExtStorage m (Some st'))
    /\ files st' = files st /\ faults st' = faults st.
Proof.
  induction paths as [|p paths IH]; intros metas rm m st Hst Hnf Hdec.
  - exists st. simpl. rewrite !app_nil_r. destruct m; simpl in *; subst. auto.
  - cbn [initMeta_walk flat_map List.filter]. unfold bind at 1.
    rewrite (initMeta_visit_eq p metas rm m st Hst (Hnf _) Hdec).
    destruct (HasSuffix p MetaEXT) eqn:Hsuf.
    + destruct (IH (metas ++ decodedAt (files st) p)%list (rm ++ [p])%list
                  (withExtStorage m (Some (called (OpReadFile p) st)))
                  (called (OpReadFile p) st) eq_refl Hnf Hdec)
        as (st' & Heq & Hf & Hfa).
      exists st'. cbn [files called] in Heq. rewrite Heq, <- !app_assoc.
      auto.
    + destruct (IH metas rm m st Hst Hnf Hdec) as (st' & Heq & Hf & Hfa).
      exists st'. rewrite Heq.
      assert (E : decodedAt (files st) p = []) by (unfold decodedAt; rewrite Hsuf; reflexivity).
      rewrite E. auto.
Qed.

(** The reduction of [ParseMeta]: upper bounds that are attained. *)
Lemma foldr_max_bound (l : list N) x : x ∈ l -> x <= foldr N.max 0 l.
Proof.
  induction l as [|y l IH]; intros Hx; [inversion Hx|].
  simpl. apply elem_of_cons in Hx as [->|Hx]; [lia|]. specialize (IH Hx). lia.
Qed.

Lemma foldr_max_attained (l : list N) : l <> [] -> foldr N.max 0 l ∈ l.
Proof.
  induction l as [|y l IH]; intros Hne; [congruence|].
  simpl. destruct l as [|z l].
  - simpl. rewrite N.max_0_r. left.
  - destruct (N.max_spec y (foldr N.max 0 (z :: l))) as [[_ ->]|[_ ->]].
    + right. apply IH. discriminate.
    + left.
Qed.

Lemma ParseMeta_spec metas :
  metas <> [] ->
  let c := fst (ParseMeta metas) in
  let r := snd (ParseMeta metas) in
  (forall meta, meta ∈ metas -> CheckpointTs meta <= c)
  /\ (exists meta, meta ∈ metas /\ CheckpointTs meta = c)
  /\ (forall meta, meta ∈ metas -> ResolvedTs meta <= r)
  /\ c <= r
  /\ (r = c \/ exists meta, meta ∈ metas /\ ResolvedTs meta = r).
Proof.
  intros Hne. unfold ParseMeta. cbn [fst snd].
  assert (Hc : CheckpointTs <$> metas <> []) by (destruct metas; [congruence|discriminate]).
  assert (Hr : ResolvedTs <$> metas <> []) by (destruct metas; [congruence|discriminate]).
  split; [|split; [|split; [|split]]].
  - intros meta Hm. apply foldr_max_bound, list_elem_of_fmap. eauto.
  - apply foldr_max_attained, list_elem_of_fmap in Hc as (meta & Heq & Hm). eauto.
  - intros meta Hm.
    assert (ResolvedTs meta <= foldr N.max 0 (ResolvedTs <$> metas))
      by (apply foldr_max_bound, list_elem_of_fmap; eauto).
    lia.
  - lia.
  - destruct (N.max_spec (foldr N.max 0 (ResolvedTs <$> metas))
                (foldr N.max 0 (CheckpointTs <$> metas))) as [[_ ->]|[_ ->]];
      [left; reflexivity|right].
    apply foldr_max_attained, list_elem_of_fmap in Hr as (meta & Heq & Hm). eauto.
Qed.

End Init.

Section InitTheorem.
Context `{LogMetaCodec}.

(** The pairs that [initMeta] collects: the seed and one per meta file with
    content. *)
Definition collectedMetas (startTs : Ts) (st : ExternalStorage) : list LogMeta :=
  {| CheckpointTs := startTs; ResolvedTs := startTs |}
    :: flat_map (decodedAt (files st)) (map_to_list (files st)).*1.

(** The meta files that [initMeta] finds. *)
Definition discoveredMetaFiles (st : ExternalStorage) : list string :=
  List.filter (fun p => HasSuffix p MetaEXT) (map_to_list (files st)).*1.

Lemma initMeta_eq startTs m st :
  extStorage m = Some st ->
  (forall op, faults st op = None) ->
  allDecode (files st) ->
  exists st1,
    files st1 = files st /\ faults st1 = faults st
    /\ initMeta None startTs m
       = let m1 := withExtStorage m (Some st1) in
         let c := fst (ParseMeta (collectedMetas startTs st)) in
         let r := snd (ParseMeta (collectedMetas startTs st)) in
         if (c =? 0) || (r =? 0) then
           (Panicked "checkpointTs or resolvedTs is 0 when initializing redo meta in owner", m1)
         else
           let m2 :=
             withCheckpointTs
               (withResolvedTs m1
                  {| flushed := flushed (metaResolvedTs m); unflushed := r |})
               {| flushed := flushed (metaCheckpointTs m); unflushed := c |} in
           match maybeFlushMeta m2 with
           | (Returned _, m3) => DeleteFilesInExtStorage (discoveredMetaFiles st) m3
           | (Errored e, m3) =>
               (Errored (WrapError ErrRedoMetaInitialize
                           (Annotate e "flush meta file fail")), m3)
           | (Panicked msg, m3) => (Panicked msg, m3)
           end.
Proof.
  intros Hst Hnf Hdec.
  destruct (initMeta_walk_spec (map_to_list (files st)).*1
              [{| CheckpointTs := startTs; ResolvedTs := startTs |}] []
              (withExtStorage m (Some (called OpWalkDir st)))
              (called OpWalkDir st) eq_refl Hnf Hdec)
    as (st1 & Hwalk & Hf & Hfa).
  exists st1. split; [exact Hf|]. split; [exact Hfa|].
  unfold initMeta. unfold bind at 1, mapError at 1, bind at 1, onStorage at 1, WalkDir.
  rewrite Hst. cbn [faults called files]. rewrite Hnf.
  cbn [files called] in Hwalk. rewrite Hwalk. cbn [app].
  fold (collectedMetas startTs st). fold (discoveredMetaFiles st).
  destruct (ParseMeta (collectedMetas startTs st)) as [c r]. cbn [fst snd].
  destruct ((c =? 0) || (r =? 0)); [reflexivity|].
  unfold bind, modify, mapError.
  destruct m as [cid feed en cts rts ost gen pre].
  unfold withCheckpointTs, withResolvedTs, withExtStorage.
  cbn -[maybeFlushMeta DeleteFilesInExtStorage].
  match goal with
  | |- context [maybeFlushMeta ?x] => destruct (maybeFlushMeta x) as [[[]|e|msg] m3]
  end; reflexivity.
Qed.

End InitTheorem.

Section InitClaim.
Context `{LogMetaCodec}.

Lemma elem_of_collectedMetas startTs st meta :
  meta ∈ collectedMetas startTs st
  <-> meta = {| CheckpointTs := startTs; ResolvedTs := startTs |}
      \/ exists path data,
           files st !! path = Some data /\ HasSuffix path MetaEXT = true
           /\ String.length data <> 0%nat /\ UnmarshalMsg data = Returned meta.
Proof.
  unfold collectedMetas. rewrite elem_of_cons.
  apply or_iff_compat_l.
  rewrite list_elem_of_In, in_flat_map. split.
  - intros (p & Hp & Hin). unfold decodedAt in Hin.
    destruct (HasSuffix p MetaEXT) eqn:Hsuf; [|destruct Hin].
    destruct (files st !! p) as [d|] eqn:Hd; [|destruct Hin].
    destruct (Nat.eqb_spec (String.length d) 0) as [Hz|Hz]; [destruct Hin|].
    destruct (UnmarshalMsg d) as [meta'|e|msg] eqn:Hu;
      [destruct Hin as [<-|[]]|destruct Hin|destruct Hin].
    exists p, d. auto.
  - intros (p & d & Hd & Hsuf & Hz & Hu). exists p. split.
    + apply list_elem_of_In, elem_of_listing. eauto.
    + unfold decodedAt. rewrite Hsuf, Hd.
      destruct (Nat.eqb_spec (String.length d) 0) as [Hz'|_]; [contradiction|].
      rewrite Hu. left. reflexivity.
Qed.

Lemma elem_of_discoveredMetaFiles st p :
  p ∈ discoveredMetaFiles st
  <-> is_Some (files st !! p) /\ HasSuffix p MetaEXT = true.
Proof.
  unfold discoveredMetaFiles.
  rewrite list_elem_of_In, List.filter_In, <- list_elem_of_In, elem_of_listing.
  reflexivity.
Qed.

End InitClaim.

Section InitMain.
Context `{LogMetaCodec}.

(** C6, amended.  On a freshly built manager whose storage refuses no call
    and whose meta files all decode, [initMeta(startTs)] collects the seed
    [{startTs, startTs}] and the pair of every stored file whose name ends
    in [.meta] (whatever feed it belongs to) and that has content; it
    reduces them to [checkpointTs], the maximum of the collected
    checkpoints, and [resolvedTs], the maximum of the collected resolved
    timestamps and [checkpointTs]; it panics if either is zero.  Otherwise,
    given that the codec serializes the pair and that the generator's next
    name is not taken, it returns nil, the flushed pair is the reduced
    pair, the only file ending in [.meta] that is left is the new one,
    holding the serialized pair, and every file whose name does not end in
    [.meta] is as before. *)
Theorem initMeta_reduces_flushes_cleans
    (capture : string) (feed : ChangeFeedID) (gen : Generator)
    (st : ExternalStorage) (startTs : Ts) :
  (forall op, faults st op = None) ->
  allDecode (files st) ->
  let m := newMetaManager capture feed gen (Some st) in
  let metas := collectedMetas startTs st in
  let c := fst (ParseMeta metas) in
  let r := snd (ParseMeta metas) in
  let res := fst (initMeta None startTs m) in
  let m' := snd (initMeta None startTs m) in
  (forall meta, meta ∈ metas
     <-> meta = {| CheckpointTs := startTs; ResolvedTs := startTs |}
         \/ exists path data,
              files st !! path = Some data /\ HasSuffix path MetaEXT = true
              /\ String.length data <> 0%nat /\ UnmarshalMsg data = Returned meta)
  /\ (forall meta, meta ∈ metas -> CheckpointTs meta <= c)
  /\ (exists meta, meta ∈ metas /\ CheckpointTs meta = c)
  /\ (forall meta, meta ∈ metas -> ResolvedTs meta <= r)
  /\ c <= r
  /\ (r = c \/ exists meta, meta ∈ metas /\ ResolvedTs meta = r)
  /\ (c = 0 \/ r = 0 -> exists msg, res = Panicked msg)
  /\ (c <> 0 -> r <> 0 ->
      forall data,
        MarshalMsg {| CheckpointTs := c; ResolvedTs := r |} = Returned data ->
        files st !! nextMetaFile m = None ->
        res = Returned tt
        /\ GetFlushedMeta m' = {| CheckpointTs := c; ResolvedTs := r |}
        /\ exists st', extStorage m' = Some st'
             /\ (forall p, HasSuffix p MetaEXT = true ->
                   files st' !! p
                   = if decide (p = nextMetaFile m) then Some data else None)
             /\ (forall p, HasSuffix p MetaEXT = false ->
                   files st' !! p = files st !! p)).
Proof.
  intros Hnf Hdec m metas c r res m'.
  split; [intros meta; apply elem_of_collectedMetas|].
  destruct (ParseMeta_spec metas) as (Hcub & Hcat & Hrub & Hcr & Hrat);
    [discriminate|].
  fold c r in Hcub, Hcat, Hrub, Hcr, Hrat.
  split; [exact Hcub|]. split; [exact Hcat|]. split; [exact Hrub|].
  split; [exact Hcr|]. split; [exact Hrat|].
  destruct (initMeta_eq startTs m st eq_refl Hnf Hdec) as (st1 & Hf1 & Hfa1 & Heq).
  fold metas in Heq. cbv zeta in Heq. fold c r in Heq.
  subst res m'. rewrite Heq. clear Heq.
  split.
  { intros Hz. assert (E : (c =? 0) || (r =? 0) = true).
    { destruct Hz as [->| ->]; [reflexivity|]. rewrite orb_true_r. reflexivity. }
    rewrite E. eauto. }
  intros Hc Hr data Hdata Hfresh.
  apply N.eqb_neq in Hc as Hc', Hr as Hr'. rewrite Hc', Hr'. cbn [orb].
  set (m2 := withCheckpointTs _ _).
  assert (Hm2 : extStorage m2 = Some st1) by reflexivity.
  rewrite maybeFlushMeta_eq.
  assert (Hprep : prepareForFlushMeta m2 = (true, {| CheckpointTs := c; ResolvedTs := r |})).
  { unfold prepareForFlushMeta, getFlushed, getUnflushed.
    cbn [m2 m newMetaManager withCheckpointTs withResolvedTs withExtStorage
         metaCheckpointTs metaResolvedTs flushed unflushed CheckpointTs ResolvedTs].
    assert (E : (0 <? c) = true) by (apply N.ltb_lt; lia). rewrite E. reflexivity. }
  rewrite Hprep. cbn [fst snd].
  rewrite (flush_eq _ m2 st1 Hm2). cbv zeta.
  rewrite Hdata, Hfa1, Hnf. change (preMetaFile m2) with "".
  cbn [String.eqb]. rewrite postFlushMeta_eq.
  change (nextMetaFile m2) with (nextMetaFile m).
  set (metaFile := nextMetaFile m) in *.
  set (st2 := setFiles (called (OpWriteFile metaFile) st1)
                (<[metaFile := data]> (files st1))).
  set (m4 := withCheckpointTs _ _).
  assert (Hm4 : extStorage m4 = Some st2) by reflexivity.
  destruct (DeleteFilesInExtStorage_spec (discoveredMetaFiles st) m4 st2 Hm4)
    as (st' & Hm' & _ & Hkeep & _ & Hok).
  destruct Hok as [Hres Hgone].
  { intros p _. unfold st2. cbn [faults setFiles called]. rewrite Hfa1. apply Hnf. }
  split; [exact Hres|]. rewrite Hm'.
  split; [reflexivity|].
  exists st'. split; [reflexivity|].
  assert (Hsuf : HasSuffix metaFile MetaEXT = true) by apply metafileNameOf_suffix.
  split.
  - intros p Hp. destruct (decide (p = metaFile)) as [->|Hne].
    + rewrite Hkeep.
      * unfold st2. cbn [files setFiles]. apply lookup_insert_eq.
      * rewrite elem_of_discoveredMetaFiles, Hfresh. intros [[? ?] _]. discriminate.
    + destruct (files st !! p) as [d|] eqn:Hd.
      * apply Hgone, elem_of_discoveredMetaFiles. rewrite Hd. eauto.
      * rewrite Hkeep.
        -- unfold st2. cbn [files setFiles].
           rewrite lookup_insert_ne by congruence. rewrite Hf1. exact Hd.
        -- rewrite elem_of_discoveredMetaFiles, Hd. intros [[? ?] _]. discriminate.
  - intros p Hp. rewrite Hkeep.
    + unfold st2. cbn [files setFiles].
      rewrite lookup_insert_ne by congruence. rewrite Hf1. reflexivity.
    + rewrite elem_of_discoveredMetaFiles. intros [_ ?]. congruence.
Qed.

End InitMain.

(** The storage of the recovery example: two meta files of the feed,
    [(10, 20)] and [(12, 22)], and a file that is not a meta file. *)
Definition recoveryFiles : list (string * string) :=
  [("cap_default_feed_meta_u1.meta",
    Fixtures.encodeMeta {| CheckpointTs := 10; ResolvedTs := 20 |});
   ("cap_default_feed_meta_u2.meta",
    Fixtures.encodeMeta {| CheckpointTs := 12; ResolvedTs := 22 |});
   ("notes.txt", "stray")].

Lemma allDecode_list (fs : list (string * string)) :
  Forall (fun pd => HasSuffix (fst pd) MetaEXT = true ->
            exists meta, @UnmarshalMsg Fixtures.exampleCodec (snd pd) = Returned meta) fs ->
  @allDecode Fixtures.exampleCodec (list_to_map fs).
Proof.
  intros Hall path data Hd Hsuf _.
  apply elem_of_list_to_map_2 in Hd.
  rewrite Forall_forall in Hall. exact (Hall _ Hd Hsuf).
Qed.

Ltac decode_all :=
  apply allDecode_list;
  repeat constructor; cbn [fst snd]; intros Hsuf;
  first [ discriminate Hsuf | eexists; vm_compute; reflexivity ].

Lemma initMeta_reduces_flushes_cleans_witness :
  let st := Fixtures.storageOf recoveryFiles in
  let m := newMetaManager "cap" Fixtures.exampleFeed Fixtures.exampleGenerator (Some st) in
  (forall op, faults st op = None)
  /\ @allDecode Fixtures.exampleCodec (files st)
  /\ fst (@initMeta Fixtures.exampleCodec None 5 m) = Returned tt
  /\ GetFlushedMeta (snd (@initMeta Fixtures.exampleCodec None 5 m))
     = {| CheckpointTs := 12; ResolvedTs := 22 |}
  /\ exists st', extStorage (snd (@initMeta Fixtures.exampleCodec None 5 m)) = Some st'
       /\ files st' !! "cap_default_feed_meta_u1.meta" = None
       /\ files st' !! "cap_default_feed_meta_u2.meta" = None
       /\ files st' !! "cap_default_feed_meta_a.meta"
          = Some (Fixtures.encodeMeta {| CheckpointTs := 12; ResolvedTs := 22 |})
       /\ files st' !! "notes.txt" = Some "stray".
Proof.
  intros st m.
  assert (Hnf : forall op, faults st op = None) by reflexivity.
  assert (Hdec : @allDecode Fixtures.exampleCodec (files st)) by decode_all.
  split; [exact Hnf|]. split; [exact Hdec|].
  destruct (@initMeta_reduces_flushes_cleans Fixtures.exampleCodec
              "cap" Fixtures.exampleFeed Fixtures.exampleGenerator st 5 Hnf Hdec)
    as (_ & _ & _ & _ & _ & _ & _ & Hok).
  assert (Ec : fst (ParseMeta (@collectedMetas Fixtures.exampleCodec 5 st)) = 12)
    by (vm_compute; reflexivity).
  assert (Er : snd (ParseMeta (@collectedMetas Fixtures.exampleCodec 5 st)) = 22)
    by (vm_compute; reflexivity).
  rewrite Ec, Er in Hok.
  destruct (Hok ltac:(discriminate) ltac:(discriminate)
              (Fixtures.encodeMeta {| CheckpointTs := 12; ResolvedTs := 22 |})
              eq_refl ltac:(vm_compute; reflexivity))
    as (Hres & Hflushed & st' & Hst' & Hmeta & Hother).
  split; [exact Hres|]. split; [exact Hflushed|].
  exists st'. split; [exact Hst'|].
  split; [exact (Hmeta "cap_default_feed_meta_u1.meta" eq_refl)|].
  split; [exact (Hmeta "cap_default_feed_meta_u2.meta" eq_refl)|].
  split; [exact (Hmeta "cap_default_feed_meta_a.meta" eq_refl)|].
  rewrite (Hother "notes.txt" eq_refl). vm_compute. reflexivity.
Defined.

(** C6 as stated fails on its last clause: the walk of [initMeta] selects
    by the [.meta] suffix alone, so a meta file of another feed is
    collected and deleted with the feed's own. *)
Lemma initMeta_foreign_meta_counterexample :
  let foreign := "cap_default_other_meta_u9.meta" in
  let st := Fixtures.storageOf
              (recoveryFiles ++
               [(foreign, Fixtures.encodeMeta {| CheckpointTs := 1; ResolvedTs := 2 |})]) in
  let m := newMetaManager "cap" Fixtures.exampleFeed Fixtures.exampleGenerator (Some st) in
  Contains foreign (getChangefeedMatcher Fixtures.exampleFeed) = false
  /\ is_Some (files st !! foreign)
  /\ fst (@initMeta Fixtures.exampleCodec None 5 m) = Returned tt
  /\ GetFlushedMeta (snd (@initMeta Fixtures.exampleCodec None 5 m))
     = {| CheckpointTs := 12; ResolvedTs := 22 |}
  /\ exists st', extStorage (snd (@initMeta Fixtures.exampleCodec None 5 m)) = Some st'
       /\ files st' !! foreign = None
       /\ files st' !! foreign <> files st !! foreign.
Proof.
  intros foreign st m.
  split; [vm_compute; reflexivity|].
  split; [vm_compute; eauto|].
  split; [vm_compute; reflexivity|].
  split; [vm_compute; reflexivity|].
  destruct (extStorage (snd (@initMeta Fixtures.exampleCodec None 5 m))) as [st'|] eqn:E;
    [|vm_compute in E; discriminate].
  exists st'. split; [reflexivity|].
  vm_compute in E. injection E as <-.
  split; [vm_compute; reflexivity|vm_compute; discriminate].
Qed.

(** ** C7: recovery from the deletion marker at startup *)

Lemma preCleanupExtStorage_eq m st :
  extStorage m = Some st ->
  let deleteMarker := getDeletedChangefeedMarker (changeFeedID m) in
  let changefeedMatcher := getChangefeedMatcher (changeFeedID m) in
  let m0 := withExtStorage m (Some (called (OpFileExists deleteMarker) st)) in
  preCleanupExtStorage m
  = match faults st (OpFileExists deleteMarker) with
    | Some e => (Errored (WrapError ErrExternalStorageAPI e), m0)
    | None =>
        if bool_decide (is_Some (files st !! deleteMarker)) then
          match RemoveFilesIf
                  (fun path => Returned (allLogsOfFeed deleteMarker changefeedMatcher path))
                  m0 with
          | (Returned _, m1) =>
              match onStorage (DeleteFile deleteMarker) m1 with
              | (Returned (Some e), m2) =>
                  if IsNotExistInExtStorage e then (Returned tt, m2)
                  else (Errored (WrapError ErrExternalStorageAPI e), m2)
              | (Returned None, m2) => (Returned tt, m2)
              | (Errored e, m2) => (Errored e, m2)
              | (Panicked msg, m2) => (Panicked msg, m2)
              end
          | (Errored e, m1) => (Errored e, m1)
          | (Panicked msg, m1) => (Panicked msg, m1)
          end
        else (Returned tt, m0)
    end.
Proof.
  intros Hst. cbv zeta.
  unfold preCleanupExtStorage.
  unfold bind at 1, gets at 1. unfold bind at 1, onStorage at 1, FileExists.
  rewrite Hst. cbn [faults called files].
  destruct (faults st (OpFileExists _)) as [e|]; [reflexivity|].
  destruct (bool_decide _); cbn [negb]; [|reflexivity].
  unfold bind at 1. cbn [changeFeedID withExtStorage].
  destruct (RemoveFilesIf _ _) as [[[]|e|msg] m1]; try reflexivity.
  unfold bind. destruct (onStorage (DeleteFile _) m1) as [[[e|]|e|msg] m2]; try reflexivity.
  destruct (IsNotExistInExtStorage e); reflexivity.
Qed.

(** C7.  [preCleanupExtStorage] first asks whether the deletion marker
    exists.  If it does not, the call returns nil and leaves every file in
    place.  If it does and the storage refuses no call, the call returns
    nil, every file whose path contains the changefeed matcher is gone, the
    marker is gone, and every other file is as before.  If the storage
    refuses nothing but answers not-found to the final delete of the marker,
    the call still returns nil. *)
Theorem preCleanupExtStorage_recovers (m : metaManager) (st : ExternalStorage) :
  extStorage m = Some st ->
  let deleteMarker := getDeletedChangefeedMarker (changeFeedID m) in
  let changefeedMatcher := getChangefeedMatcher (changeFeedID m) in
  exists st',
    snd (preCleanupExtStorage m) = withExtStorage m (Some st')
    /\ (faults st (OpFileExists deleteMarker) = None ->
        files st !! deleteMarker = None ->
        fst (preCleanupExtStorage m) = Returned tt /\ files st' = files st)
    /\ (is_Some (files st !! deleteMarker) ->
        (forall op, faults st op = None) ->
        fst (preCleanupExtStorage m) = Returned tt
        /\ (forall p, Contains p changefeedMatcher = true -> files st' !! p = None)
        /\ files st' !! deleteMarker = None
        /\ (forall p, Contains p changefeedMatcher = false -> p <> deleteMarker ->
              files st' !! p = files st !! p))
    /\ (is_Some (files st !! deleteMarker) ->
        (forall op, op <> OpDeleteFile deleteMarker -> faults st op = None) ->
        (exists e, faults st (OpDeleteFile deleteMarker) = Some e
                   /\ IsNotExistInExtStorage e = true) ->
        fst (preCleanupExtStorage m) = Returned tt).
Proof.
  intros Hst deleteMarker changefeedMatcher.
  rewrite (preCleanupExtStorage_eq m st Hst). cbv zeta.
  fold deleteMarker changefeedMatcher.
  set (st0 := called (OpFileExists deleteMarker) st).
  set (pred := fun path => Returned (allLogsOfFeed deleteMarker changefeedMatcher path)).
  destruct (faults st (OpFileExists deleteMarker)) as [e|] eqn:Hex.
  { exists st0. split; [reflexivity|].
    split; [discriminate|].
    split; [intros _ Hnf; rewrite Hnf in Hex; discriminate|].
    intros _ Hnf _. rewrite Hnf in Hex; discriminate. }
  destruct (files st !! deleteMarker) as [d|] eqn:Hmark.
  2: { rewrite bool_decide_eq_false_2 by (intros [? ?]; discriminate).
       exists st0. split; [reflexivity|].
       split; [auto|].
       split; intros [? ?]; discriminate. }
  rewrite bool_decide_eq_true_2 by eauto.
  destruct (RemoveFilesIf_spec pred (withExtStorage m (Some st0)) st0 eq_refl)
    as (st1 & Hm1 & Hfa1 & Hkeep & Hsub & Hok & _).
  assert (Hpred : forall p, is_Some (files st0 !! p) -> exists b, pred p = Returned b)
    by (intros p _; eexists; reflexivity).
  assert (Hsweep : (forall p, p <> deleteMarker -> faults st (OpDeleteFile p) = None) ->
            faults st OpWalkDir = None ->
            fst (RemoveFilesIf pred (withExtStorage m (Some st0))) = Returned tt
            /\ forall p, pred p = Returned true -> files st1 !! p = None).
  { intros Hdel Hwalk. apply Hok; [exact Hwalk|exact Hpred|].
    intros p Hp. apply Hdel. intros ->.
    unfold pred, allLogsOfFeed in Hp. rewrite String.eqb_refl in Hp. discriminate. }
  destruct (RemoveFilesIf pred (withExtStorage m (Some st0))) as [res1 m1].
  cbn [fst snd] in Hm1, Hsweep. subst m1.
  unfold onStorage, DeleteFile. cbn [extStorage withExtStorage faults called files].
  rewrite Hfa1. cbn [st0 faults called].
  destruct res1 as [[]|e|msg].
  - destruct (faults st (OpDeleteFile deleteMarker)) as [e|] eqn:Hdel.
    + exists (called (OpDeleteFile deleteMarker) st1).
      split; [destruct (IsNotExistInExtStorage e); reflexivity|].
      split; [intros _ ?; discriminate|].
      split; [intros _ Hnf; rewrite Hnf in Hdel; discriminate|].
      intros _ _ (e' & He' & Hne). injection He' as <-. rewrite Hne. reflexivity.
    + exists (setFiles (called (OpDeleteFile deleteMarker) st1)
                (delete deleteMarker (files st1))).
      split; [reflexivity|].
      split; [intros _ ?; discriminate|].
      split; [|intros _ _ (e' & He' & _); discriminate].
      intros _ Hnf. split; [reflexivity|].
      destruct Hsweep as [_ Hgone]; [intros p _; apply Hnf|apply Hnf|].
      cbn [files setFiles].
      split; [|split].
      * intros p Hp. destruct (decide (p = deleteMarker)) as [->|Hne];
          [apply lookup_delete_eq|].
        rewrite lookup_delete_ne by congruence. apply Hgone.
        unfold pred, allLogsOfFeed. rewrite Hp.
        apply String.eqb_neq in Hne. rewrite Hne. reflexivity.
      * apply lookup_delete_eq.
      * intros p Hp Hne. rewrite lookup_delete_ne by congruence.
        rewrite Hkeep; [reflexivity|].
        unfold pred, allLogsOfFeed. rewrite Hp, orb_true_r. discriminate.
  - exists st1. split; [reflexivity|].
    split; [intros _ ?; discriminate|].
    split.
    + intros _ Hnf. destruct Hsweep as [? _]; [intros p _; apply Hnf|apply Hnf|].
      discriminate.
    + intros _ Hnf _. destruct Hsweep as [? _].
      * intros p Hp. apply Hnf. congruence.
      * apply Hnf. discriminate.
      * discriminate.
  - exists st1. split; [reflexivity|].
    split; [intros _ ?; discriminate|].
    split.
    + intros _ Hnf. destruct Hsweep as [? _]; [intros p _; apply Hnf|apply Hnf|].
      discriminate.
    + intros _ Hnf _. destruct Hsweep as [? _].
      * intros p Hp. apply Hnf. congruence.
      * apply Hnf. discriminate.
      * discriminate.
Qed.

(** The storage of the marker example: the marker, three files of the feed
    and one file of another feed. *)
Definition markerFiles : list (string * string) :=
  [("delete_feed", "D");
   ("cap_feed_row_90_u1.log", "rows");
   ("cap_default_feed_meta_old.meta", "meta");
   ("cap_feed_ddl_100_u2.log", "ddl");
   ("cap_other_row_90_u1.log", "rows")].

Lemma preCleanupExtStorage_recovers_witness :
  let st := Fixtures.storageOf markerFiles in
  let m := Fixtures.exampleManager markerFiles in
  extStorage m = Some st
  /\ exists st',
       snd (preCleanupExtStorage m) = withExtStorage m (Some st')
       /\ fst (preCleanupExtStorage m) = Returned tt
       /\ files st' !! "cap_feed_row_90_u1.log" = None
       /\ files st' !! "cap_default_feed_meta_old.meta" = None
       /\ files st' !! "cap_feed_ddl_100_u2.log" = None
       /\ files st' !! "delete_feed" = None
       /\ files st' !! "cap_other_row_90_u1.log" = Some "rows".
Proof.
  intros st m.
  assert (Hst : extStorage m = Some st) by reflexivity.
  split; [exact Hst|].
  destruct (preCleanupExtStorage_recovers m st Hst)
    as (st' & Hm & _ & Hpresent & _).
  exists st'. split; [exact Hm|].
  destruct Hpresent as (Hres & Hfeed & Hmark & Hother).
  { vm_compute. eauto. }
  { intros op. reflexivity. }
  split; [exact Hres|].
  split; [apply Hfeed; vm_compute; reflexivity|].
  split; [apply Hfeed; vm_compute; reflexivity|].
  split; [apply Hfeed; vm_compute; reflexivity|].
  split; [exact Hmark|].
  rewrite Hother; [vm_compute; reflexivity|vm_compute; reflexivity|discriminate].
Defined.

(** Without the marker nothing is removed. *)
Example preCleanupExtStorage_no_marker :
  let fs := [("cap_feed_row_90_u1.log", "rows"); ("cap_other_row_90_u1.log", "rows")] in
  let m := Fixtures.exampleManager fs in
  fst (preCleanupExtStorage m) = Returned tt
  /\ (files <$> extStorage (snd (preCleanupExtStorage m)))
     = Some (files (Fixtures.storageOf fs)).
Proof. vm_compute. split; reflexivity. Qed.

(** ** C10: [Cleanup] leaves the deletion marker behind *)

(** ** The marker's name is out of reach of the other sweeps *)

Lemma append_cons (c : ascii) (a b : string) : String c a ++ b = String c (a ++ b).
Proof. reflexivity. Qed.

Lemma append_nil (b : string) : "" ++ b = b.
Proof. reflexivity. Qed.

Lemma length_app_string (a b : string) :
  String.length (a ++ b) = (String.length a + String.length b)%nat.
Proof.
  induction a as [|c a IH]; [reflexivity|].
  rewrite append_cons. cbn [String.length]. rewrite IH. reflexivity.
Qed.

Lemma HasPrefix_inv s p : HasPrefix s p = true -> exists post, s = p ++ post.
Proof.
  unfold HasPrefix. revert s. induction p as [|c p IH]; intros s Hp.
  - exists s. reflexivity.
  - destruct s as [|c' s]; [discriminate|]. simpl in Hp.
    destruct (ascii_dec c c') as [->|]; [|discriminate].
    destruct (IH s Hp) as [post ->]. exists post. reflexivity.
Qed.

Lemma Contains_inv s sub :
  Contains s sub = true -> exists pre post, s = pre ++ sub ++ post.
Proof.
  induction s as [|c s IH]; cbn [Contains].
  - destruct (HasPrefix "" sub) eqn:Hp; [|discriminate].
    intros _. apply HasPrefix_inv in Hp as [post ->]. exists "", post. reflexivity.
  - destruct (HasPrefix (String c s) sub) eqn:Hp.
    + intros _. apply HasPrefix_inv in Hp as [post ->]. exists "", post. reflexivity.
    + intros Hc. destruct (IH Hc) as (pre & post & ->).
      exists (String c pre), post. reflexivity.
Qed.

(** No name [delete_X] contains [_X_]: the occurrence would have to start
    within the first six bytes, none of which is an underscore. *)
Lemma delete_name_not_matched (X : string) :
  Contains ("delete_" ++ X) ("_" ++ X ++ "_") = false.
Proof.
  destruct (Contains ("delete_" ++ X) ("_" ++ X ++ "_")) eqn:E; [|reflexivity].
  exfalso. apply Contains_inv in E as (pre & post & E).
  assert (Hlen : (String.length pre <= 5)%nat).
  { apply (f_equal String.length) in E.
    rewrite !length_app_string in E. cbn [String.length] in E. lia. }
  destruct pre as [|c0 [|c1 [|c2 [|c3 [|c4 [|c5 pre]]]]]];
    rewrite ?append_cons, ?append_nil in E; cbn [String.length] in Hlen;
    try lia; congruence.
Qed.

Lemma marker_not_matched (feed : ChangeFeedID) :
  Contains (getDeletedChangefeedMarker feed) (getChangefeedMatcher feed) = false.
Proof.
  unfold getDeletedChangefeedMarker, getChangefeedMatcher, DefaultNamespace.
  destruct (String.eqb (Namespace feed) "default").
  - apply delete_name_not_matched.
  - replace ("_" ++ Namespace feed ++ "_" ++ ID feed ++ "_")
      with ("_" ++ (Namespace feed ++ "_" ++ ID feed) ++ "_");
      [apply delete_name_not_matched|].
    f_equal. rewrite !app_assoc_string. reflexivity.
Qed.

(** No meta file name is the marker: it is longer. *)
Lemma metafileNameOf_not_marker cid feed uuid :
  metafileNameOf cid feed uuid <> getDeletedChangefeedMarker feed.
Proof.
  intros E. apply (f_equal String.length) in E. revert E.
  unfold metafileNameOf, getDeletedChangefeedMarker, DefaultNamespace,
    RedoMetaFileType, MetaEXT.
  destruct (String.eqb_spec (Namespace feed) "default") as [Hns|Hns].
  - rewrite Hns, !length_app_string. cbn [String.length]. lia.
  - rewrite !length_app_string. cbn [String.length]. lia.
Qed.

Lemma empty_not_marker feed : "" <> getDeletedChangefeedMarker feed.
Proof.
  unfold getDeletedChangefeedMarker.
  destruct (String.eqb _ _); discriminate.
Qed.

(** [UpdateMeta] leaves the feed, the storage and the remembered meta file
    alone. *)
Lemma UpdateMeta_frame c r m :
  changeFeedID (snd (UpdateMeta c r m)) = changeFeedID m
  /\ extStorage (snd (UpdateMeta c r m)) = extStorage m
  /\ preMetaFile (snd (UpdateMeta c r m)) = preMetaFile m.
Proof.
  unfold UpdateMeta.
  destruct (checkAndSetUnflushed r (metaResolvedTs m)) as [okR rts].
  cbn [metaCheckpointTs withResolvedTs].
  destruct (checkAndSetUnflushed c (metaCheckpointTs m)) as [okC cts].
  repeat split.
Qed.

(** The marker of feed [feed] lies in the manager's storage with content
    [d], and the remembered meta file is not the marker. *)
Definition markerKept (feed : ChangeFeedID) (d : string) (m : metaManager) : Prop :=
  changeFeedID m = feed
  /\ (exists st, extStorage m = Some st
        /\ files st !! getDeletedChangefeedMarker feed = Some d)
  /\ preMetaFile m <> getDeletedChangefeedMarker feed.

Section MarkerKept.
Context `{LogMetaCodec} `{LogFileNames}.

Lemma shouldRemoved_marker feed C :
  shouldRemoved feed (getDeletedChangefeedMarker feed) C = Returned false.
Proof. unfold shouldRemoved. rewrite marker_not_matched. reflexivity. Qed.

Lemma maybeFlushMeta_keeps_marker feed d m :
  markerKept feed d m -> markerKept feed d (snd (maybeFlushMeta m)).
Proof.
  intros (Hfeed & (st & Hst & Hmark) & Hpre).
  rewrite maybeFlushMeta_eq.
  destruct (fst (prepareForFlushMeta m));
    [|split; [exact Hfeed|split; [eauto|exact Hpre]]].
  rewrite (flush_eq _ m st Hst). cbv zeta.
  assert (Hnew : nextMetaFile m <> getDeletedChangefeedMarker feed)
    by (unfold nextMetaFile; rewrite Hfeed; apply metafileNameOf_not_marker).
  set (metaFile := nextMetaFile m) in *.
  set (marker := getDeletedChangefeedMarker feed) in *.
  assert (Hins : forall data, <[metaFile := data]> (files st) !! marker = Some d)
    by (intros data; rewrite lookup_insert_ne by exact Hnew; exact Hmark).
  assert (Hdel : forall data,
            delete (preMetaFile m) (<[metaFile := data]> (files st)) !! marker = Some d)
    by (intros data; rewrite lookup_delete_ne by exact Hpre; apply Hins).
  assert (Hdone : forall m' st',
            changeFeedID m' = feed -> extStorage m' = Some st' ->
            files st' !! marker = Some d -> preMetaFile m' <> marker ->
            markerKept feed d m').
  { intros m' st' Hfd Hs Hf Hp. split; [exact Hfd|]. split; [eauto|exact Hp]. }
  assert (Hsame : markerKept feed d m)
    by (eapply Hdone; [exact Hfeed|exact Hst|exact Hmark|exact Hpre]).
  destruct (MarshalMsg _) as [data|e|msg]; [|exact Hsame|exact Hsame].
  destruct (faults st (OpWriteFile metaFile)) as [e|].
  { eapply Hdone; [exact Hfeed|reflexivity|exact Hmark|exact Hpre]. }
  destruct (String.eqb (preMetaFile m) "").
  { rewrite postFlushMeta_eq.
    eapply Hdone; [exact Hfeed|reflexivity|exact (Hins data)|exact Hnew]. }
  destruct (String.eqb (preMetaFile m) metaFile).
  { rewrite postFlushMeta_eq.
    eapply Hdone; [exact Hfeed|reflexivity|exact (Hins data)|exact Hpre]. }
  destruct (faults st (OpDeleteFile (preMetaFile m))) as [e|].
  - destruct (IsNotExistInExtStorage e).
    + rewrite postFlushMeta_eq.
      eapply Hdone; [exact Hfeed|reflexivity|exact (Hins data)|exact Hnew].
    + eapply Hdone; [exact Hfeed|reflexivity|exact (Hins data)|exact Hpre].
  - rewrite postFlushMeta_eq.
    eapply Hdone; [exact Hfeed|reflexivity|exact (Hdel data)|exact Hnew].
Qed.

Lemma step_keeps_marker feed d ev s :
  markerKept feed d (mgr s) -> markerKept feed d (mgr (step ev s)).
Proof.
  intros Hk. destruct ev as [c r| | |f]; cbn [step mgr].
  - destruct (UpdateMeta_frame c r (mgr s)) as (Hfeed & Hst & Hpre).
    unfold markerKept in *. rewrite Hfeed, Hst, Hpre. exact Hk.
  - rewrite bgFlushMeta_tick_snd. apply maybeFlushMeta_keeps_marker, Hk.
  - destruct Hk as (Hfeed & (st & Hst & Hmark) & Hpre).
    assert (Hgc : markerKept feed d (snd (bgGC_tick (gcPreCkpt s) (mgr s)))).
    { rewrite bgGC_tick_eq. cbv zeta.
      destruct (_ =? _); [split; eauto|].
      set (pred := fun path => shouldRemoved _ path _).
      destruct (RemoveFilesIf_spec pred (mgr s) st Hst)
        as (st' & Hm & _ & Hkeep & _).
      assert (Hk' : markerKept feed d (withExtStorage (mgr s) (Some st'))).
      { split; [exact Hfeed|]. split; [|exact Hpre].
        exists st'. split; [reflexivity|].
        rewrite Hkeep; [exact Hmark|].
        unfold pred. rewrite Hfeed, shouldRemoved_marker. discriminate. }
      destruct (RemoveFilesIf pred (mgr s)) as [[[]|e|msg] m'];
        cbn [snd] in Hm |- *; rewrite Hm; exact Hk'. }
    destruct (bgGC_tick (gcPreCkpt s) (mgr s)) as [[pre|e|msg] m']; exact Hgc.
  - destruct Hk as (Hfeed & (st & Hst & Hmark) & Hpre).
    split; [exact Hfeed|]. split; [|exact Hpre].
    cbn. rewrite Hst. eexists. split; [reflexivity|exact Hmark].
Qed.

Lemma run_keeps_marker feed d evs : forall s,
  markerKept feed d (mgr s) -> markerKept feed d (mgr (run evs s)).
Proof.
  induction evs as [|ev evs IH]; intros s Hk; [exact Hk|].
  apply IH, step_keeps_marker, Hk.
Qed.

End MarkerKept.


(** The calls that a sweep adds are deletes of listed files. *)
Lemma DeleteFilesInExtStorage_calls l : forall m st st',
  extStorage m = Some st ->
  extStorage (snd (DeleteFilesInExtStorage l m)) = Some st' ->
  exists rest,
    calls st' = (calls st ++ rest)%list
    /\ Forall (fun op => exists p, p ∈ l /\ op = OpDeleteFile p) rest.
Proof.
  induction l as [|f l IH]; intros m st st' Hst Hst'.
  - simpl in Hst'. rewrite Hst in Hst'. injection Hst' as <-.
    exists []. rewrite app_nil_r. split; [reflexivity|constructor].
  - rewrite (DeleteFilesInExtStorage_cons f l m st Hst) in Hst'.
    assert (Hwiden : forall rest,
      Forall (fun op => exists p, p ∈ l /\ op = OpDeleteFile p) rest ->
      Forall (fun op => exists p, p ∈ f :: l /\ op = OpDeleteFile p)
        (OpDeleteFile f :: rest)).
    { intros rest Hrest. constructor; [exists f; split; [left|reflexivity]|].
      eapply Forall_impl; [exact Hrest|].
      intros op (p & Hp & ->). exists p. split; [right; exact Hp|reflexivity]. }
    destruct (faults st (OpDeleteFile f)) as [e|].
    + destruct (IsNotExistInExtStorage e).
      * destruct (IH (withExtStorage m (Some (called (OpDeleteFile f) st)))
                    (called (OpDeleteFile f) st) st' eq_refl Hst')
          as (rest & Hc & Hrest).
        exists (OpDeleteFile f :: rest). split; [|apply Hwiden, Hrest].
        rewrite Hc. cbn [calls called]. rewrite <- app_assoc. reflexivity.
      * cbn in Hst'. injection Hst' as <-.
        exists [OpDeleteFile f]. split; [reflexivity|apply Hwiden; constructor].
    + destruct (IH (withExtStorage m
                      (Some (setFiles (called (OpDeleteFile f) st)
                               (delete f (files st)))))
                  (setFiles (called (OpDeleteFile f) st) (delete f (files st)))
                  st' eq_refl Hst') as (rest & Hc & Hrest).
      exists (OpDeleteFile f :: rest). split; [|apply Hwiden, Hrest].
      rewrite Hc. cbn [calls called setFiles]. rewrite <- app_assoc. reflexivity.
Qed.

(** The calls of [RemoveFilesIf]: the walk, then deletes of files that the
    predicate accepted. *)
Lemma RemoveFilesIf_calls pred m st st' :
  extStorage m = Some st ->
  extStorage (snd (RemoveFilesIf pred m)) = Some st' ->
  exists rest,
    calls st' = (calls st ++ OpWalkDir :: rest)%list
    /\ Forall (fun op => exists p, pred p = Returned true /\ op = OpDeleteFile p) rest.
Proof.
  intros Hst Hst'. rewrite (RemoveFilesIf_eq pred m st Hst) in Hst'. cbv zeta in Hst'.
  destruct (faults st OpWalkDir) as [e|].
  { cbn in Hst'. injection Hst' as <-. exists []. split; [reflexivity|constructor]. }
  destruct (selectFiles pred (map_to_list (files st)).*1) as [l|e|msg] eqn:Hsel.
  - destruct (DeleteFilesInExtStorage_calls l
                (withExtStorage m (Some (called OpWalkDir st)))
                (called OpWalkDir st) st' eq_refl Hst')
      as (rest & Hc & Hrest).
    exists rest. split.
    + rewrite Hc. cbn [calls called]. rewrite <- app_assoc. reflexivity.
    + eapply Forall_impl; [exact Hrest|].
      intros op (p & Hp & ->). exists p. split; [|reflexivity].
      apply (selectFiles_elem _ _ _ Hsel) in Hp as [_ Hp]. exact Hp.
  - cbn in Hst'. injection Hst' as <-. exists []. split; [reflexivity|constructor].
  - cbn in Hst'. injection Hst' as <-. exists []. split; [reflexivity|constructor].
Qed.

Lemma deleteAllLogs_eq m st :
  extStorage m = Some st ->
  let deleteMarker := getDeletedChangefeedMarker (changeFeedID m) in
  let changefeedMatcher := getChangefeedMatcher (changeFeedID m) in
  let st0 := called (OpWriteFile deleteMarker) st in
  deleteAllLogs m
  = match faults st (OpWriteFile deleteMarker) with
    | Some e => (Errored (WrapError ErrExternalStorageAPI e),
                 withExtStorage m (Some st0))
    | None =>
        RemoveFilesIf
          (fun path => Returned (allLogsOfFeed deleteMarker changefeedMatcher path))
          (withExtStorage m
             (Some (setFiles st0 (<[deleteMarker := "D"]> (files st)))))
    end.
Proof.
  intros Hst. cbv zeta. unfold deleteAllLogs.
  unfold bind at 1, gets at 1. rewrite Hst.
  unfold bind at 1, gets at 1. unfold bind at 1, onStorage at 1, WriteFile.
  rewrite Hst. cbn [faults called files].
  destruct (faults st (OpWriteFile _)) as [e|]; reflexivity.
Qed.

Section CleanupClaim.
Context `{LogMetaCodec} `{LogFileNames}.

(** C10.  The marker is named [delete_<feed>] in the default namespace and
    [delete_<namespace>_<feed>] otherwise.  Whenever [Cleanup] returns nil
    on a manager with a storage, whatever calls the storage refused on the
    way, the marker is in the storage with content ["D"]; the first call
    that [Cleanup] made was the write of the marker, the second the walk,
    and no later call is a delete of the marker.  Afterwards no [UpdateMeta]
    call, flush tick or GC tick of this manager removes or rewrites the
    marker (the manager remembering no meta file, or one under a name that
    [getMetafileName] makes): among the manager's operations only
    [preCleanupExtStorage] deletes it. *)
Theorem Cleanup_leaves_marker (m : metaManager) (st : ExternalStorage) :
  extStorage m = Some st ->
  fst (Cleanup m) = Returned tt ->
  let feed := changeFeedID m in
  let deleteMarker := getDeletedChangefeedMarker feed in
  (Namespace feed = "default" -> deleteMarker = "delete_" ++ ID feed)
  /\ (Namespace feed <> "default" ->
      deleteMarker = "delete_" ++ Namespace feed ++ "_" ++ ID feed)
  /\ (exists st',
       snd (Cleanup m) = withExtStorage m (Some st')
       /\ files st' !! deleteMarker = Some "D"
       /\ exists rest,
            calls st' = (calls st ++ OpWriteFile deleteMarker :: OpWalkDir :: rest)%list
            /\ OpDeleteFile deleteMarker ∉ rest)
  /\ (preMetaFile m = ""
      \/ (exists uuid, preMetaFile m = metafileNameOf (captureID m) feed uuid) ->
      forall (evs : list event) (preCkpt : Ts),
      exists st'',
        extStorage (mgr (run evs {| mgr := snd (Cleanup m); gcPreCkpt := preCkpt |}))
        = Some st''
        /\ files st'' !! deleteMarker = Some "D").
Proof.
  intros Hst Hres feed deleteMarker.
  assert (Hafter : exists st',
       snd (Cleanup m) = withExtStorage m (Some st')
       /\ files st' !! deleteMarker = Some "D"
       /\ exists rest,
            calls st' = (calls st ++ OpWriteFile deleteMarker :: OpWalkDir :: rest)%list
            /\ OpDeleteFile deleteMarker ∉ rest).
  { unfold Cleanup in *. rewrite (deleteAllLogs_eq m st Hst) in *. cbv zeta in *.
    fold feed deleteMarker in Hres |- *.
    destruct (faults st (OpWriteFile deleteMarker)) as [e|]; [discriminate|].
    set (pred := fun path =>
           Returned (allLogsOfFeed deleteMarker (getChangefeedMatcher feed) path)) in *.
    set (st0 := setFiles (called (OpWriteFile deleteMarker) st)
                  (<[deleteMarker := "D"]> (files st))) in *.
    destruct (RemoveFilesIf_spec pred (withExtStorage m (Some st0)) st0 eq_refl)
      as (st' & Hm & _ & Hkeep & _).
    assert (Hmark : pred deleteMarker = Returned false).
    { unfold pred, allLogsOfFeed. rewrite String.eqb_refl. reflexivity. }
    exists st'. split; [exact Hm|]. split.
    + rewrite Hkeep by (rewrite Hmark; discriminate).
      unfold st0. cbn [files setFiles]. apply lookup_insert_eq.
    + destruct (RemoveFilesIf_calls pred (withExtStorage m (Some st0)) st0 st' eq_refl)
        as (rest & Hc & Hrest); [rewrite Hm; reflexivity|].
      exists rest. split.
      * rewrite Hc. unfold st0. cbn [calls setFiles called].
        rewrite <- app_assoc. reflexivity.
      * intros Hin. rewrite Forall_forall in Hrest.
        destruct (Hrest _ Hin) as (p & Hp & [= <-]). congruence. }
  split; [|split; [|split; [exact Hafter|]]].
  - intros Hns. unfold deleteMarker, getDeletedChangefeedMarker, DefaultNamespace.
    apply String.eqb_eq in Hns. rewrite Hns. reflexivity.
  - intros Hns. unfold deleteMarker, getDeletedChangefeedMarker, DefaultNamespace.
    apply String.eqb_neq in Hns. rewrite Hns. reflexivity.
  - intros Hpre evs preCkpt.
    destruct Hafter as (st' & Hm & Hmark & _).
    assert (Hk : markerKept feed "D" (snd (Cleanup m))).
    { rewrite Hm. split; [reflexivity|]. split; [eauto|].
      cbn [preMetaFile withExtStorage].
      destruct Hpre as [->|[uuid ->]];
        [apply empty_not_marker|apply metafileNameOf_not_marker]. }
    destruct (run_keeps_marker feed "D" evs
                {| mgr := snd (Cleanup m); gcPreCkpt := preCkpt |} Hk)
      as (_ & Hkept & _).
    exact Hkept.
Qed.

End CleanupClaim.

Lemma Cleanup_leaves_marker_witness :
  let fs := [("cap_feed_row_90_u1.log", "rows");
             ("cap_default_feed_meta_old.meta", "meta");
             ("cap_other_row_90_u1.log", "rows")] in
  let m := Fixtures.exampleManager fs in
  let st := Fixtures.storageOf fs in
  let evs := [EvUpdateMeta 10 20; EvFlushTick; EvGCTick; EvUpdateMeta 15 25;
              EvFlushTick; EvGCTick] in
  extStorage m = Some st
  /\ fst (Cleanup m) = Returned tt
  /\ (exists st',
       snd (Cleanup m) = withExtStorage m (Some st')
       /\ files st' !! "delete_feed" = Some "D")
  /\ exists st'',
       extStorage (mgr (@run Fixtures.exampleCodec Fixtures.exampleNames evs
                          {| mgr := snd (Cleanup m); gcPreCkpt := 0 |})) = Some st''
       /\ files st'' !! "delete_feed" = Some "D".
Proof.
  intros fs m st evs.
  assert (Hst : extStorage m = Some st) by reflexivity.
  assert (Hres : fst (Cleanup m) = Returned tt) by (vm_compute; reflexivity).
  split; [exact Hst|]. split; [exact Hres|].
  destruct (@Cleanup_leaves_marker Fixtures.exampleCodec Fixtures.exampleNames
              m st Hst Hres)
    as (_ & _ & (st' & Hm & Hmark & _) & Hlater).
  split; [exists st'; split; [exact Hm|exact Hmark]|].
  exact (Hlater (or_introl eq_refl) evs 0).
Defined.

(** ** Initialisation establishes what C1 and C2 start from *)

Lemma keepsTs_preCleanupExtStorage : keepsTs preCleanupExtStorage.
Proof.
  unfold preCleanupExtStorage.
  apply keepsTs_bind; [apply keepsTs_gets|intros feed].
  apply keepsTs_bind; [apply keepsTs_onStorage|intros [ex [e|]]];
    [apply keepsTs_raise|].
  destruct (negb ex); [apply keepsTs_ret|].
  apply keepsTs_bind; [apply keepsTs_RemoveFilesIf|intros _].
  apply keepsTs_bind; [apply keepsTs_onStorage|intros [e|]]; [|apply keepsTs_ret].
  destruct (negb _); [apply keepsTs_raise|apply keepsTs_ret].
Qed.

Section InitInvariants.
Context `{LogMetaCodec}.

Lemma keepsTs_initMeta_visit path acc : keepsTs (initMeta_visit path acc).
Proof.
  unfold initMeta_visit. destruct acc as [metas rm].
  destruct (negb (HasSuffix path MetaEXT)); [apply keepsTs_ret|].
  apply keepsTs_bind; [apply keepsTs_onStorage|intros [data err]].
  assert (Hdecode : keepsTs
            (if negb (String.length data =? 0)%nat
             then match UnmarshalMsg data with
                  | Returned meta => ret ((metas ++ [meta])%list, (rm ++ [path])%list)
                  | Errored e' => raise e'
                  | Panicked msg => panic msg
                  end
             else ret (metas, (rm ++ [path])%list))).
  { destruct (negb _); [|apply keepsTs_ret].
    destruct (UnmarshalMsg data); auto with frame. }
  destruct err as [e|]; [|exact Hdecode].
  destruct (negb (IsNotExistInExtStorage e)); [apply keepsTs_raise|exact Hdecode].
Qed.

Lemma keepsTs_initMeta_walk paths : forall acc, keepsTs (initMeta_walk paths acc).
Proof.
  induction paths as [|p paths IH]; intros acc; simpl; [apply keepsTs_ret|].
  apply keepsTs_bind; [apply keepsTs_initMeta_visit|exact IH].
Qed.

(** A manager that has published nothing yet and whose unflushed pair is
    ordered: the state between construction and the first flush. *)
Definition unpublished (m : metaManager) : Prop :=
  flushed (metaCheckpointTs m) = 0 /\ flushed (metaResolvedTs m) = 0
  /\ unflushed (metaCheckpointTs m) <= unflushed (metaResolvedTs m).

Lemma maybeFlushMeta_from_unpublished m :
  unpublished m ->
  flushedBelowUnflushed (snd (maybeFlushMeta m))
  /\ checkpointBelowResolved (snd (maybeFlushMeta m)).
Proof.
  intros (Hc & Hr & Hcr). unfold flushedBelowUnflushed, checkpointBelowResolved.
  destruct (maybeFlushMeta_ts m) as [E|(_ & _ & E)];
    unfold tsOf in E; apply pair_equal_spec in E as [Ec Er];
    rewrite ?Ec, ?Er; simpl; lia.
Qed.

(** The two invariants that C1 and C2 start from. *)
Definition tsInvariants (m : metaManager) : Prop :=
  flushedBelowUnflushed m /\ checkpointBelowResolved m.

Lemma tsInvariants_ext m1 m2 : tsOf m1 = tsOf m2 -> tsInvariants m2 -> tsInvariants m1.
Proof.
  unfold tsOf. intros E. apply pair_equal_spec in E as [Ec Er].
  unfold tsInvariants, flushedBelowUnflushed, checkpointBelowResolved.
  rewrite Ec, Er. auto.
Qed.

Lemma bind_snd_cases {A B} (c : M A) (k : A -> M B) m (P : metaManager -> Prop) :
  (forall a m1, c m = (Returned a, m1) -> P (snd (k a m1))) ->
  (forall e m1, c m = (Errored e, m1) -> P m1) ->
  (forall msg m1, c m = (Panicked msg, m1) -> P m1) ->
  P (snd (bind c k m)).
Proof.
  intros Hr He Hp. unfold bind.
  destruct (c m) as [[a|e|msg] m1]; simpl; eauto.
Qed.

(** Whatever the storage and the codec do, [initMeta] on a freshly built
    manager leaves [flushed <= unflushed] and [checkpointTs <= resolvedTs]
    on both pairs. *)
Lemma initMeta_establishes ctxErr startTs m :
  tsOf m = ({| flushed := 0; unflushed := 0 |}, {| flushed := 0; unflushed := 0 |}) ->
  tsInvariants (snd (initMeta ctxErr startTs m)).
Proof.
  intros Hm.
  assert (Hfresh : forall m1, tsOf m1 = tsOf m -> tsInvariants m1).
  { intros m1 E. rewrite Hm in E. unfold tsOf in E. apply pair_equal_spec in E as [Ec Er].
    unfold tsInvariants, flushedBelowUnflushed, checkpointBelowResolved.
    rewrite Ec, Er. simpl. lia. }
  unfold initMeta.
  destruct ctxErr as [e|]; [apply Hfresh; reflexivity|].
  assert (Hw : forall o m1,
            mapError (fun err => WrapError ErrRedoMetaInitialize
                                   (Annotate err "read meta file fail"))
              (let! (paths, werr) := onStorage WalkDir in
               match werr with
               | Some err => raise err
               | None => initMeta_walk paths
                           ([{| CheckpointTs := startTs; ResolvedTs := startTs |}], [])
               end) m = (o, m1) -> tsOf m1 = tsOf m).
  { intros o m1 E.
    match type of E with
    | ?c m = _ => assert (Hk : keepsTs c)
    end.
    { apply keepsTs_mapError, keepsTs_bind; [apply keepsTs_onStorage|].
      intros [paths [e|]]; [apply keepsTs_raise|apply keepsTs_initMeta_walk]. }
    specialize (Hk m). rewrite E in Hk. exact Hk. }
  apply bind_snd_cases.
  2: { intros e m1 E. apply Hfresh. exact (Hw _ _ E). }
  2: { intros msg m1 E. apply Hfresh. exact (Hw _ _ E). }
  intros [metas rm] m1 E. apply Hw in E.
  destruct (ParseMeta metas) as [c r] eqn:HP.
  assert (Hcr : c <= r).
  { unfold ParseMeta in HP. injection HP as <- <-. lia. }
  destruct ((c =? 0) || (r =? 0)); [apply Hfresh; exact E|].
  apply bind_snd_cases; try discriminate. intros [] m2 [= <-].
  apply bind_snd_cases; try discriminate. intros [] m3 [= <-].
  set (m3 := withCheckpointTs _ _).
  assert (Hm3 : unpublished m3).
  { rewrite Hm in E. unfold tsOf in E. apply pair_equal_spec in E as [Ec Er].
    unfold unpublished, m3. cbn. rewrite Ec, Er. cbn. lia. }
  pose proof (maybeFlushMeta_from_unpublished m3 Hm3) as Hinv.
  fold (tsInvariants (snd (maybeFlushMeta m3))) in Hinv.
  assert (Hflush : forall o m4,
            mapError (fun err => WrapError ErrRedoMetaInitialize
                                   (Annotate err "flush meta file fail"))
              maybeFlushMeta m3 = (o, m4) -> tsInvariants m4).
  { intros o m4 E4. unfold mapError in E4.
    destruct (maybeFlushMeta m3) as [[a|e|msg] m4']; injection E4 as <- <-; exact Hinv. }
  apply bind_snd_cases.
  2: { intros e m4 E4. exact (Hflush _ _ E4). }
  2: { intros msg m4 E4. exact (Hflush _ _ E4). }
  intros [] m4 E4.
  eapply tsInvariants_ext; [apply keepsTs_DeleteFilesInExtStorage|].
  exact (Hflush _ _ E4).
Qed.

(** The same for the whole initialisation of [NewMetaManagerWithInit]. *)
Lemma NewMetaManagerWithInit_establishes ctxErr startTs capture feed gen st :
  tsInvariants (snd (NewMetaManagerWithInit_init ctxErr startTs
                       (newMetaManager capture feed gen st))).
Proof.
  assert (Hfresh : forall st', tsInvariants (newMetaManager capture feed gen st')).
  { intros st'.
    unfold tsInvariants, flushedBelowUnflushed, checkpointBelowResolved.
    simpl. lia. }
  unfold NewMetaManagerWithInit_init.
  apply bind_snd_cases; try discriminate. intros ost m1 [= <- <-].
  cbn [extStorage newMetaManager].
  destruct st as [s|]; [|apply Hfresh].
  set (m := newMetaManager capture feed gen (Some s)).
  assert (Hpre : forall o m1, preCleanupExtStorage m = (o, m1) -> tsOf m1 = tsOf m).
  { intros o m1 E. pose proof (keepsTs_preCleanupExtStorage m) as Hk.
    rewrite E in Hk. exact Hk. }
  apply bind_snd_cases.
  2: { intros e m1 E. eapply tsInvariants_ext; [exact (Hpre _ _ E)|apply Hfresh]. }
  2: { intros msg m1 E. eapply tsInvariants_ext; [exact (Hpre _ _ E)|apply Hfresh]. }
  intros [] m1 E. apply initMeta_establishes.
  rewrite (Hpre _ _ E). reflexivity.
Qed.

End InitInvariants.

(* ===================================================================== *)
(** ** The capture's run loop                                             *)
(* ===================================================================== *)

Import Capture.

(** ** C8: which errors of the inner run restart the capture *)

(** The errors on which [Run] goes round again. *)
Definition restarts (err : option error) : Prop :=
  Equal ErrCaptureSuicide err = true
  \/ CauseOf err = Some ContextCanceled
  \/ CauseOf err = Some ContextDeadlineExceeded.

(** C8.  Take a pass of the loop of [Run] in which the caller's context is
    not done and the limiter lets the pass through, and let [err] be what
    the inner [run] returns.  If [err] is of class [ErrCaptureSuicide], or
    its cause is [context.Canceled] or [context.DeadlineExceeded], the loop
    goes on with the next pass (from the limiter state left by this one),
    having entered [run] once.  Otherwise [Run] ends at this pass and
    returns [err] (traced): nil when [err] is nil, and for a non-nil error
    an error with the same cause. *)
Theorem Run_restarts_or_returns (rl : Limiter) (it : iteration) (rest : list iteration) :
  ctxDone it = false ->
  waitErr it = None ->
  let err := runErr it in
  let started := fst (Wait (now it) rl) in
  let rl' := snd (Wait (now it) rl) in
  (restarts err ->
     Run_loop rl (it :: rest)
     = (fst (Run_loop rl' rest), started :: snd (Run_loop rl' rest)))
  /\ (~ restarts err ->
      Run_loop rl (it :: rest) = (Exited (Trace err), [started])
      /\ (err = None -> fst (Run_loop rl (it :: rest)) = Exited None)
      /\ (forall e, err = Some e ->
            exists e', fst (Run_loop rl (it :: rest)) = Exited (Some e')
                       /\ Cause e' = Cause e)).
Proof.
  intros Hctx Hwait err started rl'. subst started rl'.
  cbn [Run_loop]. rewrite Hctx, Hwait. fold err.
  destruct (Wait (now it) rl) as [started rl'] eqn:HW. cbn [fst snd].
  unfold restarts.
  destruct (Equal ErrCaptureSuicide err) eqn:Hs; cbn [orb].
  { split; [|intros Hn; destruct Hn; auto].
    intros _. destruct (Run_loop rl' rest); reflexivity. }
  destruct (decide (Some ContextCanceled = CauseOf err)) as [Hc|Hc].
  { rewrite bool_decide_eq_true_2 by exact Hc. cbn [orb].
    split; [|intros Hn; destruct Hn; auto].
    intros _. destruct (Run_loop rl' rest); reflexivity. }
  rewrite bool_decide_eq_false_2 by exact Hc. cbn [orb].
  destruct (decide (Some ContextDeadlineExceeded = CauseOf err)) as [Hd|Hd].
  { rewrite bool_decide_eq_true_2 by exact Hd.
    split; [|intros Hn; destruct Hn; auto].
    intros _. destruct (Run_loop rl' rest); reflexivity. }
  rewrite bool_decide_eq_false_2 by exact Hd.
  split; [intros [?|[?|?]]; congruence|].
  intros _. split; [reflexivity|]. split.
  - intros ->. reflexivity.
  - intros e ->. eexists. split; reflexivity.
Qed.

Lemma Run_restarts_or_returns_witness :
  let suicide :=
    {| ctxDone := false; now := 0%Q; waitErr := None;
       runErr := Some (Annotated "" (Normalized ErrCaptureSuicide)) |} in
  let fatal :=
    {| ctxDone := false; now := 1%Q; waitErr := None;
       runErr := Some (Wrapped ErrCaptureRegister (Opaque "etcd: put failed")) |} in
  ctxDone suicide = false /\ waitErr suicide = None
  /\ restarts (runErr suicide)
  /\ Run_loop Run_limiter [suicide; fatal]
     = (fst (Run_loop (snd (Wait 0%Q Run_limiter)) [fatal]),
        fst (Wait 0%Q Run_limiter) :: snd (Run_loop (snd (Wait 0%Q Run_limiter)) [fatal]))
  /\ fst (Run [suicide; fatal])
     = Exited (Some (Annotated ""
                       (Wrapped ErrCaptureRegister (Opaque "etcd: put failed")))).
Proof.
  intros suicide fatal.
  assert (Hctx : ctxDone suicide = false) by reflexivity.
  assert (Hwait : waitErr suicide = None) by reflexivity.
  assert (Hre : restarts (runErr suicide)) by (left; reflexivity).
  split; [exact Hctx|]. split; [exact Hwait|]. split; [exact Hre|].
  destruct (Run_restarts_or_returns Run_limiter suicide [fatal] Hctx Hwait)
    as [Hgo _].
  split; [exact (Hgo Hre)|].
  unfold Run. rewrite (Hgo Hre). reflexivity.
Defined.

(** ** C9: the rate of the run loop's limiter *)






(* ===================================================================== *)
(** * Further properties                                                  *)
(* ===================================================================== *)

(* ===================================================================== *)
(** * Further properties of the redo-meta manager                         *)
(* ===================================================================== *)

Section FlushAgain.
Context `{LogMetaCodec}.

(** What a run of [maybeFlushMeta] that returns nil leaves behind: either
    nothing had advanced and the manager is untouched, or the unflushed pair
    has been published. *)
Lemma maybeFlushMeta_returned m :
  fst (maybeFlushMeta m) = Returned tt ->
  (fst (prepareForFlushMeta m) = false /\ snd (maybeFlushMeta m) = m)
  \/ (fst (prepareForFlushMeta m) = true
      /\ tsOf (snd (maybeFlushMeta m))
         = (setFlushed (unflushed (metaCheckpointTs m)) (metaCheckpointTs m),
            setFlushed (unflushed (metaResolvedTs m)) (metaResolvedTs m))).
Proof.
  rewrite maybeFlushMeta_eq.
  destruct (fst (prepareForFlushMeta m)) eqn:Hchg; [|left; split; reflexivity].
  pose proof (keepsTs_flush (snd (prepareForFlushMeta m)) m) as Hfl.
  destruct (flush _ m) as [[[]|e|msg] m1]; cbn [fst snd] in *; try discriminate.
  intros _. right. split; [reflexivity|].
  rewrite postFlushMeta_eq. cbn [snd].
  unfold tsOf in *. apply pair_equal_spec in Hfl as [Hc Hr].
  cbn. unfold getUnflushed. rewrite Hc, Hr. reflexivity.
Qed.

(** X1.  A flush that has returned nil leaves nothing to flush: running
    [maybeFlushMeta] again at once returns nil and changes neither the
    manager nor its storage (no write, no delete, no uuid drawn). *)
Theorem maybeFlushMeta_again_is_noop (m : metaManager) :
  fst (maybeFlushMeta m) = Returned tt ->
  maybeFlushMeta (snd (maybeFlushMeta m)) = (Returned tt, snd (maybeFlushMeta m)).
Proof.
  intros Hres.
  destruct (maybeFlushMeta_returned m Hres) as [[Hno Hsame]|[_ Hts]].
  - rewrite Hsame. rewrite maybeFlushMeta_eq, Hno. reflexivity.
  - set (m' := snd (maybeFlushMeta m)) in *.
    rewrite (maybeFlushMeta_eq m').
    assert (Hno : fst (prepareForFlushMeta m') = false).
    { unfold tsOf in Hts. apply pair_equal_spec in Hts as [Hc Hr].
      unfold prepareForFlushMeta, getFlushed, getUnflushed. cbn [fst CheckpointTs ResolvedTs].
      rewrite Hc, Hr. cbn [setFlushed flushed unflushed].
      rewrite !N.ltb_irrefl. reflexivity. }
    rewrite Hno. reflexivity.
Qed.

End FlushAgain.

Lemma maybeFlushMeta_again_is_noop_witness :
  let m := flushPending [] noFaults in
  fst (@maybeFlushMeta Fixtures.exampleCodec m) = Returned tt
  /\ @maybeFlushMeta Fixtures.exampleCodec (snd (@maybeFlushMeta Fixtures.exampleCodec m))
     = (Returned tt, snd (@maybeFlushMeta Fixtures.exampleCodec m)).
Proof.
  intros m.
  assert (Hres : fst (@maybeFlushMeta Fixtures.exampleCodec m) = Returned tt)
    by (vm_compute; reflexivity).
  split; [exact Hres|].
  exact (@maybeFlushMeta_again_is_noop Fixtures.exampleCodec m Hres).
Defined.

(** ** One meta file per feed *)

(** The manager remembers no meta file or one whose name ends in [.meta],
    and the storage holds no file ending in [.meta] but that one. *)
Definition soleMetaFile (m : metaManager) : Prop :=
  (preMetaFile m = "" \/ HasSuffix (preMetaFile m) MetaEXT = true)
  /\ exists st, extStorage m = Some st
       /\ forall p, HasSuffix p MetaEXT = true ->
            (is_Some (files st !! p) <-> p = preMetaFile m).

Section SoleMetaFile.
Context `{LogMetaCodec}.

(** A flush on a healthy store that holds no meta file but the remembered
    one, with a name that is not in use: it returns nil, publishes the
    pair, and the store again holds exactly one meta file, the new one.
    Files that are not meta files are untouched. *)
Lemma maybeFlushMeta_healthy
    (m : metaManager) (st : ExternalStorage) (data : string) :
  extStorage m = Some st ->
  (forall op, faults st op = None) ->
  soleMetaFile m ->
  fst (prepareForFlushMeta m) = true ->
  MarshalMsg (snd (prepareForFlushMeta m)) = Returned data ->
  files st !! nextMetaFile m = None ->
  let m' := snd (maybeFlushMeta m) in
  fst (maybeFlushMeta m) = Returned tt
  /\ GetFlushedMeta m' = snd (prepareForFlushMeta m)
  /\ preMetaFile m' = nextMetaFile m
  /\ soleMetaFile m'
  /\ (captureID m', changeFeedID m', uuidGenerator m')
     = (captureID m, changeFeedID m, snd (NewString (uuidGenerator m)))
  /\ exists st', extStorage m' = Some st'
       /\ faults st' = faults st
       /\ files st' !! nextMetaFile m = Some data
       /\ forall p, HasSuffix p MetaEXT = false -> files st' !! p = files st !! p.
Proof.
  intros Hst Hnf (Hwf & st0 & Hst0 & Hsole) Hchg Hdata Hfresh.
  rewrite Hst in Hst0. injection Hst0 as <-.
  cbv zeta. rewrite maybeFlushMeta_eq, Hchg, (flush_eq _ m st Hst). cbv zeta.
  rewrite Hdata, !Hnf.
  assert (Hsuf : HasSuffix (nextMetaFile m) MetaEXT = true) by apply metafileNameOf_suffix.
  set (metaFile := nextMetaFile m) in *.
  assert (Hne : preMetaFile m <> metaFile).
  { intros E. destruct (String.eqb_spec (preMetaFile m) "") as [He|He].
    - rewrite He in E. rewrite <- E in Hsuf. discriminate.
    - assert (Hin : is_Some (files st !! metaFile)) by (apply Hsole; auto).
      rewrite Hfresh in Hin. destruct Hin; discriminate. }
  destruct (String.eqb_spec (preMetaFile m) "") as [Hempty|Hpre].
  - rewrite postFlushMeta_eq. cbn [fst snd].
    split; [reflexivity|]. split; [reflexivity|]. split; [reflexivity|].
    assert (Hnone : forall p, HasSuffix p MetaEXT = true -> files st !! p = None).
    { intros p Hp. destruct (files st !! p) eqn:Hd; [|reflexivity].
      assert (Hin : p = preMetaFile m) by (apply Hsole; eauto).
      rewrite Hempty in Hin. subst p. discriminate. }
    split.
    + split; [right; exact Hsuf|].
      eexists. split; [reflexivity|]. intros p Hp.
      cbn [files setFiles called preMetaFile withCheckpointTs withResolvedTs
           withPreMetaFile afterCalls withExtStorage withUuidGenerator].
      destruct (decide (p = metaFile)) as [->|Hp'].
      * rewrite lookup_insert_eq. split; eauto.
      * rewrite lookup_insert_ne by congruence. rewrite (Hnone p Hp).
        split; [intros [? ?]; discriminate|congruence].
    + split; [reflexivity|].
      eexists. split; [reflexivity|]. split; [reflexivity|].
      cbn [files setFiles called].
      split; [apply lookup_insert_eq|].
      intros p Hp. apply lookup_insert_ne. congruence.
  - destruct (String.eqb_spec (preMetaFile m) metaFile) as [E|_]; [contradiction|].
    rewrite postFlushMeta_eq. cbn [fst snd].
    split; [reflexivity|]. split; [reflexivity|]. split; [reflexivity|].
    split.
    + split; [right; exact Hsuf|].
      eexists. split; [reflexivity|]. intros p Hp.
      cbn [files setFiles called preMetaFile withCheckpointTs withResolvedTs
           withPreMetaFile afterCalls withExtStorage withUuidGenerator].
      destruct (decide (p = metaFile)) as [->|Hp'].
      * rewrite lookup_delete_ne by exact Hne. rewrite lookup_insert_eq. split; eauto.
      * destruct (decide (p = preMetaFile m)) as [->|Hp''].
        -- rewrite lookup_delete_eq. split; [intros [? ?]; discriminate|congruence].
        -- rewrite lookup_delete_ne by congruence.
           rewrite lookup_insert_ne by congruence.
           split; [|congruence]. intros Hin. apply Hsole in Hin; [contradiction|exact Hp].
    + split; [reflexivity|].
      eexists. split; [reflexivity|]. split; [reflexivity|].
      cbn [files setFiles called].
      split; [rewrite lookup_delete_ne by exact Hne; apply lookup_insert_eq|].
      intros p Hp.
      assert (p <> preMetaFile m).
      { intros ->. destruct Hwf as [Hw|Hw]; congruence. }
      rewrite lookup_delete_ne by congruence. apply lookup_insert_ne. congruence.
Qed.

End SoleMetaFile.

(** ** After a successful initialisation *)

Lemma bind_returned {A B} (c : M A) (k : A -> M B) m b m2 :
  bind c k m = (Returned b, m2) ->
  exists a m1, c m = (Returned a, m1) /\ k a m1 = (Returned b, m2).
Proof.
  unfold bind. destruct (c m) as [[a|e|msg] m1]; try discriminate. eauto.
Qed.

Lemma mapError_returned {A} f (c : M A) m a m1 :
  mapError f c m = (Returned a, m1) -> c m = (Returned a, m1).
Proof.
  unfold mapError. destruct (c m) as [[a'|e|msg] m']; try discriminate. auto.
Qed.

Section InitNonZero.
Context `{LogMetaCodec}.

(** When [initMeta] returns nil on a freshly built manager, it has
    published exactly the pair it holds unflushed, and neither timestamp
    is zero. *)
Lemma initMeta_returned_ts ctxErr startTs m m' :
  tsOf m = ({| flushed := 0; unflushed := 0 |}, {| flushed := 0; unflushed := 0 |}) ->
  initMeta ctxErr startTs m = (Returned tt, m') ->
  flushed (metaCheckpointTs m') = unflushed (metaCheckpointTs m')
  /\ flushed (metaResolvedTs m') = unflushed (metaResolvedTs m')
  /\ flushed (metaCheckpointTs m') <> 0
  /\ flushed (metaResolvedTs m') <> 0.
Proof.
  intros Hm Hinit. unfold initMeta in Hinit.
  destruct ctxErr as [e|]; [discriminate|].
  apply bind_returned in Hinit as ([metas rm] & m1 & Hwalk & Hrest).
  assert (Hm1 : tsOf m1 = tsOf m).
  { match type of Hwalk with ?c m = _ => assert (Hk : keepsTs c) end.
    { apply keepsTs_mapError, keepsTs_bind; [apply keepsTs_onStorage|].
      intros [paths [e|]]; [apply keepsTs_raise|apply keepsTs_initMeta_walk]. }
    specialize (Hk m). rewrite Hwalk in Hk. exact Hk. }
  destruct (ParseMeta metas) as [c r].
  destruct (N.eqb_spec c 0) as [Hc|Hc]; [discriminate|].
  destruct (N.eqb_spec r 0) as [Hr|Hr]; [discriminate|].
  cbn [orb] in Hrest.
  apply bind_returned in Hrest as ([] & m2 & [= <-] & Hrest).
  apply bind_returned in Hrest as ([] & m3 & [= <-] & Hrest).
  apply bind_returned in Hrest as ([] & m4 & Hflush & Hdel).
  apply mapError_returned in Hflush.
  set (m3 := withCheckpointTs _ _) in *.
  assert (Hts3 : tsOf m3 = ({| flushed := 0; unflushed := c |},
                            {| flushed := 0; unflushed := r |})).
  { rewrite Hm in Hm1. unfold tsOf in Hm1. apply pair_equal_spec in Hm1 as [E1 E2].
    unfold tsOf, m3. cbn. rewrite E1, E2. reflexivity. }
  assert (Hts4 : tsOf m4 = ({| flushed := c; unflushed := c |},
                            {| flushed := r; unflushed := r |})).
  { assert (Hres : fst (maybeFlushMeta m3) = Returned tt) by (rewrite Hflush; reflexivity).
    unfold tsOf in Hts3. apply pair_equal_spec in Hts3 as [E1 E2].
    destruct (maybeFlushMeta_returned m3 Hres) as [[Hno _]|[_ Hts]].
    - exfalso. unfold prepareForFlushMeta, getFlushed, getUnflushed in Hno.
      cbn [fst CheckpointTs ResolvedTs] in Hno. rewrite E1, E2 in Hno.
      cbn [flushed unflushed] in Hno.
      assert (E : (0 <? c) = true) by (apply N.ltb_lt; lia).
      rewrite E in Hno. discriminate.
    - rewrite Hflush in Hts. cbn [snd] in Hts. rewrite Hts, E1, E2. reflexivity. }
  assert (Hts' : tsOf m' = tsOf m4).
  { pose proof (keepsTs_DeleteFilesInExtStorage rm m4) as Hk.
    rewrite Hdel in Hk. exact Hk. }
  rewrite Hts4 in Hts'. unfold tsOf in Hts'. apply pair_equal_spec in Hts' as [E1 E2].
  rewrite E1, E2. cbn. auto.
Qed.

End InitNonZero.

Section NonZeroForever.
Context `{LogMetaCodec} `{LogFileNames}.

(** X2.  Once the initialisation of [NewMetaManagerWithInit] has returned
    nil on a manager with a storage, neither flushed timestamp is zero, and
    none becomes zero again: after any sequence of [UpdateMeta] calls,
    flush ticks, GC ticks and storage faults, [GetFlushedMeta] is at least
    the initial pair, and the flushed values stay at or below the unflushed
    ones. *)
Theorem flushed_nonzero_after_init
    (ctxErr : option error) (startTs : Ts) (capture : string) (feed : ChangeFeedID)
    (gen : Generator) (st : ExternalStorage) (evs : list event) (preCkpt : Ts) :
  let m0 := newMetaManager capture feed gen (Some st) in
  fst (NewMetaManagerWithInit_init ctxErr startTs m0) = Returned tt ->
  let m := snd (NewMetaManagerWithInit_init ctxErr startTs m0) in
  let m' := mgr (run evs {| mgr := m; gcPreCkpt := preCkpt |}) in
  CheckpointTs (GetFlushedMeta m) <> 0
  /\ ResolvedTs (GetFlushedMeta m) <> 0
  /\ CheckpointTs (GetFlushedMeta m) <= CheckpointTs (GetFlushedMeta m')
  /\ ResolvedTs (GetFlushedMeta m) <= ResolvedTs (GetFlushedMeta m')
  /\ flushedBelowUnflushed m'.
Proof.
  intros m0 Hres m m'.
  assert (Hinit : exists m1,
            tsOf m1 = ({| flushed := 0; unflushed := 0 |},
                       {| flushed := 0; unflushed := 0 |})
            /\ initMeta ctxErr startTs m1 = (Returned tt, m)).
  { subst m.
    destruct (NewMetaManagerWithInit_init ctxErr startTs m0) as [o mfin] eqn:E.
    cbn [fst snd] in *. rewrite Hres in E. clear Hres.
    unfold NewMetaManagerWithInit_init in E.
    apply bind_returned in E as (ost & ma & Hget & E).
    unfold gets in Hget. apply pair_equal_spec in Hget as [Hget1 Hget2].
    injection Hget1 as <-. subst ma.
    cbn [extStorage m0 newMetaManager] in E.
    apply bind_returned in E as ([] & m1 & Hpre & Hin).
    exists m1. split; [|exact Hin].
    pose proof (keepsTs_preCleanupExtStorage m0) as Hk. rewrite Hpre in Hk.
    exact Hk. }
  destruct Hinit as (m1 & Hm1 & Hinit).
  destruct (initMeta_returned_ts ctxErr startTs m1 m Hm1 Hinit) as (Ec & Er & Hc & Hr).
  assert (Hinv : flushedBelowUnflushed (mgr {| mgr := m; gcPreCkpt := preCkpt |})).
  { split; cbn [mgr]; [rewrite Ec|rewrite Er]; lia. }
  destruct (run_flushed evs _ Hinv) as (Hinv' & Hmc & Hmr).
  unfold GetFlushedMeta, getFlushed. cbn [CheckpointTs ResolvedTs].
  repeat split; try assumption; apply Hinv'.
Qed.

End NonZeroForever.

Lemma flushed_nonzero_after_init_witness :
  let m0 := newMetaManager "cap" Fixtures.exampleFeed Fixtures.exampleGenerator
              (Some (Fixtures.storageOf recoveryFiles)) in
  let evs := [EvUpdateMeta 15 25; EvFlushTick; EvGCTick; EvUpdateMeta 5 30] in
  fst (@NewMetaManagerWithInit_init Fixtures.exampleCodec None 5 m0) = Returned tt
  /\ CheckpointTs (GetFlushedMeta
       (snd (@NewMetaManagerWithInit_init Fixtures.exampleCodec None 5 m0))) <> 0
  /\ flushedBelowUnflushed
       (mgr (@run Fixtures.exampleCodec Fixtures.exampleNames evs
               {| mgr := snd (@NewMetaManagerWithInit_init Fixtures.exampleCodec None 5 m0);
                  gcPreCkpt := 0 |})).
Proof.
  intros m0 evs.
  assert (Hres : fst (@NewMetaManagerWithInit_init Fixtures.exampleCodec None 5 m0)
                 = Returned tt) by (vm_compute; reflexivity).
  split; [exact Hres|].
  destruct (@flushed_nonzero_after_init Fixtures.exampleCodec Fixtures.exampleNames
              None 5 "cap" Fixtures.exampleFeed Fixtures.exampleGenerator
              (Fixtures.storageOf recoveryFiles) evs 0 Hres)
    as (Hc & _ & _ & _ & Hinv).
  split; [exact Hc|exact Hinv].
Defined.

(** ** The published pair is always on the store *)

Lemma HasSuffix_inv s suffix :
  HasSuffix s suffix = true -> exists a, s = a ++ suffix.
Proof.
  induction s as [|c s IH]; cbn [HasSuffix].
  - destruct (String.eqb_spec "" suffix) as [<-|]; [|discriminate].
    exists "". reflexivity.
  - destruct (String.eqb_spec (String c s) suffix) as [<-|].
    + exists "". reflexivity.
    + intros Hs. destruct (IH Hs) as [a ->]. exists (String c a).
      rewrite append_cons. reflexivity.
Qed.

Lemma scanExt_meta a : scanExt (a ++ MetaEXT) = ExtFound MetaEXT.
Proof.
  induction a as [|c a IH].
  - rewrite append_nil. reflexivity.
  - rewrite append_cons. cbn [scanExt]. rewrite IH. reflexivity.
Qed.

(** A name ending in [.meta] has the extension [.meta]. *)
Lemma Ext_meta p : HasSuffix p MetaEXT = true -> Ext p = MetaEXT.
Proof.
  intros Hs. destruct (HasSuffix_inv _ _ Hs) as [a ->].
  unfold Ext. rewrite scanExt_meta. reflexivity.
Qed.

Section FlushedIsStored.
Context `{LogMetaCodec} `{LogFileNames}.

(** The pair that [GetFlushedMeta] reports is the content of the meta file
    the manager remembers, and that file is on the store. *)
Definition flushedIsStored (m : metaManager) : Prop :=
  HasSuffix (preMetaFile m) MetaEXT = true
  /\ exists st data,
       extStorage m = Some st
       /\ files st !! preMetaFile m = Some data
       /\ MarshalMsg (GetFlushedMeta m) = Returned data.

Lemma shouldRemoved_meta feed p C :
  HasSuffix p MetaEXT = true -> shouldRemoved feed p C <> Returned true.
Proof.
  intros Hs Hr. apply shouldRemoved_true_iff in Hr as (_ & Hext & _).
  rewrite (Ext_meta p Hs) in Hext. discriminate.
Qed.

Lemma GetFlushedMeta_postFlushMeta meta m :
  GetFlushedMeta (snd (postFlushMeta meta m)) = meta.
Proof. rewrite postFlushMeta_eq. destruct meta. reflexivity. Qed.

Lemma maybeFlushMeta_keeps_stored m :
  flushedIsStored m -> flushedIsStored (snd (maybeFlushMeta m)).
Proof.
  intros Hinv. pose proof Hinv as (Hsuf & st & d & Hst & Hfile & Hdata).
  rewrite maybeFlushMeta_eq.
  destruct (fst (prepareForFlushMeta m)); [|exact Hinv].
  set (meta := snd (prepareForFlushMeta m)).
  rewrite (flush_eq meta m st Hst). cbv zeta.
  set (metaFile := nextMetaFile m) in *.
  assert (Hnew : HasSuffix metaFile MetaEXT = true)
    by apply metafileNameOf_suffix.
  destruct (MarshalMsg meta) as [data|e|msg] eqn:Hmar; [|exact Hinv|exact Hinv].
  assert (Hkeep : forall m' st',
            preMetaFile m' = preMetaFile m ->
            GetFlushedMeta m' = GetFlushedMeta m ->
            extStorage m' = Some st' ->
            files st' !! preMetaFile m = Some d ->
            flushedIsStored m').
  { intros m' st' Hp Hg Hs Hf. split; [rewrite Hp; exact Hsuf|].
    exists st', d. rewrite Hp, Hg. auto. }
  assert (Hpub : forall m' st',
            preMetaFile m' = metaFile ->
            extStorage m' = Some st' ->
            files st' !! metaFile = Some data ->
            flushedIsStored (snd (postFlushMeta meta m'))).
  { intros m' st' Hp Hs Hf. split.
    - rewrite postFlushMeta_eq. cbn. rewrite Hp. exact Hnew.
    - exists st', data. rewrite GetFlushedMeta_postFlushMeta.
      rewrite postFlushMeta_eq. cbn. rewrite Hp. auto. }
  destruct (faults st (OpWriteFile metaFile)) as [e|].
  { eapply Hkeep; [reflexivity|reflexivity|reflexivity|exact Hfile]. }
  destruct (String.eqb_spec (preMetaFile m) "") as [Hempty|Hne].
  { eapply Hpub; [reflexivity|reflexivity|]. cbn. apply lookup_insert_eq. }
  destruct (String.eqb_spec (preMetaFile m) metaFile) as [Heq|Hdiff].
  { eapply Hpub; [exact Heq|reflexivity|]. cbn. apply lookup_insert_eq. }
  destruct (faults st (OpDeleteFile (preMetaFile m))) as [e|].
  - destruct (IsNotExistInExtStorage e).
    + eapply Hpub; [reflexivity|reflexivity|]. cbn. apply lookup_insert_eq.
    + eapply Hkeep; [reflexivity|reflexivity|reflexivity|].
      cbn. rewrite lookup_insert_ne by congruence. exact Hfile.
  - eapply Hpub; [reflexivity|reflexivity|]. cbn.
    rewrite lookup_delete_ne by congruence. apply lookup_insert_eq.
Qed.

Lemma step_keeps_stored ev s :
  flushedIsStored (mgr s) -> flushedIsStored (mgr (step ev s)).
Proof.
  intros Hinv. destruct ev as [c r| | |f]; cbn [step mgr].
  - destruct (UpdateMeta_frame c r (mgr s)) as (_ & Hst & Hpre).
    assert (Hg : GetFlushedMeta (snd (UpdateMeta c r (mgr s))) = GetFlushedMeta (mgr s)).
    { pose proof (UpdateMeta_ts c r (mgr s)) as Hts. unfold tsOf in Hts.
      apply pair_equal_spec in Hts as [Ec Er].
      unfold GetFlushedMeta, getFlushed. rewrite Ec, Er. reflexivity. }
    unfold flushedIsStored in *. rewrite Hst, Hpre, Hg. exact Hinv.
  - rewrite bgFlushMeta_tick_snd. apply maybeFlushMeta_keeps_stored, Hinv.
  - destruct Hinv as (Hsuf & st & d & Hst & Hfile & Hdata).
    assert (Hgc : flushedIsStored (snd (bgGC_tick (gcPreCkpt s) (mgr s)))).
    { rewrite bgGC_tick_eq. cbv zeta.
      destruct (_ =? _); [split; eauto|].
      set (pred := fun path => shouldRemoved _ path _).
      destruct (RemoveFilesIf_spec pred (mgr s) st Hst)
        as (st' & Hm & _ & Hkeep & _).
      assert (Hk' : flushedIsStored (withExtStorage (mgr s) (Some st'))).
      { split; [exact Hsuf|]. exists st', d.
        split; [reflexivity|]. split; [|exact Hdata].
        cbn. rewrite Hkeep; [exact Hfile|].
        unfold pred. apply shouldRemoved_meta, Hsuf. }
      destruct (RemoveFilesIf pred (mgr s)) as [[[]|e|msg] m'];
        cbn [snd] in Hm |- *; rewrite Hm; exact Hk'. }
    destruct (bgGC_tick (gcPreCkpt s) (mgr s)) as [[pre|e|msg] m']; exact Hgc.
  - destruct Hinv as (Hsuf & st & d & Hst & Hfile & Hdata).
    split; [exact Hsuf|]. cbn. rewrite Hst.
    eexists _, d. split; [reflexivity|]. split; [exact Hfile|exact Hdata].
Qed.

(** X3.  What [GetFlushedMeta] reports is never ahead of the store: if the
    remembered meta file holds the marshalled flushed pair, it still does
    after any sequence of [UpdateMeta] calls, flush ticks and GC ticks,
    whichever storage calls fail in between.  A flush publishes a pair
    only after its file is written, deletes only the previous meta file,
    and the GC never removes a [.meta] file. *)
Theorem run_keeps_flushed_meta_stored (evs : list event) (s : system) :
  flushedIsStored (mgr s) ->
  let m' := mgr (run evs s) in
  HasSuffix (preMetaFile m') MetaEXT = true
  /\ exists st' data,
       extStorage m' = Some st'
       /\ files st' !! preMetaFile m' = Some data
       /\ MarshalMsg (GetFlushedMeta m') = Returned data.
Proof.
  revert s. induction evs as [|ev evs IH]; intros s Hinv; [exact Hinv|].
  apply IH, step_keeps_stored, Hinv.
Qed.

End FlushedIsStored.

(** The manager at (10, 20) with its meta file on a store whose deletes
    and walks fail. *)
Definition storedManager : metaManager :=
  withPreMetaFile
    (Fixtures.managerAt 10 20
       [("cap_default_feed_meta_old.meta",
         Fixtures.encodeMeta {| CheckpointTs := 10; ResolvedTs := 20 |});
        ("cap_feed_row_5_u1.log", "rows")])
    "cap_default_feed_meta_old.meta".

Definition deletesFail : StorageOp -> option error :=
  fun op => match op with
            | OpDeleteFile _ => Some (Opaque "throttled")
            | _ => None
            end.

Lemma run_keeps_flushed_meta_stored_witness :
  let evs := [EvUpdateMeta 15 25; EvFaults deletesFail; EvFlushTick;
              EvGCTick; EvFaults noFaults; EvUpdateMeta 30 40; EvFlushTick;
              EvGCTick] in
  let m' := mgr (@run Fixtures.exampleCodec Fixtures.exampleNames evs
                   (Fixtures.systemOf storedManager)) in
  @flushedIsStored Fixtures.exampleCodec storedManager
  /\ GetFlushedMeta m' = {| CheckpointTs := 30; ResolvedTs := 40 |}
  /\ exists st' data,
       extStorage m' = Some st'
       /\ files st' !! preMetaFile m' = Some data
       /\ @MarshalMsg Fixtures.exampleCodec (GetFlushedMeta m') = Returned data.
Proof.
  intros evs m'.
  assert (Hinv : @flushedIsStored Fixtures.exampleCodec storedManager).
  { split; [vm_compute; reflexivity|].
    eexists _, _. split; [reflexivity|]. split; vm_compute; reflexivity. }
  split; [exact Hinv|]. split; [vm_compute; reflexivity|].
  exact (proj2 (@run_keeps_flushed_meta_stored Fixtures.exampleCodec
                  Fixtures.exampleNames evs (Fixtures.systemOf storedManager) Hinv)).
Defined.

(** ** Removing a changefeed *)

Lemma prefix_app (sub post : string) : String.prefix sub (sub ++ post) = true.
Proof.
  induction sub as [|c sub IH]; [destruct post; reflexivity|].
  rewrite append_cons. cbn [String.prefix].
  destruct (ascii_dec c c) as [_|Hc]; [exact IH|congruence].
Qed.

Lemma Contains_intro (pre sub post : string) :
  Contains (pre ++ sub ++ post) sub = true.
Proof.
  induction pre as [|c pre IH].
  - rewrite append_nil.
    assert (Hp : HasPrefix (sub ++ post) sub = true) by apply prefix_app.
    destruct (sub ++ post); cbn [Contains]; rewrite Hp; reflexivity.
  - rewrite append_cons. cbn [Contains]. rewrite IH.
    destruct (HasPrefix _ _); reflexivity.
Qed.

(** Every meta file name of a feed, whichever capture wrote it, contains
    the feed's matcher. *)
Lemma metafileNameOf_matched cid feed uuid :
  Contains (metafileNameOf cid feed uuid) (getChangefeedMatcher feed) = true.
Proof.
  unfold metafileNameOf, getChangefeedMatcher.
  destruct (String.eqb (Namespace feed) "default").
  - replace (cid ++ "_" ++ Namespace feed ++ "_" ++ ID feed ++ "_"
               ++ RedoMetaFileType ++ "_" ++ uuid ++ MetaEXT)
      with ((cid ++ "_" ++ Namespace feed) ++ ("_" ++ ID feed ++ "_")
              ++ (RedoMetaFileType ++ "_" ++ uuid ++ MetaEXT)).
    + apply Contains_intro.
    + rewrite !app_assoc_string. reflexivity.
  - replace (cid ++ "_" ++ Namespace feed ++ "_" ++ ID feed ++ "_"
               ++ RedoMetaFileType ++ "_" ++ uuid ++ MetaEXT)
      with (cid ++ ("_" ++ Namespace feed ++ "_" ++ ID feed ++ "_")
              ++ (RedoMetaFileType ++ "_" ++ uuid ++ MetaEXT)).
    + apply Contains_intro.
    + rewrite !app_assoc_string. reflexivity.
Qed.

Lemma allLogsOfFeed_true marker matcher p :
  allLogsOfFeed marker matcher p = true
  <-> p <> marker /\ Contains p matcher = true.
Proof.
  unfold allLogsOfFeed.
  destruct (String.eqb_spec p marker) as [->|Hne]; cbn [orb].
  - split; [discriminate|intros [Hc _]; congruence].
  - destruct (Contains p matcher); cbn [negb]; split; auto; intros [_ ?];
      discriminate.
Qed.

(** The sweep shared by [deleteAllLogs] and [preCleanupExtStorage], on a
    store that lets every call through. *)
Lemma sweep_feed_spec (feed : ChangeFeedID) m st :
  extStorage m = Some st ->
  (forall op, faults st op = None) ->
  let deleteMarker := getDeletedChangefeedMarker feed in
  let changefeedMatcher := getChangefeedMatcher feed in
  let pred := fun path => Returned (allLogsOfFeed deleteMarker changefeedMatcher path) in
  exists st',
    RemoveFilesIf pred m = (Returned tt, withExtStorage m (Some st'))
    /\ faults st' = faults st
    /\ (forall p, Contains p changefeedMatcher = true -> files st' !! p = None)
    /\ (forall p, Contains p changefeedMatcher = false ->
          files st' !! p = files st !! p).
Proof.
  intros Hst Hnf deleteMarker changefeedMatcher pred.
  destruct (RemoveFilesIf_spec pred m st Hst)
    as (st' & Hm & Hfa & Hkeep & Hsub & Hok & _).
  destruct Hok as [Hres Hgone];
    [apply Hnf|intros p _; eexists; reflexivity|intros p _; apply Hnf|].
  exists st'. split; [|split; [exact Hfa|split]].
  - destruct (RemoveFilesIf pred m) as [o m']. cbn [fst snd] in *.
    rewrite Hres, Hm. reflexivity.
  - intros p Hp. destruct (decide (p = deleteMarker)) as [->|Hne].
    + unfold deleteMarker, changefeedMatcher in Hp.
      rewrite marker_not_matched in Hp. discriminate.
    + apply Hgone. unfold pred. f_equal. apply allLogsOfFeed_true. auto.
  - intros p Hp. apply Hkeep. unfold pred. intros [= Ht].
    apply allLogsOfFeed_true in Ht as [_ Ht]. congruence.
Qed.

(** X4.  On a store that lets every call through, [Cleanup] returns nil
    and leaves the marker with content [D]; every file whose name contains
    the feed's matcher is gone, among them every meta file of the feed,
    and every other file is as it was. *)
Theorem Cleanup_removes_feed_files (m : metaManager) (st : ExternalStorage) :
  extStorage m = Some st ->
  (forall op, faults st op = None) ->
  let feed := changeFeedID m in
  let deleteMarker := getDeletedChangefeedMarker feed in
  let changefeedMatcher := getChangefeedMatcher feed in
  exists st',
    Cleanup m = (Returned tt, withExtStorage m (Some st'))
    /\ files st' !! deleteMarker = Some "D"
    /\ (forall p, Contains p changefeedMatcher = true -> files st' !! p = None)
    /\ (forall cid uuid, files st' !! metafileNameOf cid feed uuid = None)
    /\ (forall p, Contains p changefeedMatcher = false -> p <> deleteMarker ->
          files st' !! p = files st !! p).
Proof.
  intros Hst Hnf feed deleteMarker changefeedMatcher.
  unfold Cleanup. rewrite (deleteAllLogs_eq m st Hst). cbv zeta.
  fold feed deleteMarker changefeedMatcher. rewrite Hnf.
  set (st1 := setFiles _ _).
  destruct (sweep_feed_spec feed (withExtStorage m (Some st1)) st1 eq_refl)
    as (st' & Heq & _ & Hgone & Hkeep); [intros op; apply Hnf|].
  fold deleteMarker changefeedMatcher in Heq, Hgone, Hkeep.
  exists st'. split; [rewrite Heq; reflexivity|].
  split; [|split; [exact Hgone|split]].
  - rewrite Hkeep by apply marker_not_matched.
    cbn. apply lookup_insert_eq.
  - intros cid uuid. apply Hgone, metafileNameOf_matched.
  - intros p Hp Hne. rewrite (Hkeep p Hp). cbn.
    apply lookup_insert_ne. congruence.
Qed.

Lemma Cleanup_removes_feed_files_witness :
  let fs := [("cap_feed_row_90_u1.log", "rows");
             ("cap_default_feed_meta_old.meta", "meta");
             ("cap_other_row_90_u1.log", "rows")] in
  let m := Fixtures.exampleManager fs in
  exists st',
    Cleanup m = (Returned tt, withExtStorage m (Some st'))
    /\ files st' !! "delete_feed" = Some "D"
    /\ files st' !! "cap_feed_row_90_u1.log" = None
    /\ files st' !! "cap_default_feed_meta_old.meta" = None
    /\ files st' !! "cap_other_row_90_u1.log" = Some "rows".
Proof.
  intros fs m.
  destruct (Cleanup_removes_feed_files m (Fixtures.storageOf fs) eq_refl
              (fun op => eq_refl))
    as (st' & Heq & Hmark & Hgone & _ & Hkeep).
  exists st'. split; [exact Heq|]. split; [exact Hmark|].
  split; [apply Hgone; vm_compute; reflexivity|].
  split; [apply Hgone; vm_compute; reflexivity|].
  rewrite Hkeep; [vm_compute; reflexivity|vm_compute; reflexivity|discriminate].
Defined.

(** X5.  A [Cleanup] that wrote its marker, whatever failed afterwards, is
    finished by the next [preCleanupExtStorage] on a store that lets every
    call through: it returns nil, no file of the feed and no marker is
    left, every other file is as it was before the [Cleanup], and one more
    [preCleanupExtStorage] finds nothing to do. *)
Theorem preCleanupExtStorage_finishes_Cleanup (m : metaManager) (st : ExternalStorage) :
  extStorage m = Some st ->
  let feed := changeFeedID m in
  let deleteMarker := getDeletedChangefeedMarker feed in
  let changefeedMatcher := getChangefeedMatcher feed in
  faults st (OpWriteFile deleteMarker) = None ->
  exists st1,
    snd (Cleanup m) = withExtStorage m (Some st1)
    /\ files st1 !! deleteMarker = Some "D"
    /\ let m2 := withExtStorage m (Some (setFaults st1 noFaults)) in
       exists st2,
         preCleanupExtStorage m2 = (Returned tt, withExtStorage m (Some st2))
         /\ (forall p, Contains p changefeedMatcher = true -> files st2 !! p = None)
         /\ files st2 !! deleteMarker = None
         /\ (forall p, Contains p changefeedMatcher = false -> p <> deleteMarker ->
               files st2 !! p = files st !! p)
         /\ exists st3,
              preCleanupExtStorage (withExtStorage m (Some st2))
              = (Returned tt, withExtStorage m (Some st3))
              /\ files st3 = files st2.
Proof.
  intros Hst feed deleteMarker changefeedMatcher Hwrite.
  set (pred := fun path => Returned (allLogsOfFeed deleteMarker changefeedMatcher path)).
  assert (Hnotpred : pred deleteMarker <> Returned true).
  { unfold pred. intros [= Ht]. apply allLogsOfFeed_true in Ht as [Ht _].
    congruence. }
  (* the interrupted cleanup *)
  unfold Cleanup. rewrite (deleteAllLogs_eq m st Hst). cbv zeta.
  fold feed deleteMarker changefeedMatcher pred. rewrite Hwrite.
  set (st0 := setFiles _ _).
  destruct (RemoveFilesIf_spec pred (withExtStorage m (Some st0)) st0 eq_refl)
    as (st1 & Hm1 & _ & Hkeep1 & Hsub1 & _).
  exists st1. split; [exact Hm1|].
  assert (Hmark1 : files st1 !! deleteMarker = Some "D").
  { rewrite (Hkeep1 _ Hnotpred). cbn. apply lookup_insert_eq. }
  split; [exact Hmark1|]. cbv zeta.
  (* the next start *)
  set (st1' := setFaults st1 noFaults).
  rewrite (preCleanupExtStorage_eq (withExtStorage m (Some st1')) st1' eq_refl).
  cbv zeta.
  cbn [changeFeedID withExtStorage faults st1' setFaults noFaults files].
  fold feed deleteMarker changefeedMatcher pred.
  rewrite bool_decide_eq_true_2 by (rewrite Hmark1; eauto).
  set (st1c := called (OpFileExists deleteMarker) _).
  destruct (sweep_feed_spec feed
              (withExtStorage (withExtStorage m (Some st1')) (Some st1c)) st1c eq_refl)
    as (st2 & Heq2 & Hfa2 & Hgone2 & Hkeep2); [intros op; reflexivity|].
  fold deleteMarker changefeedMatcher pred in Heq2, Hgone2, Hkeep2.
  rewrite Heq2.
  unfold onStorage, DeleteFile.
  cbn [extStorage withExtStorage faults called files].
  rewrite Hfa2. cbn [st1c faults called st1' setFaults noFaults].
  eexists. split; [reflexivity|]. cbn [files setFiles called].
  split; [|split; [apply lookup_delete_eq|split]].
  - intros p Hp. destruct (decide (p = deleteMarker)) as [->|Hne];
      [apply lookup_delete_eq|].
    rewrite lookup_delete_ne by congruence. apply Hgone2, Hp.
  - intros p Hp Hne. rewrite lookup_delete_ne by congruence.
    rewrite (Hkeep2 p Hp). cbn.
    rewrite Hkeep1.
    + cbn. apply lookup_insert_ne. congruence.
    + unfold pred. intros [= Ht]. apply allLogsOfFeed_true in Ht as [_ Ht].
      congruence.
  - set (st2' := setFiles _ _).
    rewrite (preCleanupExtStorage_eq (withExtStorage m (Some st2')) st2' eq_refl).
    cbv zeta.
    cbn [changeFeedID withExtStorage]. fold feed deleteMarker.
    assert (Hf : faults st2' (OpFileExists deleteMarker) = None).
    { unfold st2'. cbn. rewrite Hfa2. reflexivity. }
    rewrite Hf.
    rewrite bool_decide_eq_false_2.
    + eexists. split; [reflexivity|reflexivity].
    + unfold st2'. cbn. rewrite lookup_delete_eq. intros [? ?]; discriminate.
Qed.

(** A removal whose deletes all fail, then a restart on a healthy store. *)
Lemma preCleanupExtStorage_finishes_Cleanup_witness :
  let fs := [("cap_feed_row_90_u1.log", "rows");
             ("cap_default_feed_meta_old.meta", "meta");
             ("cap_other_row_90_u1.log", "rows")] in
  let st := setFaults (Fixtures.storageOf fs) deletesFail in
  let m := withExtStorage (Fixtures.exampleManager fs) (Some st) in
  (exists e, fst (Cleanup m) = Errored e)
  /\ exists st1,
       snd (Cleanup m) = withExtStorage m (Some st1)
       /\ files st1 !! "cap_feed_row_90_u1.log" = Some "rows"
       /\ exists st2,
            preCleanupExtStorage (withExtStorage m (Some (setFaults st1 noFaults)))
            = (Returned tt, withExtStorage m (Some st2))
            /\ files st2 !! "cap_feed_row_90_u1.log" = None
            /\ files st2 !! "delete_feed" = None
            /\ files st2 !! "cap_other_row_90_u1.log" = Some "rows".
Proof.
  intros fs st m.
  split; [eexists; vm_compute; reflexivity|].
  destruct (preCleanupExtStorage_finishes_Cleanup m st eq_refl eq_refl)
    as (st1 & Hm1 & _ & st2 & Heq2 & Hgone & Hmark & Hkeep & _).
  exists st1. split; [exact Hm1|].
  split.
  { assert (E : extStorage (snd (Cleanup m)) = Some st1) by (rewrite Hm1; reflexivity).
    vm_compute in E. injection E as <-. vm_compute. reflexivity. }
  exists st2. split; [exact Heq2|].
  split; [apply Hgone; vm_compute; reflexivity|].
  split; [exact Hmark|].
  rewrite Hkeep; [vm_compute; reflexivity|vm_compute; reflexivity|discriminate].
Defined.

(** ** What was handed to [UpdateMeta] is what the next flush publishes *)

(** The highest checkpoint and resolved timestamps among [c], [r] and the
    arguments of the [UpdateMeta] calls of a trace. *)
Fixpoint highestUpdate (evs : list event) (c r : Ts) : Ts * Ts :=
  match evs with
  | [] => (c, r)
  | EvUpdateMeta c' r' :: rest => highestUpdate rest (N.max c c') (N.max r r')
  | _ :: rest => highestUpdate rest c r
  end.

Section HighestUpdate.
Context `{LogMetaCodec} `{LogFileNames}.

Lemma maybeFlushMeta_unflushed m :
  unflushed (metaCheckpointTs (snd (maybeFlushMeta m))) = unflushed (metaCheckpointTs m)
  /\ unflushed (metaResolvedTs (snd (maybeFlushMeta m))) = unflushed (metaResolvedTs m).
Proof.
  destruct (maybeFlushMeta_ts m) as [Hts|(_ & _ & Hts)];
    unfold tsOf in Hts; apply pair_equal_spec in Hts as [Ec Er];
    rewrite Ec, Er; split; reflexivity.
Qed.

Lemma step_unflushed ev s :
  (unflushed (metaCheckpointTs (mgr (step ev s))),
   unflushed (metaResolvedTs (mgr (step ev s))))
  = highestUpdate [ev] (unflushed (metaCheckpointTs (mgr s)))
      (unflushed (metaResolvedTs (mgr s))).
Proof.
  destruct ev as [c r| | |f]; cbn [step mgr highestUpdate].
  - pose proof (UpdateMeta_ts c r (mgr s)) as Hts. unfold tsOf in Hts.
    apply pair_equal_spec in Hts as [Ec Er]. rewrite Ec, Er. reflexivity.
  - rewrite bgFlushMeta_tick_snd.
    destruct (maybeFlushMeta_unflushed (mgr s)) as [-> ->]. reflexivity.
  - assert (Hk : tsOf (snd (bgGC_tick (gcPreCkpt s) (mgr s))) = tsOf (mgr s)).
    { rewrite bgGC_tick_eq. cbv zeta. destruct (_ =? _); [reflexivity|].
      pose proof (keepsTs_RemoveFilesIf
                    (fun path => shouldRemoved (changeFeedID (mgr s)) path
                                   (getFlushed (metaCheckpointTs (mgr s)))) (mgr s)) as Hk.
      destruct (RemoveFilesIf _ (mgr s)) as [[[]|e|msg] m']; exact Hk. }
    assert (Hm : tsOf (mgr match bgGC_tick (gcPreCkpt s) (mgr s) with
                           | (Returned pre, m) => {| mgr := m; gcPreCkpt := pre |}
                           | (_, m) => {| mgr := m; gcPreCkpt := gcPreCkpt s |}
                           end) = tsOf (mgr s)).
    { destruct (bgGC_tick (gcPreCkpt s) (mgr s)) as [[pre|e|msg] m']; exact Hk. }
    unfold tsOf in Hm. apply pair_equal_spec in Hm as [Ec Er].
    rewrite Ec, Er. reflexivity.
  - reflexivity.
Qed.

Lemma run_unflushed evs : forall s,
  (unflushed (metaCheckpointTs (mgr (run evs s))),
   unflushed (metaResolvedTs (mgr (run evs s))))
  = highestUpdate evs (unflushed (metaCheckpointTs (mgr s)))
      (unflushed (metaResolvedTs (mgr s))).
Proof.
  induction evs as [|ev evs IH]; intros s; [reflexivity|].
  cbn [run]. rewrite IH.
  pose proof (step_unflushed ev s) as Hs.
  destruct ev; cbn [highestUpdate] in Hs |- *;
    apply pair_equal_spec in Hs as [-> ->]; reflexivity.
Qed.

(** X6.  Whatever happened before (calls of [UpdateMeta] in any order,
    ticks, failing storage calls), a [maybeFlushMeta] that returns nil
    leaves [GetFlushedMeta] at the highest checkpoint and the highest
    resolved timestamp handed to [UpdateMeta] so far (or held at the
    start): no update is lost and none is published half. *)
Theorem flush_publishes_highest_update (evs : list event) (s : system) :
  flushedBelowUnflushed (mgr s) ->
  let m := mgr (run evs s) in
  fst (maybeFlushMeta m) = Returned tt ->
  let top := highestUpdate evs (unflushed (metaCheckpointTs (mgr s)))
               (unflushed (metaResolvedTs (mgr s))) in
  GetFlushedMeta (snd (maybeFlushMeta m))
  = {| CheckpointTs := fst top; ResolvedTs := snd top |}.
Proof.
  intros Hinv m Hres top.
  destruct (run_flushed evs s Hinv) as ((Hc & Hr) & _).
  fold m in Hc, Hr.
  pose proof (run_unflushed evs s) as Hun. fold m top in Hun.
  apply (f_equal fst) in Hun as Hun1. apply (f_equal snd) in Hun as Hun2.
  cbn [fst snd] in Hun1, Hun2. rewrite <- Hun1, <- Hun2.
  unfold GetFlushedMeta, getFlushed.
  destruct (maybeFlushMeta_returned m Hres) as [[Hno Hsame]|[_ Hts]].
  - rewrite Hsame.
    unfold prepareForFlushMeta, getFlushed, getUnflushed in Hno.
    cbn [fst CheckpointTs ResolvedTs] in Hno.
    apply orb_false_iff in Hno as [Hc' Hr'].
    apply N.ltb_ge in Hc', Hr'. f_equal; lia.
  - unfold tsOf in Hts. apply pair_equal_spec in Hts as [Ec Er].
    rewrite Ec, Er. reflexivity.
Qed.

End HighestUpdate.

Lemma flush_publishes_highest_update_witness :
  let evs := [EvUpdateMeta 15 25; EvFaults deletesFail; EvFlushTick;
              EvUpdateMeta 12 40; EvGCTick; EvFaults noFaults] in
  let s := Fixtures.systemOf storedManager in
  let m := mgr (@run Fixtures.exampleCodec Fixtures.exampleNames evs s) in
  flushedBelowUnflushed (mgr s)
  /\ fst (@maybeFlushMeta Fixtures.exampleCodec m) = Returned tt
  /\ GetFlushedMeta (snd (@maybeFlushMeta Fixtures.exampleCodec m))
     = {| CheckpointTs := 15; ResolvedTs := 40 |}.
Proof.
  intros evs s m.
  assert (Hinv : flushedBelowUnflushed (mgr s)) by (split; vm_compute; discriminate).
  assert (Hres : fst (@maybeFlushMeta Fixtures.exampleCodec m) = Returned tt)
    by (vm_compute; reflexivity).
  split; [exact Hinv|]. split; [exact Hres|].
  exact (@flush_publishes_highest_update Fixtures.exampleCodec Fixtures.exampleNames
           evs s Hinv Hres).
Defined.

(** ** Initialisation under failing storage calls *)

Lemma withExtStorage_same m st :
  extStorage m = Some st -> withExtStorage m (Some st) = m.
Proof. destruct m; cbn; intros ->; reflexivity. Qed.

Lemma bind_unfold {A B} (c : M A) (k : A -> M B) m :
  bind c k m
  = match c m with
    | (Returned a, m') => k a m'
    | (Errored e, m') => (Errored e, m')
    | (Panicked msg, m') => (Panicked msg, m')
    end.
Proof. reflexivity. Qed.

Lemma bind_modify {B} f (k : unit -> M B) m : bind (modify f) k m = k tt (f m).
Proof. reflexivity. Qed.

Section InitStored.
Context `{LogMetaCodec}.

(** The callback of the walk only reads: whatever the read answers, the
    files stay, and the one name it may add to the files to remove is the
    [.meta] name it was called on. *)
Lemma initMeta_visit_frame path metas rm m st :
  extStorage m = Some st ->
  exists st',
    snd (initMeta_visit path (metas, rm) m) = withExtStorage m (Some st')
    /\ files st' = files st /\ faults st' = faults st
    /\ forall metas' rm',
         fst (initMeta_visit path (metas, rm) m) = Returned (metas', rm') ->
         forall p, p ∈ rm' -> p ∈ rm \/ (p = path /\ HasSuffix p MetaEXT = true).
Proof.
  intros Hst. unfold initMeta_visit.
  destruct (HasSuffix path MetaEXT) eqn:Hsuf; cbn [negb].
  - unfold bind, onStorage. rewrite Hst. unfold ReadFile.
    cbn [faults called files].
    exists (called (OpReadFile path) st).
    assert (Hadd : forall p, p ∈ (rm ++ [path])%list ->
                     p ∈ rm \/ (p = path /\ HasSuffix p MetaEXT = true)).
    { intros p Hp. apply elem_of_app in Hp as [Hp|Hp]; [auto|].
      apply list_elem_of_singleton in Hp as ->. auto. }
    assert (Hdec : forall data m1,
              let o := (if negb (String.length data =? 0)%nat then
                          match UnmarshalMsg data with
                          | Returned meta => ret ((metas ++ [meta])%list, (rm ++ [path])%list)
                          | Errored e' => raise e'
                          | Panicked msg => panic msg
                          end
                        else ret (metas, (rm ++ [path])%list)) m1 in
              snd o = m1
              /\ forall metas' rm', fst o = Returned (metas', rm') ->
                   forall p, p ∈ rm' -> p ∈ rm \/ (p = path /\ HasSuffix p MetaEXT = true)).
    { intros data m1. cbv zeta.
      destruct (negb _); [destruct (UnmarshalMsg data) as [meta|e|msg]|];
        (split; [reflexivity|]); unfold ret, raise, panic; cbn [fst];
        intros metas' rm' E; try discriminate; inversion E; subst; exact Hadd. }
    destruct (faults st (OpReadFile path)) as [e|].
    + destruct (IsNotExistInExtStorage e); cbn [negb].
      * destruct (Hdec "" (withExtStorage m (Some (called (OpReadFile path) st))))
          as [Hs Hr].
        split; [exact Hs|]. split; [reflexivity|]. split; [reflexivity|exact Hr].
      * split; [reflexivity|]. split; [reflexivity|]. split; [reflexivity|].
        intros ? ? E; discriminate.
    + destruct (files st !! path) as [data|].
      * destruct (Hdec data (withExtStorage m (Some (called (OpReadFile path) st))))
          as [Hs Hr].
        split; [exact Hs|]. split; [reflexivity|]. split; [reflexivity|exact Hr].
      * cbn [IsNotExistInExtStorage negb].
        destruct (Hdec "" (withExtStorage m (Some (called (OpReadFile path) st))))
          as [Hs Hr].
        split; [exact Hs|]. split; [reflexivity|]. split; [reflexivity|exact Hr].
  - exists st. cbn [ret fst snd].
    split; [symmetry; apply withExtStorage_same, Hst|].
    split; [reflexivity|]. split; [reflexivity|].
    intros metas' rm' [= <- <-] p Hp. auto.
Qed.

Lemma initMeta_walk_frame paths : forall metas rm m st,
  extStorage m = Some st ->
  exists st',
    snd (initMeta_walk paths (metas, rm) m) = withExtStorage m (Some st')
    /\ files st' = files st /\ faults st' = faults st
    /\ forall metas' rm',
         fst (initMeta_walk paths (metas, rm) m) = Returned (metas', rm') ->
         forall p, p ∈ rm' -> p ∈ rm \/ (p ∈ paths /\ HasSuffix p MetaEXT = true).
Proof.
  induction paths as [|path paths IH]; intros metas rm m st Hst.
  - exists st. cbn [initMeta_walk ret fst snd].
    split; [symmetry; apply withExtStorage_same, Hst|].
    split; [reflexivity|]. split; [reflexivity|].
    intros metas' rm' [= <- <-] p Hp. auto.
  - cbn [initMeta_walk]. unfold bind.
    destruct (initMeta_visit_frame path metas rm m st Hst)
      as (st1 & Hm1 & Hf1 & Hfa1 & Hr1).
    destruct (initMeta_visit path (metas, rm) m) as [[[metas1 rm1]|e|msg] m1];
      cbn [fst snd] in Hm1, Hr1; subst m1.
    + destruct (IH metas1 rm1 (withExtStorage m (Some st1)) st1 eq_refl)
        as (st2 & Hm2 & Hf2 & Hfa2 & Hr2).
      exists st2. split; [exact Hm2|].
      split; [congruence|]. split; [congruence|].
      intros metas' rm' E p Hp.
      destruct (Hr2 metas' rm' E p Hp) as [Hin|[Hin Hsuf]].
      * destruct (Hr1 metas1 rm1 eq_refl p Hin) as [?|[-> Hsuf]]; [auto|].
        right. split; [apply elem_of_cons; auto|exact Hsuf].
      * right. split; [apply elem_of_cons; auto|exact Hsuf].
    + exists st1. cbn [fst snd]. split; [reflexivity|].
      split; [exact Hf1|]. split; [exact Hfa1|]. intros ? ? E; discriminate.
    + exists st1. cbn [fst snd]. split; [reflexivity|].
      split; [exact Hf1|]. split; [exact Hfa1|]. intros ? ? E; discriminate.
Qed.

(** X7.  [initMeta] on a freshly built manager, whichever storage calls
    fail and whatever the stored meta files decode to: it never touches a
    file that is not a [.meta] file; and either it published nothing and
    left every file as it was (and did not return nil), or the new meta
    file is on the store and holds exactly the pair that [GetFlushedMeta]
    reports.  Old meta files are deleted only after the new one is
    written. *)
Theorem initMeta_writes_before_deleting
    (ctxErr : option error) (startTs : Ts) (capture : string) (feed : ChangeFeedID)
    (gen : Generator) (st : ExternalStorage) :
  let m := newMetaManager capture feed gen (Some st) in
  files st !! nextMetaFile m = None ->
  let res := fst (initMeta ctxErr startTs m) in
  let m' := snd (initMeta ctxErr startTs m) in
  exists st',
    extStorage m' = Some st'
    /\ (forall p, HasSuffix p MetaEXT = false -> files st' !! p = files st !! p)
    /\ ((res <> Returned tt
         /\ files st' = files st
         /\ GetFlushedMeta m' = {| CheckpointTs := 0; ResolvedTs := 0 |})
        \/ (preMetaFile m' = nextMetaFile m
            /\ exists data,
                 files st' !! nextMetaFile m = Some data
                 /\ MarshalMsg (GetFlushedMeta m') = Returned data)).
Proof.
  intros m Hfresh res m'. subst res m'.
  unfold initMeta. destruct ctxErr as [e|].
  { exists st. split; [reflexivity|]. split; [reflexivity|].
    left. split; [cbn [fst snd]; discriminate|]. split; reflexivity. }
  (* the walk *)
  assert (Hwalk : exists st1,
            let w := mapError (fun err => WrapError ErrRedoMetaInitialize
                                            (Annotate err "read meta file fail"))
                       (let! (paths, werr) := onStorage WalkDir in
                        match werr with
                        | Some err => raise err
                        | None => initMeta_walk paths
                                    ([{| CheckpointTs := startTs; ResolvedTs := startTs |}], [])
                        end) m in
            snd w = withExtStorage m (Some st1)
            /\ files st1 = files st /\ faults st1 = faults st
            /\ forall metas rm, fst w = Returned (metas, rm) ->
                 forall p, p ∈ rm -> is_Some (files st !! p) /\ HasSuffix p MetaEXT = true).
  { cbv zeta. unfold mapError, bind, onStorage.
    cbn [extStorage m newMetaManager]. unfold WalkDir. cbn [faults called files].
    destruct (faults st OpWalkDir) as [e|].
    - exists (called OpWalkDir st). cbn [raise fst snd].
      repeat (split; [reflexivity|]). intros ? ? E; discriminate.
    - destruct (initMeta_walk_frame (map_to_list (files st)).*1
                  [{| CheckpointTs := startTs; ResolvedTs := startTs |}] []
                  (withExtStorage m (Some (called OpWalkDir st)))
                  (called OpWalkDir st) eq_refl)
        as (st1 & Hm1 & Hf1 & Hfa1 & Hr1).
      exists st1.
      destruct (initMeta_walk _ _ _) as [[[metas rm]|e|msg] m1];
        cbn [fst snd] in Hm1, Hr1 |- *; subst m1.
      + split; [reflexivity|]. split; [exact Hf1|]. split; [exact Hfa1|].
        intros metas' rm' [= <- <-] p Hp.
        destruct (Hr1 metas rm eq_refl p Hp) as [Hin|[Hin Hsuf]].
        * apply elem_of_nil in Hin. destruct Hin.
        * split; [apply elem_of_listing, Hin|exact Hsuf].
      + split; [reflexivity|]. split; [exact Hf1|]. split; [exact Hfa1|].
        intros ? ? E; discriminate.
      + split; [reflexivity|]. split; [exact Hf1|]. split; [exact Hfa1|].
        intros ? ? E; discriminate. }
  destruct Hwalk as (st1 & Hm1 & Hf1 & Hfa1 & Hrm). cbv zeta in Hm1, Hrm.
  rewrite bind_unfold.
  destruct (mapError _ _ m) as [[[metas rm]|e|msg] m1];
    cbn [fst snd] in Hm1, Hrm; subst m1.
  2,3: exists st1; split; [reflexivity|]; split; [intros p _; rewrite Hf1; reflexivity|];
       left; split; [cbn [fst snd]; discriminate|]; split; [exact Hf1|reflexivity].
  specialize (Hrm metas rm eq_refl).
  destruct (ParseMeta metas) as [c r].
  destruct (N.eqb_spec c 0) as [Hc|Hc]; cbn [orb].
  { exists st1. split; [reflexivity|]. split; [intros p _; rewrite Hf1; reflexivity|].
    left. split; [cbn [fst snd]; discriminate|]. split; [exact Hf1|reflexivity]. }
  destruct (N.eqb_spec r 0) as [Hr|Hr].
  { exists st1. split; [reflexivity|]. split; [intros p _; rewrite Hf1; reflexivity|].
    left. split; [cbn [fst snd]; discriminate|]. split; [exact Hf1|reflexivity]. }
  (* the flush *)
  rewrite !bind_modify.
  set (m3 := withCheckpointTs _ _).
  assert (Hst3 : extStorage m3 = Some st1) by reflexivity.
  assert (Hnext : nextMetaFile m3 = nextMetaFile m) by reflexivity.
  assert (Hchange : fst (prepareForFlushMeta m3) = true).
  { unfold prepareForFlushMeta, m3, getFlushed, getUnflushed. cbn.
    assert (E : (0 <? c) = true) by (apply N.ltb_lt; lia). rewrite E. reflexivity. }
  assert (Hmeta : snd (prepareForFlushMeta m3) = {| CheckpointTs := c; ResolvedTs := r |})
    by reflexivity.
  rewrite bind_unfold. unfold mapError.
  rewrite maybeFlushMeta_eq, Hchange, Hmeta.
  rewrite (flush_eq _ m3 st1 Hst3). cbv zeta. rewrite Hnext.
  set (metaFile := nextMetaFile m) in *.
  replace (preMetaFile m3) with "" by reflexivity. cbn [String.eqb].
  destruct (MarshalMsg {| CheckpointTs := c; ResolvedTs := r |}) as [data|e|msg] eqn:Hmar.
  2,3: exists st1; split; [reflexivity|]; split; [intros p _; rewrite Hf1; reflexivity|];
       left; split; [cbn [fst snd]; discriminate|]; split; [exact Hf1|reflexivity].
  destruct (faults st1 (OpWriteFile metaFile)) as [e|].
  { eexists. split; [reflexivity|]. cbn [files called].
    split; [intros p _; rewrite Hf1; reflexivity|].
    left. split; [cbn [fst snd]; discriminate|]. split; [exact Hf1|reflexivity]. }
  rewrite postFlushMeta_eq.
  set (st2 := setFiles _ _).
  set (m4 := withCheckpointTs _ _).
  assert (Hst4 : extStorage m4 = Some st2) by reflexivity.
  destruct (DeleteFilesInExtStorage_spec rm m4 st2 Hst4)
    as (st' & Hm' & _ & Hkeep & _).
  exists st'. split; [rewrite Hm'; reflexivity|].
  assert (Hnotin : forall p, (is_Some (files st !! p) -> False) -> p ∉ rm).
  { intros p Hno Hin. apply Hno, (Hrm p Hin). }
  assert (Hnew : files st' !! metaFile = Some data).
  { rewrite Hkeep.
    - unfold st2. cbn [files setFiles]. apply lookup_insert_eq.
    - apply Hnotin. rewrite Hfresh. intros [? ?]; discriminate. }
  split.
  - intros p Hp. rewrite Hkeep.
    + unfold st2. cbn [files setFiles called]. rewrite Hf1.
      apply lookup_insert_ne. intros <-.
      unfold metaFile, nextMetaFile in Hp. rewrite metafileNameOf_suffix in Hp.
      discriminate.
    + intros Hin. destruct (Hrm p Hin) as [_ Hs]. congruence.
  - right. rewrite Hm'. split; [reflexivity|].
    exists data. split; [exact Hnew|]. exact Hmar.
Qed.

End InitStored.

(** A start on a store whose deletes fail: the new meta file is written
    and published, the old ones stay. *)
Lemma initMeta_writes_before_deleting_witness :
  let st := setFaults (Fixtures.storageOf recoveryFiles) deletesFail in
  let m := newMetaManager "cap" Fixtures.exampleFeed Fixtures.exampleGenerator (Some st) in
  let m' := snd (@initMeta Fixtures.exampleCodec None 5 m) in
  files st !! nextMetaFile m = None
  /\ GetFlushedMeta m' = {| CheckpointTs := 12; ResolvedTs := 22 |}
  /\ exists st',
       extStorage m' = Some st'
       /\ files st' !! "notes.txt" = Some "stray"
       /\ exists data,
            files st' !! nextMetaFile m = Some data
            /\ @MarshalMsg Fixtures.exampleCodec (GetFlushedMeta m') = Returned data.
Proof.
  intros st m m'.
  assert (Hfresh : files st !! nextMetaFile m = None) by (vm_compute; reflexivity).
  split; [exact Hfresh|]. split; [vm_compute; reflexivity|].
  destruct (@initMeta_writes_before_deleting Fixtures.exampleCodec None 5 "cap"
              Fixtures.exampleFeed Fixtures.exampleGenerator st Hfresh)
    as (st' & Hst' & Hother & [(_ & _ & Hzero)|(_ & data & Hnew & Hmar)]).
  - exfalso. vm_compute in Hzero. discriminate.
  - exists st'. split; [exact Hst'|].
    split; [rewrite Hother; vm_compute; reflexivity|].
    exists data. split; [exact Hnew|exact Hmar].
Defined.

(** ** Exactly one meta file on a healthy store *)

Lemma append_inj_l (a x y : string) : a ++ x = a ++ y -> x = y.
Proof.
  induction a as [|c a IH]; [rewrite !append_nil; auto|].
  rewrite !append_cons. intros [= E]. auto.
Qed.

Lemma append_inj_r (b : string) : forall x y : string, x ++ b = y ++ b -> x = y.
Proof.
  induction x as [|c x IH]; intros [|d y] E.
  - reflexivity.
  - apply (f_equal String.length) in E. rewrite append_nil, append_cons in E.
    cbn [String.length] in E. rewrite length_app_string in E. lia.
  - apply (f_equal String.length) in E. rewrite append_nil, append_cons in E.
    cbn [String.length] in E. rewrite length_app_string in E. lia.
  - rewrite !append_cons in E. injection E as -> E. f_equal. apply IH, E.
Qed.

(** Different uuids give different meta file names. *)
Lemma metafileNameOf_inj cid feed u1 u2 :
  metafileNameOf cid feed u1 = metafileNameOf cid feed u2 -> u1 = u2.
Proof.
  unfold metafileNameOf. intros E.
  do 8 apply append_inj_l in E. apply append_inj_r in E. exact E.
Qed.

Lemma UpdateMeta_keeps_names c r m :
  captureID (snd (UpdateMeta c r m)) = captureID m
  /\ uuidGenerator (snd (UpdateMeta c r m)) = uuidGenerator m.
Proof.
  unfold UpdateMeta.
  destruct (checkAndSetUnflushed r (metaResolvedTs m)) as [okR rts].
  cbn [metaCheckpointTs withResolvedTs].
  destruct (checkAndSetUnflushed c (metaCheckpointTs m)) as [okC cts].
  split; reflexivity.
Qed.

(** The store lets every call through and holds no meta file but the one
    the manager remembers, whose name was built from a uuid the generator
    has issued. *)
Definition oneMetaFile (m : metaManager) : Prop :=
  soleMetaFile m
  /\ (exists st, extStorage m = Some st /\ forall op, faults st op = None)
  /\ (preMetaFile m = ""
      \/ exists k, (k < issued (uuidGenerator m))%nat
           /\ preMetaFile m
              = metafileNameOf (captureID m) (changeFeedID m)
                  (uuidAt (uuidGenerator m) k)).

(** No call of the trace changes which storage calls fail. *)
Definition keepsFaults (ev : event) : Prop :=
  match ev with
  | EvFaults _ => False
  | _ => True
  end.

Section OneMetaFile.
Context `{LogMetaCodec} `{LogFileNames}.
Variable uuids : nat -> string.
Hypothesis uuids_differ : forall i j, uuids i = uuids j -> i = j.
Hypothesis marshals : forall meta, exists data, MarshalMsg meta = Returned data.

Lemma step_keeps_one_meta_file ev s :
  keepsFaults ev ->
  uuidAt (uuidGenerator (mgr s)) = uuids ->
  oneMetaFile (mgr s) ->
  uuidAt (uuidGenerator (mgr (step ev s))) = uuids
  /\ oneMetaFile (mgr (step ev s))
  /\ (preMetaFile (mgr s) <> "" -> preMetaFile (mgr (step ev s)) <> "").
Proof.
  intros Hev Hgen Hone. destruct ev as [c r| | |f]; cbn [step mgr]; [| | |destruct Hev].
  - destruct (UpdateMeta_frame c r (mgr s)) as (Hfeed & Hst & Hpre).
    destruct (UpdateMeta_keeps_names c r (mgr s)) as (Hcap & Hg).
    unfold oneMetaFile, soleMetaFile. rewrite Hfeed, Hst, Hpre, Hcap, Hg.
    split; [exact Hgen|]. split; [exact Hone|auto].
  - rewrite bgFlushMeta_tick_snd.
    destruct (fst (prepareForFlushMeta (mgr s))) eqn:Hchg.
    2: { rewrite maybeFlushMeta_eq, Hchg. cbn [snd]. auto. }
    destruct Hone as (Hsole & (st & Hst & Hnf) & Hname).
    destruct (marshals (snd (prepareForFlushMeta (mgr s)))) as [data Hdata].
    assert (Hfresh : files st !! nextMetaFile (mgr s) = None).
    { destruct (files st !! nextMetaFile (mgr s)) as [d|] eqn:Hd; [|reflexivity].
      exfalso.
      destruct Hsole as (_ & st0 & Hst0 & Hsole).
      rewrite Hst in Hst0. injection Hst0 as <-.
      assert (E : nextMetaFile (mgr s) = preMetaFile (mgr s)).
      { apply Hsole; [apply metafileNameOf_suffix|eauto]. }
      destruct Hname as [Hempty|(k & Hk & Hpre)].
      - rewrite Hempty in E.
        pose proof (metafileNameOf_suffix (captureID (mgr s)) (changeFeedID (mgr s))
                      (uuidAt (uuidGenerator (mgr s)) (issued (uuidGenerator (mgr s)))))
          as Hsuf.
        unfold nextMetaFile in E. rewrite E in Hsuf. discriminate.
      - rewrite Hpre in E. unfold nextMetaFile in E.
        apply metafileNameOf_inj in E. rewrite Hgen in E.
        apply uuids_differ in E. lia. }
    destruct (maybeFlushMeta_healthy (mgr s) st data Hst Hnf Hsole Hchg Hdata Hfresh)
      as (_ & _ & Hpre' & Hsole' & Hids & st' & Hst' & Hfa' & _).
    apply pair_equal_spec in Hids as [Hids Hg'].
    apply pair_equal_spec in Hids as [Hcap' Hfeed'].
    split; [rewrite Hg'; exact Hgen|].
    split.
    + split; [exact Hsole'|]. split.
      * exists st'. split; [exact Hst'|]. intros op. rewrite Hfa'. apply Hnf.
      * right. exists (issued (uuidGenerator (mgr s))).
        rewrite Hg', Hcap', Hfeed', Hpre'. cbn [NewString snd issued uuidAt].
        split; [lia|reflexivity].
    + intros _. rewrite Hpre'. intros E.
      pose proof (metafileNameOf_suffix (captureID (mgr s)) (changeFeedID (mgr s))
                    (uuidAt (uuidGenerator (mgr s)) (issued (uuidGenerator (mgr s)))))
        as Hsuf.
      unfold nextMetaFile in E. rewrite E in Hsuf. discriminate.
  - destruct Hone as (Hsole & (st & Hst & Hnf) & Hname).
    assert (Hgc : let m' := snd (bgGC_tick (gcPreCkpt s) (mgr s)) in
              uuidAt (uuidGenerator m') = uuids /\ oneMetaFile m'
              /\ preMetaFile m' = preMetaFile (mgr s)).
    { cbv zeta. rewrite bgGC_tick_eq. cbv zeta.
      destruct (_ =? _);
        [cbn [snd]; split; [exact Hgen|]; split; [|reflexivity];
         split; [exact Hsole|]; split; [eauto|exact Hname]|].
      set (pred := fun path => shouldRemoved _ path _).
      destruct (RemoveFilesIf_spec pred (mgr s) st Hst)
        as (st' & Hm & Hfa & Hkeep & _).
      assert (Hk' : let m' := withExtStorage (mgr s) (Some st') in
                uuidAt (uuidGenerator m') = uuids /\ oneMetaFile m'
                /\ preMetaFile m' = preMetaFile (mgr s)).
      { cbv zeta. split; [exact Hgen|]. split; [|reflexivity].
        split; [|split; [|exact Hname]].
        - destruct Hsole as (Hwf & st0 & Hst0 & Hsole).
          rewrite Hst in Hst0. injection Hst0 as <-.
          split; [exact Hwf|]. exists st'. split; [reflexivity|].
          intros p Hp. cbn [preMetaFile withExtStorage].
          rewrite Hkeep; [apply Hsole, Hp|].
          unfold pred. apply shouldRemoved_meta, Hp.
        - exists st'. split; [reflexivity|]. intros op. rewrite Hfa. apply Hnf. }
      destruct (RemoveFilesIf pred (mgr s)) as [[[]|e|msg] m'];
        cbn [snd] in Hm |- *; rewrite Hm; exact Hk'. }
    cbv zeta in Hgc.
    destruct (bgGC_tick (gcPreCkpt s) (mgr s)) as [[pre|e|msg] m'];
      cbn [snd mgr] in Hgc |- *; destruct Hgc as (? & ? & ->); auto.
Qed.

(** X8.  On a store that lets every call through, with a generator that
    never repeats a uuid and a codec that serializes every pair: if the
    store holds no meta file but the one the manager remembers, then after
    any sequence of [UpdateMeta] calls, flush ticks and GC ticks it still
    holds exactly that one meta file, the latest one written.  Every flush
    replaces the meta file, no flush leaves two behind, and the GC never
    touches it. *)
Theorem run_keeps_one_meta_file (evs : list event) (s : system) :
  Forall keepsFaults evs ->
  uuidAt (uuidGenerator (mgr s)) = uuids ->
  oneMetaFile (mgr s) ->
  preMetaFile (mgr s) <> "" ->
  let m' := mgr (run evs s) in
  preMetaFile m' <> ""
  /\ exists st', extStorage m' = Some st'
       /\ forall p, HasSuffix p MetaEXT = true ->
            (is_Some (files st' !! p) <-> p = preMetaFile m').
Proof.
  revert s. induction evs as [|ev evs IH]; intros s Hevs Hgen Hone Hpre.
  - cbn [run]. split; [exact Hpre|]. destruct Hone as ((_ & Hsole) & _). exact Hsole.
  - apply Forall_cons in Hevs as [Hev Hevs].
    destruct (step_keeps_one_meta_file ev s Hev Hgen Hone) as (Hgen' & Hone' & Hpre').
    cbn [run]. apply IH; auto.
Qed.

End OneMetaFile.

(** A generator whose [n]-th uuid is [n] letters long. *)
Fixpoint unaryUuid (n : nat) : string :=
  match n with
  | O => ""
  | S k => String "u" (unaryUuid k)
  end.

Lemma unaryUuid_inj i : forall j, unaryUuid i = unaryUuid j -> i = j.
Proof.
  induction i as [|i IH]; intros [|j] E; try discriminate; [reflexivity|].
  injection E as E. f_equal. apply IH, E.
Qed.

(** The manager at (10, 20) that has issued one uuid, with its meta file
    and one log on a healthy store. *)
Definition oneFileManager : metaManager :=
  withUuidGenerator
    (withPreMetaFile
       (Fixtures.managerAt 10 20
          [("cap_default_feed_meta_.meta",
            Fixtures.encodeMeta {| CheckpointTs := 10; ResolvedTs := 20 |});
           ("cap_feed_row_5_u1.log", "rows")])
       "cap_default_feed_meta_.meta")
    {| uuidAt := unaryUuid; issued := 1 |}.

Lemma run_keeps_one_meta_file_witness :
  let evs := [EvUpdateMeta 15 25; EvFlushTick; EvGCTick; EvUpdateMeta 30 40;
              EvFlushTick; EvFlushTick] in
  let m' := mgr (@run Fixtures.exampleCodec Fixtures.exampleNames evs
                   (Fixtures.systemOf oneFileManager)) in
  oneMetaFile oneFileManager
  /\ preMetaFile m' = "cap_default_feed_meta_uu.meta"
  /\ exists st', extStorage m' = Some st'
       /\ forall p, HasSuffix p MetaEXT = true ->
            (is_Some (files st' !! p) <-> p = preMetaFile m').
Proof.
  intros evs m'.
  assert (Hone : oneMetaFile oneFileManager).
  { split; [|split].
    - split; [right; reflexivity|]. eexists. split; [reflexivity|].
      intros p Hp. split.
      + intros [d Hd]. apply elem_of_list_to_map_2 in Hd.
        apply elem_of_cons in Hd as [[= -> _]|Hd]; [reflexivity|].
        apply elem_of_cons in Hd as [[= -> _]|Hd]; [discriminate Hp|inversion Hd].
      + intros ->. vm_compute. eauto.
    - eexists. split; [reflexivity|]. intros op. reflexivity.
    - right. exists 0%nat. split; [cbn; lia|reflexivity]. }
  split; [exact Hone|]. split; [vm_compute; reflexivity|].
  refine (proj2 (@run_keeps_one_meta_file Fixtures.exampleCodec Fixtures.exampleNames
                   unaryUuid unaryUuid_inj (fun meta => ex_intro _ _ eq_refl)
                   evs (Fixtures.systemOf oneFileManager) _ eq_refl Hone _)).
  - repeat constructor.
  - discriminate.
Defined.

(** ** A restart recovers what was published *)

Section Restart.
Context `{LogMetaCodec}.

(** What is written can be read back: the codec decodes what it encodes,
    and never encodes to nothing. *)
Hypothesis decodes_what_it_encodes :
  forall meta data,
    MarshalMsg meta = Returned data ->
    String.length data <> 0%nat /\ UnmarshalMsg data = Returned meta.

(** X9.  What a manager has published is not lost by a restart.  Let the
    remembered meta file hold the pair that [GetFlushedMeta] reports (as it
    does at any time once it did, whatever storage calls fail), and let a
    new manager run [initMeta] on that store, now healthy.  If [initMeta]
    returns nil, the pair it publishes is in both fields at least the pair
    the old manager had published, and its checkpoint is at least
    [startTs]. *)
Theorem restart_recovers_published
    (m : metaManager) (st : ExternalStorage) (capture : string)
    (feed : ChangeFeedID) (gen : Generator) (startTs : Ts) :
  extStorage m = Some st ->
  flushedIsStored m ->
  allDecode (files st) ->
  let m0 := newMetaManager capture feed gen (Some (setFaults st noFaults)) in
  fst (initMeta None startTs m0) = Returned tt ->
  let recovered := GetFlushedMeta (snd (initMeta None startTs m0)) in
  CheckpointTs (GetFlushedMeta m) <= CheckpointTs recovered
  /\ ResolvedTs (GetFlushedMeta m) <= ResolvedTs recovered
  /\ startTs <= CheckpointTs recovered
  /\ CheckpointTs recovered <= ResolvedTs recovered.
Proof.
  intros Hst (Hsuf & st0 & d & Hst0 & Hfile & Hdata) Hall m0 Hres recovered.
  rewrite Hst in Hst0. injection Hst0 as <-.
  destruct (decodes_what_it_encodes _ _ Hdata) as [Hlen Hdec].
  set (st' := setFaults st noFaults) in *.
  destruct (initMeta_eq startTs m0 st' eq_refl (fun _ => eq_refl) Hall)
    as (st1 & Hf1 & Hfa1 & Heq).
  subst recovered. rewrite Heq in Hres |- *. cbv zeta in Hres |- *.
  set (metas := collectedMetas startTs st') in *.
  assert (Hin : GetFlushedMeta m ∈ metas).
  { apply elem_of_collectedMetas. right. exists (preMetaFile m), d. auto. }
  assert (Hstart : {| CheckpointTs := startTs; ResolvedTs := startTs |} ∈ metas).
  { apply elem_of_collectedMetas. left. reflexivity. }
  assert (Hne : metas <> []) by (intros E; rewrite E in Hin; inversion Hin).
  destruct (ParseMeta_spec metas Hne) as (Hc & _ & Hr & Hcr & _).
  set (c := fst (ParseMeta metas)) in *. set (r := snd (ParseMeta metas)) in *.
  clearbody c r.
  destruct (N.eqb_spec c 0) as [Hc0|Hc0]; [discriminate|].
  destruct (N.eqb_spec r 0) as [Hr0|Hr0]; [discriminate|].
  cbn [orb] in Hres |- *.
  set (m2 := withCheckpointTs _ _) in *.
  assert (Hts : fst (maybeFlushMeta m2) = Returned tt ->
                tsOf (snd (maybeFlushMeta m2))
                = ({| flushed := c; unflushed := c |},
                   {| flushed := r; unflushed := r |})).
  { intros Hok. destruct (maybeFlushMeta_returned m2 Hok) as [[Hno _]|[_ Hpub]];
      [|exact Hpub].
    exfalso. unfold prepareForFlushMeta, m2, getFlushed, getUnflushed in Hno.
    cbn in Hno.
    assert (E : (0 <? c) = true) by (apply N.ltb_lt; lia).
    rewrite E in Hno. discriminate. }
  destruct (maybeFlushMeta m2) as [[[]|e|msg] m3]; cbn [fst snd] in Hts, Hres |- *;
    [|discriminate|discriminate].
  specialize (Hts eq_refl).
  pose proof (keepsTs_DeleteFilesInExtStorage (discoveredMetaFiles st') m3) as Hk.
  rewrite Hts in Hk. unfold tsOf in Hk. apply pair_equal_spec in Hk as [Ec Er].
  unfold GetFlushedMeta at 2 4 5 6 7, getFlushed. rewrite Ec, Er.
  cbn [CheckpointTs ResolvedTs flushed].
  split; [apply (Hc _ Hin)|]. split; [apply (Hr _ Hin)|].
  split; [apply (Hc _ Hstart)|exact Hcr].
Qed.

End Restart.

Lemma countLeading_iter (ch : ascii) (n : N) (rest : string) :
  match rest with
  | String x _ => Ascii.eqb x ch = false
  | EmptyString => True
  end ->
  Fixtures.countLeading ch (N.iter n (String ch) rest) = (n, rest).
Proof.
  intros Hrest. induction n as [|n IH] using N.peano_ind.
  - cbn [N.iter]. destruct rest as [|x rest]; [reflexivity|].
    cbn [Fixtures.countLeading]. rewrite Hrest. reflexivity.
  - rewrite N.iter_succ. cbn [Fixtures.countLeading].
    rewrite Ascii.eqb_refl, IH. reflexivity.
Qed.

(** The codec of the examples decodes what it encodes. *)
Lemma exampleCodec_decodes meta data :
  @MarshalMsg Fixtures.exampleCodec meta = Returned data ->
  String.length data <> 0%nat /\ @UnmarshalMsg Fixtures.exampleCodec data = Returned meta.
Proof.
  intros [= <-]. split; [discriminate|].
  destruct meta as [c r]. cbn [UnmarshalMsg Fixtures.exampleCodec].
  unfold Fixtures.encodeMeta, Fixtures.decodeMeta. cbn [CheckpointTs ResolvedTs].
  rewrite countLeading_iter.
  - rewrite countLeading_iter by exact I. reflexivity.
  - destruct r as [|p]; [exact I|].
    destruct (N.iter (N.pos p) (String "r") "") as [|x rest] eqn:E; [exact I|].
    assert (Hx : x = "r"%char).
    { revert E. generalize (N.pos p). intros n.
      induction n as [|n _] using N.peano_ind; [discriminate|].
      rewrite N.iter_succ. intros [= <- _]. reflexivity. }
    rewrite Hx. reflexivity.
Qed.

Lemma restart_recovers_published_witness :
  let fs := [("cap_default_feed_meta_old.meta",
              Fixtures.encodeMeta {| CheckpointTs := 10; ResolvedTs := 20 |});
             ("cap_feed_row_5_u1.log", "rows")] in
  let st := Fixtures.storageOf fs in
  let m0 := newMetaManager "cap2" Fixtures.exampleFeed Fixtures.exampleGenerator
              (Some (setFaults st noFaults)) in
  extStorage storedManager = Some st
  /\ GetFlushedMeta storedManager = {| CheckpointTs := 10; ResolvedTs := 20 |}
  /\ fst (@initMeta Fixtures.exampleCodec None 5 m0) = Returned tt
  /\ 10 <= CheckpointTs (GetFlushedMeta (snd (@initMeta Fixtures.exampleCodec None 5 m0))).
Proof.
  intros fs st m0.
  assert (Hst : extStorage storedManager = Some st) by reflexivity.
  assert (Hstored : @flushedIsStored Fixtures.exampleCodec storedManager).
  { split; [vm_compute; reflexivity|].
    eexists _, _. split; [reflexivity|]. split; vm_compute; reflexivity. }
  assert (Hall : @allDecode Fixtures.exampleCodec (files st)) by decode_all.
  assert (Hres : fst (@initMeta Fixtures.exampleCodec None 5 m0) = Returned tt)
    by (vm_compute; reflexivity).
  split; [exact Hst|]. split; [reflexivity|]. split; [exact Hres|].
  destruct (@restart_recovers_published Fixtures.exampleCodec exampleCodec_decodes
              storedManager st "cap2" Fixtures.exampleFeed Fixtures.exampleGenerator 5
              Hst Hstored Hall Hres) as (Hc & _).
  exact Hc.
Defined.

(** ** The GC waits for the checkpoint to move *)

Section GCAgain.
Context `{LogFileNames}.

(** X10.  A GC tick that returns hands the flushed checkpoint on as the
    loop's [preCkpt], and with it the next tick does nothing: the store is
    walked again only after a flush has moved the checkpoint. *)
Theorem bgGC_tick_again_is_noop (preCkpt c : Ts) (m : metaManager) :
  fst (bgGC_tick preCkpt m) = Returned c ->
  c = CheckpointTs (GetFlushedMeta m)
  /\ bgGC_tick c (snd (bgGC_tick preCkpt m)) = (Returned c, snd (bgGC_tick preCkpt m)).
Proof.
  rewrite bgGC_tick_eq. cbv zeta.
  unfold GetFlushedMeta. cbn [CheckpointTs].
  destruct (N.eqb_spec (getFlushed (metaCheckpointTs m)) preCkpt) as [E|E].
  - cbn [fst snd]. intros [= <-]. split; [auto|].
    rewrite bgGC_tick_eq. cbv zeta. rewrite E, N.eqb_refl. reflexivity.
  - pose proof (keepsTs_RemoveFilesIf
                  (fun path => shouldRemoved (changeFeedID m) path
                                 (getFlushed (metaCheckpointTs m))) m) as Hk.
    destruct (RemoveFilesIf _ m) as [[[]|e|msg] m']; cbn [fst snd] in Hk |- *;
      [|discriminate|discriminate].
    intros [= <-]. split; [reflexivity|].
    rewrite bgGC_tick_eq. cbv zeta.
    unfold tsOf in Hk. apply pair_equal_spec in Hk as [Ec _].
    rewrite Ec, N.eqb_refl. reflexivity.
Qed.

End GCAgain.

Lemma bgGC_tick_again_is_noop_witness :
  let m := Fixtures.managerAt 100 120
             [("cap_feed_row_90_u1.log", "rows"); ("cap_feed_row_110_u3.log", "rows")] in
  fst (@bgGC_tick Fixtures.exampleNames 0 m) = Returned 100
  /\ @bgGC_tick Fixtures.exampleNames 100 (snd (@bgGC_tick Fixtures.exampleNames 0 m))
     = (Returned 100, snd (@bgGC_tick Fixtures.exampleNames 0 m)).
Proof.
  intros m.
  assert (Hres : fst (@bgGC_tick Fixtures.exampleNames 0 m) = Returned 100)
    by (vm_compute; reflexivity).
  split; [exact Hres|].
  exact (proj2 (@bgGC_tick_again_is_noop Fixtures.exampleNames 0 100 m Hres)).
Defined.

(** ** The owner campaign and the inner run of the capture *)

Section OwnerCampaign.
Import CaptureOwner.
Context `{ErrorTexts}.

(** Whether the capture holds an owner after [acts], having held one or
    not before. *)
Definition ownerHeld (held : bool) (acts : list action) : bool :=
  fold_left (fun held act =>
               match act with
               | ActSetOwner => true
               | ActClearOwner => false
               | _ => held
               end) acts held.

(** Whether an owner that was set has not been resigned yet. *)
Definition owesResign (owes : bool) (acts : list action) : bool :=
  fold_left (fun owes act =>
               match act with
               | ActSetOwner => true
               | ActResign => false
               | _ => owes
               end) acts owes.

(** No owner is run or stopped that is not set: [c.owner.AsyncStop()] on a
    nil owner would be a nil dereference. *)
Fixpoint ownerUsedSafely (held : bool) (acts : list action) : bool :=
  match acts with
  | [] => true
  | act :: rest =>
      match act with
      | ActSetOwner => ownerUsedSafely true rest
      | ActClearOwner => ownerUsedSafely false rest
      | ActRunOwner | ActAsyncStop => held && ownerUsedSafely held rest
      | _ => ownerUsedSafely held rest
      end
  end.

(** X11.  However the environment answers and however many times the loop
    goes round, [campaignOwner] does not leave the capture holding an
    owner: after what it did the owner is nil again, every owner it set has
    been resigned, and it only ran and stopped an owner that was set. *)
Theorem campaignOwner_releases_owner (passes : list campaignPass) :
  let acts := snd (campaignOwner passes) in
  ownerHeld false acts = false
  /\ owesResign false acts = false
  /\ ownerUsedSafely false acts = true.
Proof.
  induction passes as [|p rest IH]; [repeat split|].
  cbn [campaignOwner].
  destruct (campaignOwner rest) as [res more]. cbn [snd] in IH.
  destruct IH as (IH1 & IH2 & IH3).
  destruct (passCtxDone p); [repeat split|].
  destruct (passWaitErr p) as [e|];
    [destruct (bool_decide _); repeat split|].
  destruct (bool_decide (livenessBefore p = _)); [repeat split|].
  destruct (campaignErr p) as [cerr|].
  { destruct (bool_decide _); [repeat split|].
    destruct (_ || _); cbn [snd]; [|repeat split].
    cbn. auto. }
  destruct (bool_decide (livenessAfter p = _)).
  { destruct (stoppingResignErr p); repeat split. }
  destruct (ownerRevErr p) as [e|]; [destruct (bool_decide _); repeat split|].
  cbv zeta.
  assert (Hfull : forall r : RunResult,
            let acts := snd (r, ([ActCampaign; ActSetOwner; ActRunOwner;
                                  ActAsyncStop; ActClearOwner; ActResign] ++ more)%list) in
            ownerHeld false acts = false /\ owesResign false acts = false
            /\ ownerUsedSafely false acts = true).
  { intros r. cbn. auto. }
  destruct (resignErr p) as [re|]; [destruct (bool_decide _); [repeat split|]|];
    (destruct (workerErr p); [repeat split|apply Hfull]).
Qed.

(** X12.  Where an error returned by [campaignOwner] comes from: it is
    [ErrCaptureSuicide] after a failed campaign, or the traced error of
    [rl.Wait] or [GetOwnerRevision] (never one caused by a cancelled
    context), of the resign after the owner has run (never a timeout), or
    of the owner's worker.  A resign that fails while the liveness is
    stopping is not among them: that branch returns nil. *)
Theorem campaignOwner_error_sources (passes : list campaignPass) (e : error) :
  fst (campaignOwner passes) = Exited (Some e) ->
  exists p, p ∈ passes
    /\ passCtxDone p = false
    /\ ((passWaitErr p = None /\ livenessBefore p <> LivenessCaptureStopping
         /\ (exists cerr, campaignErr p = Some cerr /\ Cause cerr <> ContextCanceled)
         /\ e = Normalized ErrCaptureSuicide)
        \/ exists e',
             e = Annotated "" e'
             /\ ((passWaitErr p = Some e' /\ Cause e' <> ContextCanceled)
                 \/ (livenessAfter p <> LivenessCaptureStopping
                     /\ ((ownerRevErr p = Some e' /\ Cause e' <> ContextCanceled)
                         \/ (resignErr p = Some e'
                             /\ Cause e' <> ContextDeadlineExceeded)
                         \/ workerErr p = Some e')))).
Proof.
  induction passes as [|p rest IH]; [discriminate|].
  cbn [campaignOwner].
  assert (Hrest : fst (campaignOwner rest) = Exited (Some e) ->
            exists p0, p0 ∈ p :: rest
              /\ passCtxDone p0 = false
              /\ ((passWaitErr p0 = None /\ livenessBefore p0 <> LivenessCaptureStopping
                   /\ (exists cerr, campaignErr p0 = Some cerr
                                    /\ Cause cerr <> ContextCanceled)
                   /\ e = Normalized ErrCaptureSuicide)
                  \/ exists e',
                       e = Annotated "" e'
                       /\ ((passWaitErr p0 = Some e' /\ Cause e' <> ContextCanceled)
                           \/ (livenessAfter p0 <> LivenessCaptureStopping
                               /\ ((ownerRevErr p0 = Some e'
                                    /\ Cause e' <> ContextCanceled)
                                   \/ (resignErr p0 = Some e'
                                       /\ Cause e' <> ContextDeadlineExceeded)
                                   \/ workerErr p0 = Some e'))))).
  { intros Hr. destruct (IH Hr) as (p0 & Hin & Hp0).
    exists p0. split; [apply elem_of_cons; auto|exact Hp0]. }
  clear IH. destruct (campaignOwner rest) as [res more]. cbn [fst] in Hrest.
  destruct (passCtxDone p) eqn:Hdone; [discriminate|].
  destruct (passWaitErr p) as [we|] eqn:Hwait.
  { destruct (bool_decide_reflect (Cause we = ContextCanceled)) as [Hc|Hc];
      [discriminate|].
    cbn [fst Trace]. intros [= <-].
    exists p. split; [apply elem_of_cons; auto|]. split; [exact Hdone|].
    right. exists we. split; [reflexivity|]. left. auto. }
  destruct (bool_decide_reflect (livenessBefore p = LivenessCaptureStopping))
    as [Hb|Hb]; [discriminate|].
  destruct (campaignErr p) as [cerr|] eqn:Hcamp.
  { destruct (bool_decide_reflect (Cause cerr = ContextCanceled)) as [Hc|Hc];
      [discriminate|].
    destruct (_ || _); cbn [fst]; [exact Hrest|].
    intros [= <-].
    exists p. split; [apply elem_of_cons; auto|]. split; [exact Hdone|].
    left. split; [exact Hwait|]. split; [exact Hb|]. split; [eauto|reflexivity]. }
  destruct (bool_decide_reflect (livenessAfter p = LivenessCaptureStopping))
    as [Ha|Ha].
  { destruct (stoppingResignErr p); discriminate. }
  destruct (ownerRevErr p) as [re|] eqn:Hrev.
  { destruct (bool_decide_reflect (Cause re = ContextCanceled)) as [Hc|Hc];
      [discriminate|].
    cbn [fst Trace]. intros [= <-].
    exists p. split; [apply elem_of_cons; auto|]. split; [exact Hdone|].
    right. exists re. split; [reflexivity|]. right. split; [exact Ha|]. left. auto. }
  cbv zeta.
  assert (Hworker : fst match workerErr p with
                        | Some _ =>
                            (Exited (Trace (workerErr p)),
                             [ActCampaign; ActSetOwner; ActRunOwner;
                              ActAsyncStop; ActClearOwner; ActResign])
                        | None =>
                            (res, ([ActCampaign; ActSetOwner; ActRunOwner;
                                    ActAsyncStop; ActClearOwner; ActResign]
                                     ++ more)%list)
                        end = Exited (Some e) ->
                    exists p0, p0 ∈ p :: rest
                      /\ passCtxDone p0 = false
                      /\ ((passWaitErr p0 = None
                           /\ livenessBefore p0 <> LivenessCaptureStopping
                           /\ (exists cerr, campaignErr p0 = Some cerr
                                            /\ Cause cerr <> ContextCanceled)
                           /\ e = Normalized ErrCaptureSuicide)
                          \/ exists e',
                               e = Annotated "" e'
                               /\ ((passWaitErr p0 = Some e'
                                    /\ Cause e' <> ContextCanceled)
                                   \/ (livenessAfter p0 <> LivenessCaptureStopping
                                       /\ ((ownerRevErr p0 = Some e'
                                            /\ Cause e' <> ContextCanceled)
                                           \/ (resignErr p0 = Some e'
                                               /\ Cause e' <> ContextDeadlineExceeded)
                                           \/ workerErr p0 = Some e'))))).
  { destruct (workerErr p) as [we|] eqn:Hw; cbn [fst Trace]; [|exact Hrest].
    intros [= <-].
    exists p. split; [apply elem_of_cons; auto|]. split; [exact Hdone|].
    right. exists we. split; [reflexivity|]. right. split; [exact Ha|].
    right. right. exact Hw. }
  destruct (resignErr p) as [re|] eqn:Hres; [|exact Hworker].
  destruct (bool_decide_reflect (Cause re <> ContextDeadlineExceeded)) as [Hc|Hc];
    [|exact Hworker].
  cbn [fst Trace]. intros [= <-].
  exists p. split; [apply elem_of_cons; auto|]. split; [exact Hdone|].
  right. exists re. split; [reflexivity|]. right. split; [exact Ha|].
  right. left. auto.
Qed.

(** X13.  When the inner [run] ends because its owner goroutine gave up
    (the campaign returned an error, or returned while the capture is not
    stopping), the loop of [Run] does not exit in that pass: the error is
    [ErrCaptureSuicide], and [Run] goes on to the next pass. *)
Theorem Run_restarts_after_owner_routine
    (rl : Limiter) (it : iteration) (rest : list iteration)
    (campaignResult : option error) (liveness : Liveness)
    (returned : list (option error)) :
  ctxDone it = false ->
  waitErr it = None ->
  runErr it = run None None returned ->
  groupWait returned = ownerRoutine campaignResult liveness ->
  campaignResult <> None \/ liveness <> LivenessCaptureStopping ->
  runErr it = Some (Annotated "" (Normalized ErrCaptureSuicide))
  /\ Run_loop rl (it :: rest)
     = (fst (Run_loop (snd (Wait (now it) rl)) rest),
        fst (Wait (now it) rl) :: snd (Run_loop (snd (Wait (now it) rl)) rest)).
Proof.
  intros Hdone Hwait Hrun Hgroup Hgave.
  assert (Howner : ownerRoutine campaignResult liveness
                   = Some (Normalized ErrCaptureSuicide)).
  { unfold ownerRoutine. destruct Hgave as [Hc|Hl].
    - rewrite (bool_decide_eq_true_2 _ Hc). reflexivity.
    - rewrite (bool_decide_eq_true_2 _ Hl), orb_true_r. reflexivity. }
  assert (Herr : runErr it = Some (Annotated "" (Normalized ErrCaptureSuicide))).
  { rewrite Hrun. unfold run, register. rewrite Hgroup, Howner. reflexivity. }
  split; [exact Herr|].
  cbn [Run_loop]. rewrite Hdone, Hwait, Herr.
  destruct (Wait (now it) rl) as [started rl'].
  cbn [Equal Cause fst snd]. rewrite bool_decide_eq_true_2 by reflexivity.
  cbn [orb]. destruct (Run_loop rl' rest) as [res starts]. reflexivity.
Qed.

(** X14.  A registration that fails ends [Run] with that error, wrapped as
    [ErrCaptureRegister] and traced by [run] and by [Run], unless its root
    cause is a cancelled or timed-out context or an [ErrCaptureSuicide]; the
    goroutines of [run] are not started. *)
Theorem Run_exits_on_register_failure
    (rl : Limiter) (it : iteration) (rest : list iteration)
    (putErr : error) (returned : list (option error)) :
  ctxDone it = false ->
  waitErr it = None ->
  runErr it = run None (Some putErr) returned ->
  Cause putErr <> ContextCanceled ->
  Cause putErr <> ContextDeadlineExceeded ->
  Cause putErr <> Normalized ErrCaptureSuicide ->
  Run_loop rl (it :: rest)
  = (Exited (Some (Annotated "" (Annotated "" (Wrapped ErrCaptureRegister putErr)))),
     [fst (Wait (now it) rl)]).
Proof.
  intros Hdone Hwait Hrun Hc Hd Hs.
  cbn [Run_loop]. rewrite Hdone, Hwait, Hrun.
  destruct (Wait (now it) rl) as [started rl'].
  unfold run, register, WrapError, CauseOf. cbn [Trace Equal Cause fmap option_fmap option_map fst].
  assert (E1 : match Cause putErr with
               | Normalized rfc' => bool_decide (ErrCaptureSuicide = rfc')
               | _ => false
               end = false).
  { destruct (Cause putErr) as [| | | |rfc| |]; try reflexivity.
    apply bool_decide_eq_false_2. intros <-. apply Hs. reflexivity. }
  rewrite E1.
  rewrite (bool_decide_eq_false_2 (Some ContextCanceled = Some (Cause putErr)))
    by congruence.
  rewrite (bool_decide_eq_false_2 (Some ContextDeadlineExceeded = Some (Cause putErr)))
    by congruence.
  reflexivity.
Qed.

End OwnerCampaign.

(** Errors whose text is their message, with the sentinel of etcd. *)
Definition exampleErrorTexts : CaptureOwner.ErrorTexts :=
  {| CaptureOwner.ErrorText :=
       fun e => match e with Opaque msg => msg | _ => "" end;
     CaptureOwner.mvccErrCompacted :=
       Opaque "mvcc: required revision has been compacted" |}.

(** A pass in which the campaign is won, the owner runs and ends without
    error, and the resign returns [resignErr]. *)
Definition ownerPass (resignErr : option error) : CaptureOwner.campaignPass :=
  {| CaptureOwner.passCtxDone := false;
     CaptureOwner.passWaitErr := None;
     CaptureOwner.livenessBefore := CaptureOwner.LivenessCaptureAlive;
     CaptureOwner.campaignErr := None;
     CaptureOwner.livenessAfter := CaptureOwner.LivenessCaptureAlive;
     CaptureOwner.stoppingResignErr := None;
     CaptureOwner.ownerRevErr := None;
     CaptureOwner.workerErr := None;
     CaptureOwner.resignErr := resignErr |}.

(** A pass in which the campaign fails with [err]. *)
Definition lostPass (err : error) : CaptureOwner.campaignPass :=
  {| CaptureOwner.passCtxDone := false;
     CaptureOwner.passWaitErr := None;
     CaptureOwner.livenessBefore := CaptureOwner.LivenessCaptureAlive;
     CaptureOwner.campaignErr := Some err;
     CaptureOwner.livenessAfter := CaptureOwner.LivenessCaptureAlive;
     CaptureOwner.stoppingResignErr := None;
     CaptureOwner.ownerRevErr := None;
     CaptureOwner.workerErr := None;
     CaptureOwner.resignErr := None |}.

Lemma campaignOwner_error_sources_witness :
  let passes :=
    [lostPass (Annotated "" (Opaque "etcdserver: mvcc: required revision has been compacted"));
     ownerPass (Some ContextDeadlineExceeded);
     ownerPass (Some (Opaque "resign failed"))] in
  fst (@CaptureOwner.campaignOwner exampleErrorTexts passes)
  = Exited (Some (Annotated "" (Opaque "resign failed")))
  /\ exists p, p ∈ passes /\ CaptureOwner.passCtxDone p = false.
Proof.
  intros passes.
  assert (Hres : fst (@CaptureOwner.campaignOwner exampleErrorTexts passes)
                 = Exited (Some (Annotated "" (Opaque "resign failed"))))
    by (vm_compute; reflexivity).
  split; [exact Hres|].
  destruct (@campaignOwner_error_sources exampleErrorTexts passes _ Hres)
    as (p & Hin & Hdone & _).
  exists p. split; [exact Hin|exact Hdone].
Defined.

(** A pass of [Run] at time [t] whose inner run returns [err]. *)
Definition runPass (t : Q) (err : option error) : iteration :=
  {| ctxDone := false; now := t; waitErr := None; runErr := err |}.

Lemma Run_restarts_after_owner_routine_witness :
  let campaignResult := Some (Annotated "" (Opaque "resign failed")) in
  let returned :=
    [CaptureOwner.ownerRoutine campaignResult CaptureOwner.LivenessCaptureAlive;
     Some ContextCanceled; Some ContextCanceled] in
  let it := runPass 0 (CaptureOwner.run None None returned) in
  fst (Run [it]) = Running
  /\ runErr it = Some (Annotated "" (Normalized ErrCaptureSuicide)).
Proof.
  intros campaignResult returned it.
  destruct (Run_restarts_after_owner_routine Run_limiter it [] campaignResult
              CaptureOwner.LivenessCaptureAlive returned
              eq_refl eq_refl eq_refl eq_refl (or_introl (@Some_ne_None _ _)))
    as [Herr Hloop].
  split; [|exact Herr].
  unfold Run. rewrite Hloop. reflexivity.
Defined.

Lemma Run_exits_on_register_failure_witness :
  let it := runPass 0 (CaptureOwner.run None (Some (Opaque "etcd unavailable")) []) in
  Run [it; runPass 30 None]
  = (Exited (Some (Annotated "" (Annotated ""
               (Wrapped ErrCaptureRegister (Opaque "etcd unavailable"))))),
     [fst (Wait 0 Run_limiter)]).
Proof.
  intros it.
  apply (Run_exits_on_register_failure Run_limiter it [runPass 30 None]
           (Opaque "etcd unavailable") []);
    first [reflexivity | discriminate].
Defined.

(** ** The codec configuration *)

Section CodecProps.
Import GoLib CodecConfig.
Context `{config.Pkg}.
Local Open Scope Z_scope.

(** An assignment of a field's own value changes nothing. *)
Definition fieldOf {A} (get : Config -> A) (set : Config -> A -> Config) : Prop :=
  forall c, set c (get c) = c.

Lemma field_EnableTiDBExtension : fieldOf EnableTiDBExtension setEnableTiDBExtension.
Proof. intros []; reflexivity. Qed.
Lemma field_MaxBatchSize : fieldOf MaxBatchSize setMaxBatchSize.
Proof. intros []; reflexivity. Qed.
Lemma field_MaxMessageBytes : fieldOf MaxMessageBytes setMaxMessageBytes.
Proof. intros []; reflexivity. Qed.
Lemma field_AvroDecimalHandlingMode :
  fieldOf AvroDecimalHandlingMode setAvroDecimalHandlingMode.
Proof. intros []; reflexivity. Qed.
Lemma field_AvroBigintUnsignedHandlingMode :
  fieldOf AvroBigintUnsignedHandlingMode setAvroBigintUnsignedHandlingMode.
Proof. intros []; reflexivity. Qed.
Lemma field_AvroEnableWatermark : fieldOf AvroEnableWatermark setAvroEnableWatermark.
Proof. intros []; reflexivity. Qed.
Lemma field_AvroSchemaRegistry : fieldOf AvroSchemaRegistry setAvroSchemaRegistry.
Proof. intros []; reflexivity. Qed.
Lemma field_OnlyOutputUpdatedColumns :
  fieldOf OnlyOutputUpdatedColumns setOnlyOutputUpdatedColumns.
Proof. intros []; reflexivity. Qed.

Lemma if_set {A} get set (Hf : @fieldOf A get set) (b : bool) c v :
  (if b then set c v else c) = set c (if b then v else get c).
Proof. destruct b; [reflexivity|]. symmetry. apply Hf. Qed.

(** A block [if s != "" { v, err := parse(s); if err != nil { return err };
    c.field = v }] that lets the method go on. *)
Lemma andThen_parse {A E} (parse : string -> A * option E) (wrap : E -> error)
    get set (Hf : @fieldOf A get set) (s : string) c k c' :
  andThen
    (if negb (String.eqb s "") then
       match parse s with
       | (_, Some err) => (Some (wrap err), c)
       | (v, None) => (None, set c v)
       end
     else (None, c)) k = (None, c') ->
  (s <> "" -> snd (parse s) = None)
  /\ k (set c (if String.eqb s "" then get c else fst (parse s))) = (None, c').
Proof.
  destruct (String.eqb_spec s "") as [->|Hne]; cbn [negb andThen].
  - intros Hk. split; [congruence|]. rewrite Hf. exact Hk.
  - destruct (parse s) as [v [e|]]; cbn [andThen fst snd]; [discriminate|].
    intros Hk. split; [reflexivity|exact Hk].
Qed.

(** The same block behind a guard, as for the watermark option. *)
Lemma andThen_parse_guarded {A E} (parse : string -> A * option E) (wrap : E -> error)
    get set (Hf : @fieldOf A get set) (s : string) (guard : bool) c k c' :
  andThen
    (if negb (String.eqb s "") then
       if guard then
         match parse s with
         | (_, Some err) => (Some (wrap err), c)
         | (v, None) => (None, set c v)
         end
       else (None, c)
     else (None, c)) k = (None, c') ->
  k (set c (if negb (String.eqb s "") && guard then fst (parse s) else get c))
  = (None, c').
Proof.
  destruct (String.eqb_spec s "") as [->|Hne]; cbn [negb andb andThen].
  - intros Hk. rewrite Hf. exact Hk.
  - destruct guard; cbn [andThen].
    + destruct (parse s) as [v [e|]]; cbn [andThen fst]; [discriminate|].
      intros Hk. exact Hk.
    + intros Hk. rewrite Hf. exact Hk.
Qed.

(** What [Apply] has assigned when it returns nil, field by field. *)
Lemma Apply_ok params replicaConfig c c' :
  Apply params replicaConfig c = (None, c') ->
  let ext := Get params codecOPTEnableTiDBExtension in
  let batch := Get params codecOPTMaxBatchSize in
  let bytes := Get params codecOPTMaxMessageBytes in
  let dec := Get params codecOPTAvroDecimalHandlingMode in
  let big := Get params codecOPTAvroBigintUnsignedHandlingMode in
  let wm := Get params codecOPTAvroEnableWatermark in
  let only := Get params codecOPTOnlyOutputUpdatedColumns in
  Protocol c' = Protocol c
  /\ EnableTiDBExtension c'
     = (if String.eqb ext "" then EnableTiDBExtension c else fst (ParseBool ext))
  /\ (ext <> "" -> snd (ParseBool ext) = None)
  /\ MaxBatchSize c' = (if String.eqb batch "" then MaxBatchSize c else fst (Atoi batch))
  /\ (batch <> "" -> snd (Atoi batch) = None)
  /\ MaxMessageBytes c'
     = (if String.eqb bytes "" then MaxMessageBytes c else fst (Atoi bytes))
  /\ (bytes <> "" -> snd (Atoi bytes) = None)
  /\ AvroDecimalHandlingMode c'
     = (if String.eqb dec "" then AvroDecimalHandlingMode c else dec)
  /\ AvroBigintUnsignedHandlingMode c'
     = (if String.eqb big "" then AvroBigintUnsignedHandlingMode c else big)
  /\ AvroEnableWatermark c'
     = (if negb (String.eqb wm "")
           && (EnableTiDBExtension c' && bool_decide (Protocol c = config.ProtocolAvro))
        then fst (ParseBool wm) else AvroEnableWatermark c)
  /\ AvroSchemaRegistry c'
     = match config.Sink replicaConfig with
       | Some sink =>
           if String.eqb (config.SchemaRegistry sink) "" then AvroSchemaRegistry c
           else config.SchemaRegistry sink
       | None => AvroSchemaRegistry c
       end
  /\ OnlyOutputUpdatedColumns c'
     = (if String.eqb only "" then
          match config.Sink replicaConfig with
          | Some sink => config.OnlyOutputUpdatedColumns sink
          | None => OnlyOutputUpdatedColumns c
          end
        else fst (ParseBool only))
  /\ (only <> "" -> snd (ParseBool only) = None)
  /\ (OnlyOutputUpdatedColumns c' = true -> config.EnableOldValue replicaConfig = true)
  /\ EnableRowChecksum c'
     = match config.Integrity replicaConfig with
       | Some integrity => config.Enabled integrity
       | None => EnableRowChecksum c
       end.
Proof.
  intros Happly ext batch bytes dec big wm only.
  unfold Apply in Happly.
  fold ext batch bytes dec big wm only in Happly.
  apply (andThen_parse _ _ _ _ field_EnableTiDBExtension) in Happly as [Pext Happly].
  apply (andThen_parse _ _ _ _ field_MaxBatchSize) in Happly as [Pbatch Happly].
  apply (andThen_parse _ _ _ _ field_MaxMessageBytes) in Happly as [Pbytes Happly].
  cbv zeta in Happly.
  rewrite (if_set _ _ field_AvroDecimalHandlingMode) in Happly.
  rewrite (if_set _ _ field_AvroBigintUnsignedHandlingMode) in Happly.
  apply (andThen_parse_guarded _ _ _ _ field_AvroEnableWatermark) in Happly.
  cbv zeta in Happly.
  assert (Hend : forall c9,
            andThen
              (if negb (String.eqb only "") then
                 match ParseBool only with
                 | (_, Some err) => (Some (StrconvError err), c9)
                 | (a, None) => (None, setOnlyOutputUpdatedColumns c9 a)
                 end
               else (None, c9))
              (fun c10 =>
                 if OnlyOutputUpdatedColumns c10
                    && negb (config.EnableOldValue replicaConfig)
                 then (Some (ErrCodecInvalidConfig OldValueMustBeEnabled), c10)
                 else (None,
                       match config.Integrity replicaConfig with
                       | Some integrity =>
                           setEnableRowChecksum c10 (config.Enabled integrity)
                       | None => c10
                       end)) = (None, c') ->
            (only <> "" -> snd (ParseBool only) = None)
            /\ let c10 := setOnlyOutputUpdatedColumns c9
                            (if String.eqb only "" then OnlyOutputUpdatedColumns c9
                             else fst (ParseBool only)) in
               (OnlyOutputUpdatedColumns c10 = true ->
                config.EnableOldValue replicaConfig = true)
               /\ c' = match config.Integrity replicaConfig with
                       | Some integrity =>
                           setEnableRowChecksum c10 (config.Enabled integrity)
                       | None => c10
                       end).
  { intros c9 Hk.
    apply (andThen_parse _ _ _ _ field_OnlyOutputUpdatedColumns) in Hk as [Ponly Hk].
    split; [exact Ponly|]. cbv zeta.
    destruct (OnlyOutputUpdatedColumns _) eqn:Eo;
      destruct (config.EnableOldValue replicaConfig); cbn [andb negb] in Hk;
      try discriminate; injection Hk as <-; auto. }
  destruct (config.Sink replicaConfig) as [sink|];
    [rewrite (if_set _ _ field_AvroSchemaRegistry) in Happly;
     destruct (config.CSV sink) as [csv|]|];
    apply Hend in Happly as (Ponly & Hold & ->); clear Hend;
    destruct (config.Integrity replicaConfig) as [integrity|];
    cbn [Protocol MaxMessageBytes MaxBatchSize EnableTiDBExtension EnableRowChecksum
         AvroSchemaRegistry AvroDecimalHandlingMode AvroBigintUnsignedHandlingMode
         AvroEnableWatermark OnlyOutputUpdatedColumns
         setOnlyOutputUpdatedColumns setTerminator
         setDelimiter setQuote setNullString setIncludeCommitTs
         setAvroSchemaRegistry setAvroEnableWatermark setEnableRowChecksum
         setEnableTiDBExtension setMaxBatchSize
         setMaxMessageBytes setAvroDecimalHandlingMode
         setAvroBigintUnsignedHandlingMode] in Hold |- *;
    repeat match goal with |- _ /\ _ => split end;
    try reflexivity; try assumption;
    try (match goal with
         | |- context [String.eqb ?s ""] => destruct (String.eqb s "")
         end; reflexivity).
Qed.

(** When [Validate] accepts a configuration. *)
Lemma Validate_nil_iff c :
  Validate c = None
  <-> (Protocol c = config.ProtocolAvro ->
       AvroSchemaRegistry c <> ""
       /\ (AvroDecimalHandlingMode c = "precise" \/ AvroDecimalHandlingMode c = "string")
       /\ (AvroBigintUnsignedHandlingMode c = "long"
           \/ AvroBigintUnsignedHandlingMode c = "string")
       /\ (EnableRowChecksum c = true ->
           EnableTiDBExtension c = true
           /\ AvroDecimalHandlingMode c = "string"
           /\ AvroBigintUnsignedHandlingMode c = "string"))
      /\ 0 < MaxMessageBytes c /\ 0 < MaxBatchSize c.
Proof.
  unfold Validate, DecimalHandlingModePrecise, DecimalHandlingModeString,
    BigintUnsignedHandlingModeLong, BigintUnsignedHandlingModeString.
  destruct (Z.leb_spec (MaxMessageBytes c) 0) as [Hb|Hb];
    destruct (Z.leb_spec (MaxBatchSize c) 0) as [Hs|Hs];
    (destruct (bool_decide_reflect (Protocol c = config.ProtocolAvro)) as [Hp|Hp];
     [destruct (String.eqb_spec (AvroSchemaRegistry c) "") as [Hr|Hr];
      [|destruct (String.eqb_spec (AvroDecimalHandlingMode c) "precise") as [Hd1|Hd1];
        destruct (String.eqb_spec (AvroDecimalHandlingMode c) "string") as [Hd2|Hd2];
        destruct (String.eqb_spec (AvroBigintUnsignedHandlingMode c) "long") as [Hl1|Hl1];
        destruct (String.eqb_spec (AvroBigintUnsignedHandlingMode c) "string") as [Hl2|Hl2];
        destruct (EnableRowChecksum c); destruct (EnableTiDBExtension c)]|]);
    cbn [negb andb]; split;
    try discriminate; try (intros (_ & ? & ?); lia);
    try (intros _; split; [intros Hp'|split; assumption]);
    try (intros (Ha & _ & _); specialize (Ha Hp); destruct Ha as (? & [?|?] & [?|?] & Hc);
         try congruence;
         try (destruct Hc as (? & ? & ?); [reflexivity|]; congruence));
    try reflexivity; try congruence;
    try (split; [assumption|]; split; [auto|]; split; [auto|];
         intros Hc; try discriminate; auto).
Qed.

(** X15.  Outside the avro protocol [Validate] looks at the two sizes only:
    it returns nil exactly when [MaxMessageBytes] and [MaxBatchSize] are
    positive.  No other field can make it fail there; in particular
    [enable-tidb-extension] on a protocol that does not support it is
    let through. *)
Theorem Validate_outside_avro_checks_sizes_only (c : Config) :
  Protocol c <> config.ProtocolAvro ->
  (Validate c = None <-> 0 < MaxMessageBytes c /\ 0 < MaxBatchSize c)
  /\ (MaxMessageBytes c <= 0 ->
      Validate c = Some (ErrCodecInvalidConfig (InvalidMaxMessageBytes (MaxMessageBytes c))))
  /\ (0 < MaxMessageBytes c -> MaxBatchSize c <= 0 ->
      Validate c = Some (ErrCodecInvalidConfig (InvalidMaxBatchSize (MaxBatchSize c)))).
Proof.
  intros Hp. split; [|split].
  - rewrite Validate_nil_iff. split; [intros (_ & ? & ?); auto|].
    intros [? ?]. split; [intros; contradiction|auto].
  - intros Hb. unfold Validate. rewrite bool_decide_eq_false_2 by exact Hp.
    destruct (Z.leb_spec (MaxMessageBytes c) 0); [reflexivity|lia].
  - intros Hb Hs. unfold Validate. rewrite bool_decide_eq_false_2 by exact Hp.
    destruct (Z.leb_spec (MaxMessageBytes c) 0); [lia|].
    destruct (Z.leb_spec (MaxBatchSize c) 0); [reflexivity|lia].
Qed.

(** X16.  Row checksums on avro need three options of the sink URI: when a
    configuration fresh from [NewConfig] for avro has been through [Apply]
    with the integrity check enabled and [Validate] accepts it, the URI set
    [enable-tidb-extension] to a true value and both handling modes to
    [string], and the replica configuration named a schema registry. *)
Theorem avro_row_checksum_needs_uri_options
    (params : Values) (replicaConfig : config.ReplicaConfig)
    (integrity : config.IntegrityConfig) (c' : Config) :
  config.Integrity replicaConfig = Some integrity ->
  config.Enabled integrity = true ->
  Apply params replicaConfig (NewConfig config.ProtocolAvro) = (None, c') ->
  Validate c' = None ->
  ParseBool (Get params codecOPTEnableTiDBExtension) = (true, None)
  /\ Get params codecOPTAvroDecimalHandlingMode = "string"
  /\ Get params codecOPTAvroBigintUnsignedHandlingMode = "string"
  /\ exists sink,
       config.Sink replicaConfig = Some sink
       /\ config.SchemaRegistry sink <> ""
       /\ AvroSchemaRegistry c' = config.SchemaRegistry sink.
Proof.
  intros Hint Hen Happly Hval.
  destruct (Apply_ok _ _ _ _ Happly)
    as (Hp & Hext & Pext & _ & _ & _ & _ & Hdec & Hbig & _ & Hreg & _ & _ & _ & Hsum).
  cbv zeta in *. rewrite Hint, Hen in Hsum.
  apply Validate_nil_iff in Hval as (Havro & _ & _).
  destruct (Havro Hp) as (Hr & _ & _ & Hc).
  destruct (Hc Hsum) as (He & Hd & Hb).
  cbn [NewConfig EnableTiDBExtension AvroDecimalHandlingMode
       AvroBigintUnsignedHandlingMode AvroSchemaRegistry] in Hext, Hdec, Hbig, Hreg.
  split; [|split; [|split]].
  - destruct (String.eqb_spec (Get params codecOPTEnableTiDBExtension) "") as [E|E];
      [congruence|].
    specialize (Pext E).
    destruct (ParseBool _) as [b e]; cbn [fst snd] in *. congruence.
  - destruct (String.eqb (Get params codecOPTAvroDecimalHandlingMode) "");
      [rewrite Hdec in Hd; discriminate|congruence].
  - destruct (String.eqb (Get params codecOPTAvroBigintUnsignedHandlingMode) "");
      [rewrite Hbig in Hb; discriminate|congruence].
  - destruct (config.Sink replicaConfig) as [sink|]; [|congruence].
    exists sink. split; [reflexivity|].
    destruct (String.eqb_spec (config.SchemaRegistry sink) "") as [E|E];
      [congruence|auto].
Qed.

(** X17.  The watermark switch is reachable on one path only: after an
    [Apply] on a configuration fresh from [NewConfig] that returned nil,
    [AvroEnableWatermark] is set only if the protocol is avro and the URI
    gave true values for both [enable-tidb-extension] and
    [avro-enable-watermark]. *)
Theorem Apply_watermark_needs_avro_and_extension
    (protocol : config.Protocol) (params : Values)
    (replicaConfig : config.ReplicaConfig) (c' : Config) :
  Apply params replicaConfig (NewConfig protocol) = (None, c') ->
  AvroEnableWatermark c' = true ->
  protocol = config.ProtocolAvro
  /\ EnableTiDBExtension c' = true
  /\ ParseBool (Get params codecOPTEnableTiDBExtension) = (true, None)
  /\ fst (ParseBool (Get params codecOPTAvroEnableWatermark)) = true.
Proof.
  intros Happly Hwm.
  destruct (Apply_ok _ _ _ _ Happly)
    as (_ & Hext & Pext & _ & _ & _ & _ & _ & _ & Hw & _).
  cbv zeta in *. rewrite Hwm in Hw.
  cbn [NewConfig EnableTiDBExtension AvroEnableWatermark Protocol] in Hext, Hw.
  destruct (negb _) in Hw; cbn [andb] in Hw; [|discriminate].
  destruct (EnableTiDBExtension c') eqn:He; cbn [andb] in Hw; [|discriminate].
  destruct (bool_decide_reflect (protocol = config.ProtocolAvro)) as [Hp|Hp];
    [|discriminate].
  split; [exact Hp|]. split; [reflexivity|]. split; [|auto].
  destruct (String.eqb_spec (Get params codecOPTEnableTiDBExtension) "") as [E|E];
    [discriminate|].
  specialize (Pext E).
  destruct (ParseBool _) as [b e]; cbn [fst snd] in *. congruence.
Qed.

(** X18.  After an [Apply] that returned nil, [OnlyOutputUpdatedColumns]
    is the value of the URI option when the URI has one, else the value of
    the sink configuration when there is one, else what it was; and it is
    never true while old values are disabled. *)
Theorem Apply_only_output_updated_columns
    (params : Values) (replicaConfig : config.ReplicaConfig) (c c' : Config) :
  Apply params replicaConfig c = (None, c') ->
  let only := Get params codecOPTOnlyOutputUpdatedColumns in
  (only <> "" -> ParseBool only = (OnlyOutputUpdatedColumns c', None))
  /\ (only = "" ->
      OnlyOutputUpdatedColumns c'
      = match config.Sink replicaConfig with
        | Some sink => config.OnlyOutputUpdatedColumns sink
        | None => OnlyOutputUpdatedColumns c
        end)
  /\ (OnlyOutputUpdatedColumns c' = true -> config.EnableOldValue replicaConfig = true).
Proof.
  intros Happly only.
  destruct (Apply_ok _ _ _ _ Happly)
    as (_ & _ & _ & _ & _ & _ & _ & _ & _ & _ & _ & Ho & Po & Hold & _).
  cbv zeta in *. fold only in Ho, Po.
  split; [|split; [|exact Hold]].
  - intros E. specialize (Po E).
    destruct (String.eqb_spec only "") as [E'|_]; [contradiction|].
    destruct (ParseBool only) as [b e]; cbn [fst snd] in *. congruence.
  - intros E. rewrite E in Ho. exact Ho.
Qed.

(** X19.  [Apply] takes any integer that [strconv.Atoi] reads and leaves
    the range check to [Validate]: when both accept, a size given in the
    URI is a decimal integer greater than zero, and is the size of the
    configuration. *)
Theorem Apply_Validate_sizes
    (params : Values) (replicaConfig : config.ReplicaConfig) (c c' : Config) :
  Apply params replicaConfig c = (None, c') ->
  Validate c' = None ->
  let bytes := Get params codecOPTMaxMessageBytes in
  let batch := Get params codecOPTMaxBatchSize in
  0 < MaxMessageBytes c' /\ 0 < MaxBatchSize c'
  /\ (bytes <> "" -> Atoi bytes = (MaxMessageBytes c', None))
  /\ (bytes = "" -> MaxMessageBytes c' = MaxMessageBytes c)
  /\ (batch <> "" -> Atoi batch = (MaxBatchSize c', None))
  /\ (batch = "" -> MaxBatchSize c' = MaxBatchSize c).
Proof.
  intros Happly Hval bytes batch.
  destruct (Apply_ok _ _ _ _ Happly)
    as (_ & _ & _ & Hba & Pba & Hby & Pby & _).
  cbv zeta in *. fold bytes in Hby, Pby. fold batch in Hba, Pba.
  apply Validate_nil_iff in Hval as (_ & Hb & Hs).
  split; [exact Hb|]. split; [exact Hs|].
  split; [|split; [|split]].
  - intros E. specialize (Pby E).
    destruct (String.eqb_spec bytes "") as [E'|_]; [contradiction|].
    destruct (Atoi bytes) as [n e]; cbn [fst snd] in *. congruence.
  - intros E. rewrite E in Hby. exact Hby.
  - intros E. specialize (Pba E).
    destruct (String.eqb_spec batch "") as [E'|_]; [contradiction|].
    destruct (Atoi batch) as [n e]; cbn [fst snd] in *. congruence.
  - intros E. rewrite E in Hba. exact Hba.
Qed.

End CodecProps.

(** *** An instance of the package [config] and the cases of the tests *)

Module CodecFixtures.
Import GoLib CodecConfig.

Inductive exampleProtocol :=
| ExampleDefault | ExampleCanalJSON | ExampleAvro | ExampleOpen.

Global Instance exampleProtocol_eq_dec : EqDecision exampleProtocol.
Proof. solve_decision. Defined.

(** The integrity settings are their check level; [correctness] enables the
    checksum. *)
Definition examplePkg : config.Pkg :=
  {| config.Protocol := exampleProtocol;
     config.Protocol_eq_dec := exampleProtocol_eq_dec;
     config.ProtocolCanalJSON := ExampleCanalJSON;
     config.ProtocolAvro := ExampleAvro;
     config.DefaultMaxMessageBytes := 10485760%Z;
     config.IntegrityConfig := string;
     config.Enabled := fun level => String.eqb level "correctness" |}.

(** A query with one value for each key. *)
Definition query (kvs : list (string * string)) : Values :=
  list_to_map ((fun kv => (fst kv, [snd kv])) <$> kvs).

(** The replica configuration of the tests: old values enabled, a sink with
    the given schema registry, the integrity check at the given level. *)
Definition replicaOf (registry level : string) : @config.ReplicaConfig examplePkg :=
  @config.Build_ReplicaConfig examplePkg true
    (Some {| config.SchemaRegistry := registry;
             config.Terminator := "";
             config.CSV := None;
             config.OnlyOutputUpdatedColumns := false |})
    (Some level).

End CodecFixtures.

Lemma Validate_outside_avro_checks_sizes_only_witness :
  let c := CodecConfig.WithMaxMessageBytes (-1)
             (CodecConfig.setEnableTiDBExtension
                (@CodecConfig.NewConfig CodecFixtures.examplePkg CodecFixtures.ExampleOpen)
                true) in
  CodecConfig.Protocol c <> CodecFixtures.ExampleAvro
  /\ CodecConfig.Validate c
     = Some (CodecConfig.ErrCodecInvalidConfig (CodecConfig.InvalidMaxMessageBytes (-1)))
  /\ CodecConfig.Validate
       (CodecConfig.setEnableTiDBExtension
          (@CodecConfig.NewConfig CodecFixtures.examplePkg CodecFixtures.ExampleOpen) true)
     = None.
Proof.
  intros c.
  assert (Hp : CodecConfig.Protocol c <> CodecFixtures.ExampleAvro) by discriminate.
  split; [exact Hp|].
  destruct (@Validate_outside_avro_checks_sizes_only CodecFixtures.examplePkg c Hp)
    as (_ & Hbytes & _).
  split; [apply Hbytes; vm_compute; discriminate|].
  apply (@Validate_outside_avro_checks_sizes_only CodecFixtures.examplePkg);
    [discriminate|split; reflexivity].
Defined.

Lemma avro_row_checksum_needs_uri_options_witness :
  let params := CodecFixtures.query
                  [("protocol", "avro"); ("enable-tidb-extension", "true");
                   ("avro-decimal-handling-mode", "string");
                   ("avro-bigint-unsigned-handling-mode", "string")] in
  let rc := CodecFixtures.replicaOf "some-schema-registry" "correctness" in
  let c' := snd (CodecConfig.Apply params rc
                   (@CodecConfig.NewConfig CodecFixtures.examplePkg CodecFixtures.ExampleAvro)) in
  CodecConfig.Validate c' = None
  /\ CodecConfig.EnableRowChecksum c' = true
  /\ GoLib.ParseBool (GoLib.Get params CodecConfig.codecOPTEnableTiDBExtension)
     = (true, None)
  /\ GoLib.Get params CodecConfig.codecOPTAvroDecimalHandlingMode = "string".
Proof.
  intros params rc c'.
  assert (Hval : CodecConfig.Validate c' = None) by (vm_compute; reflexivity).
  split; [exact Hval|]. split; [vm_compute; reflexivity|].
  destruct (@avro_row_checksum_needs_uri_options CodecFixtures.examplePkg
              params rc "correctness" c' eq_refl eq_refl)
    as (Hext & Hdec & _); [vm_compute; reflexivity|exact Hval|].
  split; [exact Hext|exact Hdec].
Defined.

Lemma Apply_watermark_needs_avro_and_extension_witness :
  let params := CodecFixtures.query
                  [("protocol", "avro"); ("enable-tidb-extension", "true");
                   ("avro-enable-watermark", "true")] in
  let rc := CodecFixtures.replicaOf "some-schema-registry" "none" in
  let c' := snd (CodecConfig.Apply params rc
                   (@CodecConfig.NewConfig CodecFixtures.examplePkg CodecFixtures.ExampleAvro)) in
  CodecConfig.AvroEnableWatermark c' = true
  /\ CodecConfig.EnableTiDBExtension c' = true
  /\ CodecConfig.AvroEnableWatermark
       (snd (CodecConfig.Apply params rc
               (@CodecConfig.NewConfig CodecFixtures.examplePkg CodecFixtures.ExampleCanalJSON))) = false.
Proof.
  intros params rc c'.
  assert (Hwm : CodecConfig.AvroEnableWatermark c' = true) by (vm_compute; reflexivity).
  split; [exact Hwm|].
  destruct (@Apply_watermark_needs_avro_and_extension CodecFixtures.examplePkg
              CodecFixtures.ExampleAvro params rc c')
    as (_ & Hext & _); [vm_compute; reflexivity|exact Hwm|].
  split; [exact Hext|vm_compute; reflexivity].
Defined.

Lemma Apply_only_output_updated_columns_witness :
  let params := CodecFixtures.query [("only-output-updated-columns", "true")] in
  let rc := CodecFixtures.replicaOf "" "none" in
  let c := @CodecConfig.NewConfig CodecFixtures.examplePkg CodecFixtures.ExampleOpen in
  fst (CodecConfig.Apply params rc c) = None
  /\ CodecConfig.OnlyOutputUpdatedColumns (snd (CodecConfig.Apply params rc c)) = true
  /\ config.EnableOldValue rc = true.
Proof.
  intros params rc c.
  assert (Happly : CodecConfig.Apply params rc c
                   = (None, snd (CodecConfig.Apply params rc c)))
    by (vm_compute; reflexivity).
  split; [vm_compute; reflexivity|].
  destruct (@Apply_only_output_updated_columns CodecFixtures.examplePkg
              params rc c _ Happly) as (Hurl & _ & Hold).
  assert (Hon : CodecConfig.OnlyOutputUpdatedColumns (snd (CodecConfig.Apply params rc c))
                = true) by (vm_compute; reflexivity).
  split; [exact Hon|exact (Hold Hon)].
Defined.

Lemma Apply_Validate_sizes_witness :
  let params := CodecFixtures.query [("max-message-bytes", "4096");
                                     ("max-batch-size", "+8")] in
  let rc := CodecFixtures.replicaOf "" "none" in
  let c := @CodecConfig.NewConfig CodecFixtures.examplePkg CodecFixtures.ExampleOpen in
  let c' := snd (CodecConfig.Apply params rc c) in
  CodecConfig.Validate c' = None
  /\ CodecConfig.MaxMessageBytes c' = 4096%Z
  /\ GoLib.Atoi "+8" = (CodecConfig.MaxBatchSize c', None)
  /\ CodecConfig.Validate
       (snd (CodecConfig.Apply (CodecFixtures.query [("max-message-bytes", "-1")]) rc c))
     = Some (CodecConfig.ErrCodecInvalidConfig (CodecConfig.InvalidMaxMessageBytes (-1))).
Proof.
  intros params rc c c'.
  assert (Happly : CodecConfig.Apply params rc c = (None, c')) by (vm_compute; reflexivity).
  assert (Hval : CodecConfig.Validate c' = None) by (vm_compute; reflexivity).
  split; [exact Hval|]. split; [vm_compute; reflexivity|].
  destruct (@Apply_Validate_sizes CodecFixtures.examplePkg params rc c c' Happly Hval)
    as (_ & _ & _ & _ & Hbatch & _).
  split; [apply Hbatch; vm_compute; discriminate|vm_compute; reflexivity].
Defined.
